(** * Gesture classification and viewport transform of the reader

    A shallow embedding of
    - the iframe event handlers (click disambiguation, long-hold gate,
      keyboard modifier snapshot, long-press tracker), and
    - the image viewer's zoom / pan state machine,
    together with the properties stated about them.

    Conventions.
    - Module-level [let] variables and React state become fields of an
      explicit state record that every handler takes and returns.
    - [Date.now()] is an argument [now] of the handler that reads it.
    - [setTimeout] stores the callback, as data, in a table of pending
      timers under a fresh handle; the event loop is the action [Fire],
      which runs a pending callback whose delay has elapsed.
    - [requestAnimationFrame] stores the closure, as data with the values
      it captured, in a queue; the action [AnimationFrame] runs the
      queued closures in order.
    - [window.postMessage] and [eventDispatcher.dispatch] append to a log. *)

From Stdlib Require Import ZArith QArith Qabs Qround Lqa String List Lia Bool.
From stdpp Require Import gmap strings.
Import ListNotations.

(** ** The part of the DOM the handlers look at *)

Module Dom.

Record Element := {
  eid : nat;                              (* object identity *)
  localName : string;
  classList : list string;
  attributes : list (string * string);
  src : string;                           (* HTMLImageElement.src *)
  outerHTML : string;
}.

(** An element together with its chain of ancestors, nearest first. *)
Record Node := { self : Element; ancestors : list Element }.

Definition getAttribute (name : string) (e : Element) : option string :=
  snd <$> find (fun kv => String.eqb (fst kv) name) (attributes e).

Definition notNull {A} (o : option A) : bool :=
  match o with Some _ => true | None => false end.

Definition hasAttribute (name : string) (e : Element) : bool :=
  notNull (getAttribute name e).

Definition hasClass (c : string) (e : Element) : bool :=
  existsb (String.eqb c) (classList e).

Definition hasLocalName (names : list string) (e : Element) : bool :=
  existsb (String.eqb (localName e)) names.

(** [closest_from sel e anc] is [e.closest(sel)] for an element [e] whose
    ancestors are [anc]: the element itself if it matches, else the
    nearest matching ancestor, else null. *)
Fixpoint closest_from (sel : Element -> bool) (e : Element) (anc : list Element)
  : option Node :=
  if sel e then Some {| self := e; ancestors := anc |}
  else match anc with
       | [] => None
       | p :: anc' => closest_from sel p anc'
       end.

Definition closest (sel : Element -> bool) (n : Node) : option Node :=
  closest_from sel (self n) (ancestors n).

(** The selectors of the source. *)

(* 'sup, a, audio, video' *)
Definition sel_interactive : Element -> bool :=
  hasLocalName ["sup"; "a"; "audio"; "video"]%string.

(* 'a.duokan-footnote:not([href])' *)
Definition sel_bare_duokan (e : Element) : bool :=
  hasLocalName ["a"%string] e && hasClass "duokan-footnote" e
  && negb (hasAttribute "href" e).

(* '.js_readerFooterNote, .zhangyue-footnote, .duokan-footnote' *)
Definition sel_footnote (e : Element) : bool :=
  hasClass "js_readerFooterNote" e || hasClass "zhangyue-footnote" e
  || hasClass "duokan-footnote" e.

(* 'table' *)
Definition sel_table : Element -> bool := hasLocalName ["table"%string].

(** [a || b] on attribute values: null and the empty string are falsy. *)
Definition or_else (a : option string) (b : string) : string :=
  match a with
  | Some s => if String.eqb s "" then b else s
  | None => b
  end.

End Dom.

(** ** Events and messages *)

Record Modifiers := {
  ctrlKey : bool; shiftKey : bool; altKey : bool; metaKey : bool;
}.

(** The object built by [getKeyStatus]; also the shape of [keyboardState]. *)
Record KeyStatus := { key : string; code : string; mods : Modifiers }.

Record KeyboardEvent := { ke_key : string; ke_code : string; ke_mods : Modifiers }.

Record Geometry := {
  screenX : Q; screenY : Q;
  clientX : Q; clientY : Q;
  offsetX : Q; offsetY : Q;
}.

Record MouseEvent := {
  target : option Dom.Node;               (* event.target as HTMLElement | null *)
  button : Z;
  geometry : Geometry;
  ev_mods : Modifiers;
}.

Inductive Message :=
| iframe_keydown (bookKey : string) (k : KeyStatus)
| iframe_keyup (bookKey : string) (k : KeyStatus)
| iframe_mousedown (bookKey : string) (button : Z) (g : Geometry) (k : KeyStatus)
| iframe_mouseup (bookKey : string) (button : Z) (g : Geometry) (k : KeyStatus)
| iframe_double_click (bookKey : string) (g : Geometry) (k : KeyStatus)
| iframe_single_click (bookKey : string) (g : Geometry) (k : KeyStatus)
| footnote_popup (bookKey : string) (element : Dom.Node) (footnote : string)
| iframe_long_press_image (bookKey : string) (src : string)
| iframe_long_press_table (bookKey : string) (html : string).

(** The [type] field of a message (for [footnote_popup], the event name). *)
Inductive Kind :=
| KKeydown | KKeyup | KMousedown | KMouseup
| KDoubleClick | KSingleClick | KFootnote | KLongPress.

Definition kind (m : Message) : Kind :=
  match m with
  | iframe_keydown _ _ => KKeydown
  | iframe_keyup _ _ => KKeyup
  | iframe_mousedown _ _ _ _ => KMousedown
  | iframe_mouseup _ _ _ _ => KMouseup
  | iframe_double_click _ _ _ => KDoubleClick
  | iframe_single_click _ _ _ => KSingleClick
  | footnote_popup _ _ _ => KFootnote
  | iframe_long_press_image _ _ | iframe_long_press_table _ _ => KLongPress
  end.

Definition bookKeyOf (m : Message) : string :=
  match m with
  | iframe_keydown b _ | iframe_keyup b _
  | iframe_mousedown b _ _ _ | iframe_mouseup b _ _ _
  | iframe_double_click b _ _ | iframe_single_click b _ _
  | footnote_popup b _ _
  | iframe_long_press_image b _ | iframe_long_press_table b _ => b
  end.

(** ** Keyboard, mouse-down and click handlers *)

Module IframeEvents.
Import Dom.
Local Open Scope Z_scope.

(** A [setTimeout] callback of this module. *)
Inductive Callback :=
| ClearLongHold                                        (* () => { longHoldTimeout = null; } *)
| DeferredClick (bookKey : string) (event : MouseEvent).
    (* () => { if (Date.now() - lastClickTime >= THRESHOLD) postSingleClick(); } *)

Record State := {
  lastClickTime : Z;
  longHoldTimeout : option nat;
  keyboardState : KeyStatus;
  timers : gmap nat (Z * Callback);       (* pending: due time, callback *)
  nextTimer : nat;                        (* next handle setTimeout returns *)
  posted : list Message;                  (* oldest first *)
}.

Definition noMods : Modifiers :=
  {| ctrlKey := false; shiftKey := false; altKey := false; metaKey := false |}.

Definition init : State :=
  {| lastClickTime := 0;
     longHoldTimeout := None;
     keyboardState := {| key := ""; code := ""; mods := noMods |};
     timers := ∅;
     nextTimer := 1;
     posted := [] |}.

Definition post (m : Message) (st : State) : State :=
  {| lastClickTime := lastClickTime st;
     longHoldTimeout := longHoldTimeout st;
     keyboardState := keyboardState st;
     timers := timers st;
     nextTimer := nextTimer st;
     posted := posted st ++ [m] |}.

(** [setTimeout(cb, delay)] called at time [now]; the handle is
    [nextTimer st] of the state it is applied to. *)
Definition setTimeout (now delay : Z) (cb : Callback) (st : State) : State :=
  {| lastClickTime := lastClickTime st;
     longHoldTimeout := longHoldTimeout st;
     keyboardState := keyboardState st;
     timers := <[nextTimer st := (now + delay, cb)]> (timers st);
     nextTimer := S (nextTimer st);
     posted := posted st |}.

Definition set_lastClickTime (t : Z) (st : State) : State :=
  {| lastClickTime := t;
     longHoldTimeout := longHoldTimeout st;
     keyboardState := keyboardState st;
     timers := timers st;
     nextTimer := nextTimer st;
     posted := posted st |}.

Definition set_longHoldTimeout (h : option nat) (st : State) : State :=
  {| lastClickTime := lastClickTime st;
     longHoldTimeout := h;
     keyboardState := keyboardState st;
     timers := timers st;
     nextTimer := nextTimer st;
     posted := posted st |}.

Definition set_keyboardState (k : KeyStatus) (st : State) : State :=
  {| lastClickTime := lastClickTime st;
     longHoldTimeout := longHoldTimeout st;
     keyboardState := k;
     timers := timers st;
     nextTimer := nextTimer st;
     posted := posted st |}.

(** Mouse events carry their own modifier flags, so [getKeyStatus(event)]
    takes the flags from the event and key / code from the snapshot. *)
Definition getKeyStatus (event : MouseEvent) (st : State) : KeyStatus :=
  {| key := key (keyboardState st);
     code := code (keyboardState st);
     mods := ev_mods event |}.

Definition handleKeydown (bookKey : string) (event : KeyboardEvent) (st : State) : State :=
  let k := {| key := ke_key event; code := ke_code event; mods := ke_mods event |} in
  post (iframe_keydown bookKey k) (set_keyboardState k st).

Definition handleKeyup (bookKey : string) (event : KeyboardEvent) (st : State) : State :=
  post (iframe_keyup bookKey
          {| key := ke_key event; code := ke_code event; mods := ke_mods event |})
       (set_keyboardState {| key := ""; code := ""; mods := ke_mods event |} st).

Definition handleMouseup (bookKey : string) (event : MouseEvent) (st : State) : State :=
  post (iframe_mouseup bookKey (button event) (geometry event) (getKeyStatus event st)) st.

(** Does the first guard of [postSingleClick] return early? *)
Definition excluded (event : MouseEvent) : bool :=
  match target event with
  | Some element =>
      notNull (closest sel_interactive element)
      && negb (notNull (closest sel_bare_duokan element))
  | None => false
  end.

Definition footnoteOf (event : MouseEvent) : option Node :=
  match target event with
  | Some element => closest sel_footnote element
  | None => None
  end.

Definition footnoteText (event : MouseEvent) (footnote : Node) : string :=
  or_else (getAttribute "data-wr-footernote" (self footnote))
  (or_else (getAttribute "zy-footnote" (self footnote))
  (or_else (getAttribute "alt" (self footnote))
  (or_else (match target event with
            | Some element => getAttribute "alt" (self element)
            | None => None
            end) ""))).

Definition postSingleClick (bookKey : string) (event : MouseEvent) (st : State) : State :=
  if excluded event then st
  else match footnoteOf event with
       | Some footnote =>
           post (footnote_popup bookKey footnote (footnoteText event footnote)) st
       | None =>
           (* if long hold is detected, we don't want to send single click event *)
           match longHoldTimeout st with
           | None => st
           | Some _ =>
               post (iframe_single_click bookKey (geometry event)
                       (getKeyStatus event st)) st
           end
       end.

Section Handlers.

(** The two constants imported from '@/services/constants'. *)
Variable DOUBLE_CLICK_INTERVAL_THRESHOLD_MS : Z.
Variable LONG_HOLD_THRESHOLD : Z.

Definition handleMousedown (bookKey : string) (event : MouseEvent) (now : Z)
  (st : State) : State :=
  let h := nextTimer st in
  let st := setTimeout now LONG_HOLD_THRESHOLD ClearLongHold st in
  let st := set_longHoldTimeout (Some h) st in
  post (iframe_mousedown bookKey (button event) (geometry event)
          (getKeyStatus event st)) st.

Definition handleClick (bookKey : string) (doubleClickDisabled : bool)
  (event : MouseEvent) (now : Z) (st : State) : State :=
  if negb doubleClickDisabled
     && (now - lastClickTime st <? DOUBLE_CLICK_INTERVAL_THRESHOLD_MS)
  then
    let st := set_lastClickTime now st in
    post (iframe_double_click bookKey (geometry event) (getKeyStatus event st)) st
  else
    let st := set_lastClickTime now st in
    if negb doubleClickDisabled
    then setTimeout now DOUBLE_CLICK_INTERVAL_THRESHOLD_MS
           (DeferredClick bookKey event) st
    else postSingleClick bookKey event st.

(** Body of a timer callback, run at time [now]. *)
Definition runCallback (cb : Callback) (now : Z) (st : State) : State :=
  match cb with
  | ClearLongHold => set_longHoldTimeout None st
  | DeferredClick bookKey event =>
      if DOUBLE_CLICK_INTERVAL_THRESHOLD_MS <=? now - lastClickTime st
      then postSingleClick bookKey event st
      else st
  end.

Definition remove_timer (h : nat) (st : State) : State :=
  {| lastClickTime := lastClickTime st;
     longHoldTimeout := longHoldTimeout st;
     keyboardState := keyboardState st;
     timers := delete h (timers st);
     nextTimer := nextTimer st;
     posted := posted st |}.

(** The event loop runs timer [h] at time [now]: nothing happens unless
    [h] is pending and its delay has elapsed; a timer runs once. *)
Definition fire (now : Z) (h : nat) (st : State) : State :=
  match timers st !! h with
  | Some (due, cb) =>
      if due <=? now then runCallback cb now (remove_timer h st) else st
  | None => st
  end.

Inductive Action :=
| Keydown (bookKey : string) (event : KeyboardEvent)
| Keyup (bookKey : string) (event : KeyboardEvent)
| Mousedown (now : Z) (bookKey : string) (event : MouseEvent)
| Mouseup (bookKey : string) (event : MouseEvent)
| Click (now : Z) (bookKey : string) (doubleClickDisabled : bool) (event : MouseEvent)
| Fire (now : Z) (h : nat).

Definition step (st : State) (a : Action) : State :=
  match a with
  | Keydown b e => handleKeydown b e st
  | Keyup b e => handleKeyup b e st
  | Mousedown now b e => handleMousedown b e now st
  | Mouseup b e => handleMouseup b e st
  | Click now b d e => handleClick b d e now st
  | Fire now h => fire now h st
  end.

Definition run (acts : list Action) (st : State) : State := fold_left step acts st.

(** Actions that neither deliver a click nor run timer [h]. *)
Definition quiet_action (h : nat) (a : Action) : bool :=
  match a with
  | Click _ _ _ _ => false
  | Fire _ h' => negb (Nat.eqb h' h)
  | _ => true
  end.

Definition quiet (h : nat) (acts : list Action) : bool := forallb (quiet_action h) acts.

Definition is_mousedown (a : Action) : bool :=
  match a with Mousedown _ _ _ => true | _ => false end.

Definition mousedown_at (m : Z) (a : Action) : Prop :=
  match a with Mousedown now _ _ => now = m | _ => False end.

(** While [longHoldTimeout] holds a handle, that handle is the pending
    timer of a mouse-down of the trace. *)
Definition armed_by (acts : list Action) (st : State) : Prop :=
  forall k, longHoldTimeout st = Some k ->
    (k < nextTimer st)%nat
    /\ exists m, Exists (mousedown_at m) acts
                 /\ timers st !! k = Some (m + LONG_HOLD_THRESHOLD, ClearLongHold).

End Handlers.

(** The click classification delivered to surface [b]. *)
Definition is_click_kind (k : Kind) : bool :=
  match k with KSingleClick | KDoubleClick => true | _ => false end.

Definition classification (b : string) (st : State) : list Kind :=
  filter (fun k => is_click_kind k = true)
    (map kind (filter (fun m => bookKeyOf m = b) (posted st))).

(** Renaming the surfaces of a trace. *)
Definition relabelEvent (f : string -> string) (a : Action) : Action :=
  match a with
  | Keydown b e => Keydown (f b) e
  | Keyup b e => Keyup (f b) e
  | Mousedown now b e => Mousedown now (f b) e
  | Mouseup b e => Mouseup (f b) e
  | Click now b d e => Click now (f b) d e
  | Fire now h => Fire now h
  end.

Definition relabelMessage (f : string -> string) (m : Message) : Message :=
  match m with
  | iframe_keydown b k => iframe_keydown (f b) k
  | iframe_keyup b k => iframe_keyup (f b) k
  | iframe_mousedown b n g k => iframe_mousedown (f b) n g k
  | iframe_mouseup b n g k => iframe_mouseup (f b) n g k
  | iframe_double_click b g k => iframe_double_click (f b) g k
  | iframe_single_click b g k => iframe_single_click (f b) g k
  | footnote_popup b e t => footnote_popup (f b) e t
  | iframe_long_press_image b s => iframe_long_press_image (f b) s
  | iframe_long_press_table b h => iframe_long_press_table (f b) h
  end.

Definition relabelCallback (f : string -> string) (cb : Callback) : Callback :=
  match cb with
  | ClearLongHold => ClearLongHold
  | DeferredClick b e => DeferredClick (f b) e
  end.

Definition relabelState (f : string -> string) (st : State) : State :=
  {| lastClickTime := lastClickTime st;
     longHoldTimeout := longHoldTimeout st;
     keyboardState := keyboardState st;
     timers := prod_map id (relabelCallback f) <$> timers st;
     nextTimer := nextTimer st;
     posted := map (relabelMessage f) (posted st) |}.

(** Predicates and counters used in further statements. *)

Definition is_keyboard (a : Action) : bool :=
  match a with Keydown _ _ | Keyup _ _ => true | _ => false end.

Definition is_click (a : Action) : bool :=
  match a with Click _ _ _ _ => true | _ => false end.

(** Every click of the trace is delivered with [doubleClickDisabled] set. *)
Definition click_disabled (a : Action) : bool :=
  match a with Click _ _ d _ => d | _ => true end.

Definition isDeferred (cb : Callback) : bool :=
  match cb with DeferredClick _ _ => true | ClearLongHold => false end.

(** The number of clicks whose evaluation is still pending. *)
Definition pendingClicks (st : State) : nat :=
  size (filter (fun p : nat * (Z * Callback) => isDeferred (snd (snd p)) = true)
               (timers st)).

(** A message that classifies a click: single click, double click or
    footnote popup. *)
Definition isClassified (m : Message) : bool :=
  match kind m with
  | KSingleClick | KDoubleClick | KFootnote => true
  | _ => false
  end.

Definition classified (st : State) : nat :=
  length (List.filter isClassified (posted st)).

Definition clicks (acts : list Action) : nat := length (List.filter is_click acts).

(** Every pending handle is one [setTimeout] has returned. *)
Definition fresh (st : State) : Prop :=
  forall h x, timers st !! h = Some x -> (h < nextTimer st)%nat.

End IframeEvents.

(** ** The long-press tracker ([addLongPressListeners]) *)

Record Touch := { t_clientX : Q; t_clientY : Q }.

Module LongPress.
Import Dom.
Local Open Scope Z_scope.

Definition longPressDuration : Z := 500.
Definition moveThreshold : Q := 10.   (* pixels *)

(** The events the listeners receive: a mouse event has [clientX] and
    [clientY], a touch event has [touches]. *)
Inductive PressEvent :=
| MouseEv (target : Node) (clientX clientY : Q)
| TouchEv (target : Node) (touches : list Touch).

Definition targetOf (event : PressEvent) : Node :=
  match event with MouseEv t _ _ | TouchEv t _ => t end.

Inductive EventType :=
| mousedown | mousemove | mouseup | mouseleave | touchstart | touchmove | touchend.

Record State := {
  pressTimers : gmap nat nat;             (* Map<Element, timer>, by element identity *)
  pressStartPositions : gmap nat (Q * Q); (* Map<Element, {x, y}> *)
  timers : gmap nat (Z * (PressEvent * Node));
                                          (* pending: due time, (event, elementToTrack) *)
  nextTimer : nat;
  observing : bool;                       (* the MutationObserver is connected *)
  marked : gset nat;                      (* given data-long-press-added and listeners *)
  posted : list Message;
}.

Definition set_pressTimers (m : gmap nat nat) (st : State) : State :=
  {| pressTimers := m;
     pressStartPositions := pressStartPositions st;
     timers := timers st; nextTimer := nextTimer st;
     observing := observing st; marked := marked st; posted := posted st |}.

Definition set_pressStartPositions (m : gmap nat (Q * Q)) (st : State) : State :=
  {| pressTimers := pressTimers st;
     pressStartPositions := m;
     timers := timers st; nextTimer := nextTimer st;
     observing := observing st; marked := marked st; posted := posted st |}.

Definition set_timers (m : gmap nat (Z * (PressEvent * Node))) (st : State) : State :=
  {| pressTimers := pressTimers st;
     pressStartPositions := pressStartPositions st;
     timers := m; nextTimer := nextTimer st;
     observing := observing st; marked := marked st; posted := posted st |}.

Definition set_observing (b : bool) (st : State) : State :=
  {| pressTimers := pressTimers st;
     pressStartPositions := pressStartPositions st;
     timers := timers st; nextTimer := nextTimer st;
     observing := b; marked := marked st; posted := posted st |}.

Definition set_marked (s : gset nat) (st : State) : State :=
  {| pressTimers := pressTimers st;
     pressStartPositions := pressStartPositions st;
     timers := timers st; nextTimer := nextTimer st;
     observing := observing st; marked := s; posted := posted st |}.

Definition post (m : Message) (st : State) : State :=
  {| pressTimers := pressTimers st;
     pressStartPositions := pressStartPositions st;
     timers := timers st; nextTimer := nextTimer st;
     observing := observing st; marked := marked st; posted := posted st ++ [m] |}.

(** [clearTimeout(h)]; [clearTimeout(undefined)] does nothing. *)
Definition clearTimeout (h : option nat) (st : State) : State :=
  match h with
  | Some h => set_timers (delete h (timers st)) st
  | None => st
  end.

Definition setTimeout (now : Z) (cb : PressEvent * Node) (st : State) : State :=
  {| pressTimers := pressTimers st;
     pressStartPositions := pressStartPositions st;
     timers := <[nextTimer st := (now + longPressDuration, cb)]> (timers st);
     nextTimer := S (nextTimer st);
     observing := observing st; marked := marked st; posted := posted st |}.

Definition isImage (target : Node) : bool := String.eqb (localName (self target)) "img".
Definition isTable (target : Node) : bool := String.eqb (localName (self target)) "table".
Definition isTableOrInTable (target : Node) : bool :=
  isTable target || notNull (closest sel_table target).

(** The element the three listeners key their maps by; [None] when the
    listener returns at its first guard. *)
Definition elementToTrack (target : Node) : option Node :=
  if negb (isImage target) && negb (isTableOrInTable target) then None
  else if isImage target then Some target
  else if isTable target then Some target
  else closest sel_table target.

(** [Math.sqrt(v) > t] for a threshold [t >= 0], decided on the squares. *)
Definition sqrt_gt (v t : Q) : bool := negb (Qle_bool v (t * t)).

Section Tracker.

Variable bookKey : string.

Definition handleLongPress (selection : option string) (target : Node)
  (st : State) : State :=
  (* Check if there's an active text selection - if so, don't trigger long-press *)
  if match selection with
     | Some s => Nat.ltb 0 (String.length s)
     | None => false
     end
  then st
  else if isImage target then
    post (iframe_long_press_image bookKey (src (self target))) st
  else if isTableOrInTable target then
    match (if isTable target then Some target else closest sel_table target) with
    | Some tableTarget =>
        post (iframe_long_press_table bookKey (outerHTML (self tableTarget))) st
    | None => st
    end
  else st.

Definition startPress (event : PressEvent) (now : Z) (st : State) : State :=
  match elementToTrack (targetOf event) with
  | None => st
  | Some el =>
      let k := eid (self el) in
      (* Store initial position for movement detection *)
      let st :=
        match event with
        | MouseEv _ cx cy =>
            set_pressStartPositions (<[k := (cx, cy)]> (pressStartPositions st)) st
        | TouchEv _ (touch :: _) =>
            set_pressStartPositions
              (<[k := (t_clientX touch, t_clientY touch)]> (pressStartPositions st)) st
        | TouchEv _ [] => st
        end in
      let st := clearTimeout (pressTimers st !! k) st in
      let timer := nextTimer st in
      let st := setTimeout now (event, el) st in
      set_pressTimers (<[k := timer]> (pressTimers st)) st
  end.

Definition currentPosition (event : PressEvent) : Q * Q :=
  match event with
  | MouseEv _ cx cy => (cx, cy)
  | TouchEv _ (touch :: _) => (t_clientX touch, t_clientY touch)
  | TouchEv _ [] => (0, 0)%Q
  end.

(** [distance > moveThreshold] in [handleMove]. *)
Definition movedBeyond (startPos current : Q * Q) : bool :=
  sqrt_gt ((fst current - fst startPos) ^ 2 + (snd current - snd startPos) ^ 2)%Q
          moveThreshold.

Definition handleMove (event : PressEvent) (st : State) : State :=
  match elementToTrack (targetOf event) with
  | None => st
  | Some el =>
      let k := eid (self el) in
      match pressStartPositions st !! k with
      | Some startPos =>
          (* If moved beyond threshold, cancel the long-press *)
          if movedBeyond startPos (currentPosition event) then
            let st := clearTimeout (pressTimers st !! k) st in
            let st := set_pressTimers (delete k (pressTimers st)) st in
            set_pressStartPositions (delete k (pressStartPositions st)) st
          else st
      | None => st
      end
  end.

Definition cancelPress (event : PressEvent) (st : State) : State :=
  match elementToTrack (targetOf event) with
  | None => st
  | Some el =>
      let k := eid (self el) in
      let st := clearTimeout (pressTimers st !! k) st in
      let st := set_pressTimers (delete k (pressTimers st)) st in
      set_pressStartPositions (delete k (pressStartPositions st)) st
  end.

(** [processElements]: every image and table of the document that lacks
    the marker attribute gets the marker and the seven listeners. *)
Definition hasMarker (st : State) (e : Element) : bool :=
  hasAttribute "data-long-press-added" e || bool_decide (eid e ∈ marked st).

Definition instrument (st : State) (e : Element) : State :=
  if hasMarker st e then st else set_marked ({[eid e]} ∪ marked st) st.

Definition processElements (doc : list Element) (st : State) : State :=
  let images := List.filter (hasLocalName ["img"%string]) doc in
  let tables := List.filter sel_table doc in
  fold_left instrument tables (fold_left instrument images st).

Definition listenerOf (type : EventType) (event : PressEvent) (now : Z)
  : State -> State :=
  match type with
  | mousedown | touchstart => startPress event now
  | mousemove | touchmove => handleMove event
  | mouseup | mouseleave | touchend => cancelPress event
  end.

(** Elements on which a dispatched event runs listeners: the target and,
    for the events that bubble, its ancestors. *)
Definition propagationPath (type : EventType) (target : Node) : list Element :=
  match type with
  | mouseleave => [self target]
  | _ => self target :: ancestors target
  end.

Definition dispatch (type : EventType) (event : PressEvent) (now : Z)
  (st : State) : State :=
  fold_left
    (fun st e =>
       if bool_decide (eid e ∈ marked st) then listenerOf type event now st else st)
    (propagationPath type (targetOf event)) st.

(** The MutationObserver callback; it runs only while connected. *)
Definition onMutations (hasNewElements : bool) (doc : list Element)
  (st : State) : State :=
  if observing st && hasNewElements then processElements doc st else st.

Definition fire (now : Z) (h : nat) (selection : option string)
  (st : State) : State :=
  match timers st !! h with
  | Some (due, (event, target)) =>
      if due <=? now
      then handleLongPress selection target (set_timers (delete h (timers st)) st)
      else st
  | None => st
  end.

(** The function returned by [addLongPressListeners]. *)
Definition teardown (st : State) : State :=
  let st := set_observing false st in
  fold_right (fun timer st => clearTimeout (Some timer) st) st
    (map snd (map_to_list (pressTimers st))).

Definition addLongPressListeners (doc : list Element) : State :=
  let st := {| pressTimers := ∅; pressStartPositions := ∅; timers := ∅;
               nextTimer := 1; observing := false; marked := ∅; posted := [] |} in
  set_observing true (processElements doc st).

Inductive Action :=
| Dispatch (now : Z) (type : EventType) (event : PressEvent)
| Mutations (hasNewElements : bool) (doc : list Element)
| Fire (now : Z) (h : nat) (selection : option string)
| Teardown.

Definition step (st : State) (a : Action) : State :=
  match a with
  | Dispatch now type event => dispatch type event now st
  | Mutations b doc => onMutations b doc st
  | Fire now h sel => fire now h sel st
  | Teardown => teardown st
  end.

Definition run (acts : list Action) (st : State) : State := fold_left step acts st.

Definition is_pressStart (a : Action) : bool :=
  match a with
  | Dispatch _ mousedown _ | Dispatch _ touchstart _ => true
  | _ => false
  end.

End Tracker.

(** Predicates on tracker states used in the statements below. *)

(** A handle below [nextTimer] that is not pending never becomes
    pending again: [setTimeout] only hands out fresh handles. *)
Definition cleared (h : nat) (st : State) : Prop :=
  timers st !! h = None /\ (h < nextTimer st)%nat.

(** Every recorded timer is a handle [setTimeout] has returned. *)
Definition issued (st : State) : Prop :=
  forall k h, pressTimers st !! k = Some h -> (h < nextTimer st)%nat.

(** Every pending timer is the recorded timer of some element. *)
Definition tracked (st : State) : Prop :=
  forall h x, timers st !! h = Some x -> exists k, pressTimers st !! k = Some h.

(** Without a pending timer, and until a press starts, nothing is posted
    and no timer becomes pending. *)
Definition idle (log : list Message) (st : State) : Prop :=
  timers st = ∅ /\ posted st = log.

(** Every pending timer is the recorded timer of the element it was
    armed for. *)
Definition owned (st : State) : Prop :=
  forall h due event el,
    timers st !! h = Some (due, (event, el)) ->
    pressTimers st !! eid (self el) = Some h.

(** What a long press on a tracked element posts. *)
Definition payload (bookKey : string) (el : Node) : Message :=
  if isImage el then iframe_long_press_image bookKey (src (self el))
  else iframe_long_press_table bookKey (outerHTML (self el)).

(** The elements [processElements] looks at. *)
Definition qualifies (e : Element) : bool :=
  hasLocalName ["img"%string] e || sel_table e.

End LongPress.

(** ** Numbers of the image viewer

    A JavaScript number is modelled as an exact rational or one of the
    three special values, so that division by zero behaves as in the
    source ([x / 0] is an infinity, [0 / 0] is [NaN]).  Rounding is not
    modelled, and neither is the sign of zero: the only divisors are a
    scale and a distance, which are never negative zero. *)

Module Js.
Local Open Scope Q_scope.

Inductive number := Num (q : Q) | PInf | NInf | NaN.

Definition Qsign (q : Q) : comparison := q ?= 0.

Definition neg (a : number) : number :=
  match a with
  | Num q => Num (- q)
  | PInf => NInf
  | NInf => PInf
  | NaN => NaN
  end.

Definition add (a b : number) : number :=
  match a, b with
  | NaN, _ | _, NaN => NaN
  | Num p, Num q => Num (p + q)
  | PInf, NInf | NInf, PInf => NaN
  | PInf, _ | _, PInf => PInf
  | NInf, _ | _, NInf => NInf
  end.

Definition sub (a b : number) : number := add a (neg b).

(** An infinity times a finite number. *)
Definition scaleInf (positive : bool) (q : Q) : number :=
  match Qsign q with
  | Eq => NaN
  | Gt => if positive then PInf else NInf
  | Lt => if positive then NInf else PInf
  end.

Definition mul (a b : number) : number :=
  match a, b with
  | NaN, _ | _, NaN => NaN
  | Num p, Num q => Num (p * q)
  | PInf, Num q | Num q, PInf => scaleInf true q
  | NInf, Num q | Num q, NInf => scaleInf false q
  | PInf, PInf | NInf, NInf => PInf
  | PInf, NInf | NInf, PInf => NInf
  end.

Definition div (a b : number) : number :=
  match a, b with
  | NaN, _ | _, NaN => NaN
  | Num p, Num q =>
      match Qsign q with
      | Eq => match Qsign p with Eq => NaN | Gt => PInf | Lt => NInf end
      | _ => Num (p / q)
      end
  | Num _, (PInf | NInf) => Num 0
  | PInf, Num q => match Qsign q with Lt => NInf | _ => PInf end
  | NInf, Num q => match Qsign q with Lt => PInf | _ => NInf end
  | (PInf | NInf), (PInf | NInf) => NaN
  end.

(** [a <= b]; false when either side is [NaN]. *)
Definition le (a b : number) : bool :=
  match a, b with
  | NaN, _ | _, NaN => false
  | Num p, Num q => Qle_bool p q
  | NInf, _ | _, PInf => true
  | _, _ => false
  end.

(** [a > b]; false when either side is [NaN]. *)
Definition gt (a b : number) : bool :=
  match a, b with
  | NaN, _ | _, NaN => false
  | _, _ => negb (le a b)
  end.

(** [a === b] *)
Definition eq (a b : number) : bool :=
  match a, b with
  | Num p, Num q => Qeq_bool p q
  | PInf, PInf | NInf, NInf => true
  | _, _ => false
  end.

(** [Math.min] and [Math.max]: [NaN] if either argument is. *)
Definition min (a b : number) : number :=
  match a, b with
  | NaN, _ | _, NaN => NaN
  | _, _ => if le a b then a else b
  end.

Definition max (a b : number) : number :=
  match a, b with
  | NaN, _ | _, NaN => NaN
  | _, _ => if le a b then b else a
  end.

(** Equality of numbers up to the representation of a rational. *)
Definition same (a b : number) : Prop :=
  match a, b with
  | Num p, Num q => p == q
  | PInf, PInf | NInf, NInf | NaN, NaN => True
  | _, _ => False
  end.

End Js.

(** ** The image viewer *)

Module ImageViewer.
Import Js.

Definition MIN_SCALE : number := Num (1 # 2).
Definition MAX_SCALE : number := Num 8.
Definition ZOOM_SPEED : number := Num (1 # 10).
Definition MOBILE_ZOOM_SPEED : number := Num (1 # 1000).
Definition ZOOM_BIAS : number := Num (105 # 100).

Record Pos := { x : number; y : number }.

Definition origin : Pos := {| x := Num 0; y := Num 0 |}.

(** [getBoundingClientRect()] of the container. *)
Record Rect := { left : Q; top : Q; width : Q; height : Q }.

(** The two closures [onTouchMove] hands to [requestAnimationFrame],
    with the values they capture when the handler runs.  What a closure
    reads through a ref ([dragStart.current]) or through a functional
    update ([prevPos]) is read when the closure runs. *)
Inductive FrameCallback :=
| PanFrame (touch : Touch)
| PinchFrame (scale distanceChange currentDistance : number)
    (touch1 touch2 : Touch) (rect : Rect).

(** React state and refs of the component that the zoom and pan handlers
    use, and the animation-frame callbacks that were requested and have
    not run yet, oldest first.  The zoom label and its hide timer are
    left out: no handler below reads them. *)
Record State := {
  scale : number;
  zoomSpeed : number;
  position : Pos;
  isDragging : bool;
  lastTouchDistance : number;             (* useRef *)
  dragStart : Pos;                        (* useRef *)
  wasDragging : bool;                     (* useRef *)
  frames : list FrameCallback;            (* requestAnimationFrame queue *)
}.

Definition init : State :=
  {| scale := Num 1; zoomSpeed := Num (1 # 10); position := origin;
     isDragging := false; lastTouchDistance := Num 0; dragStart := origin;
     wasDragging := false; frames := [] |}.

Definition setScale (s : number) (st : State) : State :=
  {| scale := s; zoomSpeed := zoomSpeed st; position := position st;
     isDragging := isDragging st; lastTouchDistance := lastTouchDistance st;
     dragStart := dragStart st; wasDragging := wasDragging st;
     frames := frames st |}.

Definition setZoomSpeed (z : number) (st : State) : State :=
  {| scale := scale st; zoomSpeed := z; position := position st;
     isDragging := isDragging st; lastTouchDistance := lastTouchDistance st;
     dragStart := dragStart st; wasDragging := wasDragging st;
     frames := frames st |}.

Definition setPosition (p : Pos) (st : State) : State :=
  {| scale := scale st; zoomSpeed := zoomSpeed st; position := p;
     isDragging := isDragging st; lastTouchDistance := lastTouchDistance st;
     dragStart := dragStart st; wasDragging := wasDragging st;
     frames := frames st |}.

Definition setIsDragging (b : bool) (st : State) : State :=
  {| scale := scale st; zoomSpeed := zoomSpeed st; position := position st;
     isDragging := b; lastTouchDistance := lastTouchDistance st;
     dragStart := dragStart st; wasDragging := wasDragging st;
     frames := frames st |}.

Definition set_lastTouchDistance (d : number) (st : State) : State :=
  {| scale := scale st; zoomSpeed := zoomSpeed st; position := position st;
     isDragging := isDragging st; lastTouchDistance := d;
     dragStart := dragStart st; wasDragging := wasDragging st;
     frames := frames st |}.

Definition set_dragStart (p : Pos) (st : State) : State :=
  {| scale := scale st; zoomSpeed := zoomSpeed st; position := position st;
     isDragging := isDragging st; lastTouchDistance := lastTouchDistance st;
     dragStart := p; wasDragging := wasDragging st;
     frames := frames st |}.

Definition set_wasDragging (b : bool) (st : State) : State :=
  {| scale := scale st; zoomSpeed := zoomSpeed st; position := position st;
     isDragging := isDragging st; lastTouchDistance := lastTouchDistance st;
     dragStart := dragStart st; wasDragging := b;
     frames := frames st |}.

Definition set_frames (l : list FrameCallback) (st : State) : State :=
  {| scale := scale st; zoomSpeed := zoomSpeed st; position := position st;
     isDragging := isDragging st; lastTouchDistance := lastTouchDistance st;
     dragStart := dragStart st; wasDragging := wasDragging st;
     frames := l |}.

Definition requestAnimationFrame (callback : FrameCallback) (st : State) : State :=
  set_frames (frames st ++ [callback]) st.

Definition handleZoomIn (st : State) : State :=
  let newScale := min (add (scale st) ZOOM_SPEED) MAX_SCALE in
  setZoomSpeed (mul (mul ZOOM_SPEED ZOOM_BIAS) newScale) (setScale newScale st).

Definition handleZoomOut (st : State) : State :=
  let newScale := max (sub (scale st) ZOOM_SPEED) MIN_SCALE in
  if le newScale (Num 1) then
    setZoomSpeed ZOOM_SPEED (setScale newScale (setPosition origin st))
  else
    setZoomSpeed (mul (mul ZOOM_SPEED ZOOM_BIAS) newScale) (setScale newScale st).

(** [handleResetZoom] and [handleReset] have the same body. *)
Definition handleReset (st : State) : State :=
  setZoomSpeed ZOOM_SPEED (setPosition origin (setScale (Num 1) st)).

Definition getZoomedOffset (anchorX anchorY currentScale nextScale : number)
  (currentPos : Pos) : Pos :=
  let scaleChange := div nextScale currentScale in
  {| x := sub anchorX (mul (sub anchorX (x currentPos)) scaleChange);
     y := sub anchorY (mul (sub anchorY (y currentPos)) scaleChange) |}.

Record WheelEvent := {
  w_ctrlKey : bool; w_metaKey : bool;
  deltaY : Q;
  w_clientX : Q; w_clientY : Q;
}.

Definition handleWheel (e : WheelEvent) (rect : option Rect) (st : State) : State :=
  (* Only zoom when Ctrl/Cmd is pressed *)
  let isCtrlOrCmd := w_ctrlKey e || w_metaKey e in
  if negb isCtrlOrCmd then st
  else match rect with
  | None => st
  | Some rect =>
      let delta := if gt (Num (deltaY e)) (Num 0) then neg (zoomSpeed st)
                   else zoomSpeed st in
      let newScale := min (max (add (scale st) delta) MIN_SCALE) MAX_SCALE in
      let newZoom := mul (mul ZOOM_SPEED ZOOM_BIAS) newScale in
      if le newScale (Num 1) then
        setZoomSpeed ZOOM_SPEED (setScale newScale (setPosition origin st))
      else
        (* Mouse position relative to the container element *)
        let mouseX := Num (w_clientX e - left rect - width rect / 2) in
        let mouseY := Num (w_clientY e - top rect - height rect / 2) in
        setZoomSpeed newZoom
          (setScale newScale
             (setPosition
                (getZoomedOffset mouseX mouseY (scale st) newScale (position st)) st))
  end.

Definition handleImageMouseDown (cx cy : Q) (st : State) : State :=
  if isDragging st || le (scale st) (Num 1) then st
  else
    set_dragStart {| x := sub (Num cx) (x (position st));
                     y := sub (Num cy) (y (position st)) |}
      (set_wasDragging false (setIsDragging true st)).

Definition handleImageMouseMove (cx cy : Q) (st : State) : State :=
  if negb (isDragging st) || le (scale st) (Num 1) then st
  else
    setPosition {| x := sub (Num cx) (x (dragStart st));
                   y := sub (Num cy) (y (dragStart st)) |}
      (set_wasDragging true st).

(** Also the [onMouseLeave] handler. *)
Definition handleImageMouseUp (st : State) : State := setIsDragging false st.

(** The two closures, run on the state of the frame in which the
    browser calls them. *)
Definition runFrameCallback (st : State) (callback : FrameCallback) : State :=
  match callback with
  | PanFrame touch =>
      setPosition {| x := sub (Num (t_clientX touch)) (x (dragStart st));
                     y := sub (Num (t_clientY touch)) (y (dragStart st)) |} st
  | PinchFrame scale distanceChange currentDistance touch1 touch2 rect =>
      let newScale := min (max (mul scale distanceChange) MIN_SCALE) MAX_SCALE in
      let newZoom := mul (mul MOBILE_ZOOM_SPEED ZOOM_BIAS) distanceChange in
      if le newScale (Num 1) then
        setZoomSpeed ZOOM_SPEED (setScale newScale (setPosition origin st))
      else
        (* Touch position relative to the container element *)
        let touchX := Num ((t_clientX touch1 + t_clientX touch2) / 2
                           - left rect - width rect / 2) in
        let touchY := Num ((t_clientY touch1 + t_clientY touch2) / 2
                           - top rect - height rect / 2) in
        set_lastTouchDistance currentDistance
          (setZoomSpeed newZoom
             (setScale newScale
                (setPosition
                   (getZoomedOffset touchX touchY scale newScale (position st)) st)))
  end.

(** An animation frame: the browser calls the requested callbacks in
    the order of their requests. *)
Definition animationFrame (st : State) : State :=
  fold_left runFrameCallback (frames st) (set_frames [] st).

Section Touch.

(** [Math.hypot] on finite arguments. *)
Variable hypot : Q -> Q -> Q.

Definition touchDistance (touch1 touch2 : Touch) : number :=
  Num (hypot (t_clientX touch1 - t_clientX touch2)
             (t_clientY touch1 - t_clientY touch2)).

Definition onTouchStart (touches : list Touch) (st : State) : State :=
  match touches with
  | [touch] =>
      if gt (scale st) (Num 1) then
        (* Pan Start *)
        set_dragStart {| x := sub (Num (t_clientX touch)) (x (position st));
                         y := sub (Num (t_clientY touch)) (y (position st)) |}
          (set_wasDragging false (setIsDragging true st))
      else st
  | [touch1; touch2] =>
      (* Pinch Start *)
      set_lastTouchDistance (touchDistance touch1 touch2)
        (set_wasDragging false (setIsDragging true st))
  | _ => st
  end.

(** The handler itself: it marks the drag, computes the ratio of the
    pinch distances from the ref, and requests a frame. *)
Definition onTouchMove (touches : list Touch) (rect : option Rect)
  (st : State) : State :=
  match touches with
  | [touch] =>
      if gt (scale st) (Num 1) && isDragging st then
        (* Pan *)
        requestAnimationFrame (PanFrame touch) (set_wasDragging true st)
      else st
  | [touch1; touch2] =>
      (* Pinch *)
      let st := set_wasDragging true st in
      match rect with
      | None => st
      | Some rect =>
          let currentDistance := touchDistance touch1 touch2 in
          let distanceChange := div currentDistance (lastTouchDistance st) in
          requestAnimationFrame
            (PinchFrame (scale st) distanceChange currentDistance touch1 touch2 rect)
            st
      end
  | _ => st
  end.

Definition onTouchEnd (touches : list Touch) (st : State) : State :=
  match touches with
  | [touch] =>
      set_dragStart {| x := sub (Num (t_clientX touch)) (x (position st));
                       y := sub (Num (t_clientY touch)) (y (position st)) |} st
  | [] => setIsDragging false st
  | _ => st
  end.

Definition onDoubleClick (cx cy : Q) (rect : option Rect) (st : State) : State :=
  match rect with
  | None => st
  | Some rect =>
      if eq (scale st) (Num 1) then
        let mouseX := Num (cx - left rect - width rect / 2) in
        let mouseY := Num (cy - top rect - height rect / 2) in
        let newScale := Num 2 in
        setScale newScale
          (setPosition
             (getZoomedOffset mouseX mouseY (scale st) newScale (position st)) st)
      else handleReset st
  end.

(** The zoom shortcuts of [handleKeyDown]; Escape and the arrow keys
    only call the [onClose] / [onPrevious] / [onNext] props. *)
Definition handleKeyDown (key : string) (isCtrlOrCmd : bool) (st : State) : State :=
  if String.eqb key "Escape" || String.eqb key "ArrowLeft"
     || String.eqb key "ArrowRight" then st
  else if isCtrlOrCmd then
    if String.eqb key "=" || String.eqb key "+" then handleZoomIn st
    else if String.eqb key "-" || String.eqb key "_" then handleZoomOut st
    else if String.eqb key "0" then handleReset st
    else st
  else st.

Inductive Op :=
| ZoomIn | ZoomOut | Reset
| KeyDown (key : string) (isCtrlOrCmd : bool)
| Wheel (e : WheelEvent) (rect : option Rect)
| MouseDown (cx cy : Q) | MouseMove (cx cy : Q) | MouseUp
| TouchStart (touches : list Touch)
| TouchMove (touches : list Touch) (rect : option Rect)
| TouchEnd (touches : list Touch)
| DoubleClick (cx cy : Q) (rect : option Rect)
| AnimationFrame.

Definition step (st : State) (op : Op) : State :=
  match op with
  | ZoomIn => handleZoomIn st
  | ZoomOut => handleZoomOut st
  | Reset => handleReset st
  | KeyDown k c => handleKeyDown k c st
  | Wheel e r => handleWheel e r st
  | MouseDown cx cy => handleImageMouseDown cx cy st
  | MouseMove cx cy => handleImageMouseMove cx cy st
  | MouseUp => handleImageMouseUp st
  | TouchStart ts => onTouchStart ts st
  | TouchMove ts r => onTouchMove ts r st
  | TouchEnd ts => onTouchEnd ts st
  | DoubleClick cx cy r => onDoubleClick cx cy r st
  | AnimationFrame => animationFrame st
  end.

Definition run (ops : list Op) (st : State) : State := fold_left step ops st.

End Touch.

Local Open Scope Q_scope.

(** The scale is a finite number in [[MIN_SCALE, MAX_SCALE]]. *)
Definition scaleInRange (s : number) : Prop :=
  exists q, s = Num q /\ (1 # 2) <= q <= 8.

(** What a requested pinch frame captured is usable: a scale in range,
    a ratio that is not [NaN] and a finite distance. *)
Definition frameOk (callback : FrameCallback) : Prop :=
  match callback with
  | PanFrame _ => True
  | PinchFrame s distanceChange currentDistance _ _ _ =>
      scaleInRange s /\ distanceChange <> NaN /\ exists d, currentDistance = Num d
  end.

(** The state invariant of the viewer: the scale is in range, neither
    the zoom speed nor the stored pinch distance is [NaN], and every
    requested frame is usable. *)
Definition core (st : State) : Prop :=
  scaleInRange (scale st) /\ zoomSpeed st <> NaN
  /\ exists d, lastTouchDistance st = Num d.

Definition invariant (st : State) : Prop :=
  core st /\ Forall frameOk (frames st).

(** The translation is the origin whenever the scale is at most 1. *)
Definition settled (st : State) : Prop :=
  forall q, scale st = Num q -> q <= 1 -> position st = origin.

Definition isPanFrame (callback : FrameCallback) : bool :=
  match callback with PanFrame _ => true | PinchFrame _ _ _ _ _ _ => false end.

(** A one-finger touch move. *)
Definition touchPan (op : Op) : bool :=
  match op with TouchMove [_] _ => true | _ => false end.

(** A pinch move whose two touch points coincide while the stored
    distance is zero: the ratio of the distances is [0 / 0]. *)
Definition degenerate (hypot : Q -> Q -> Q) (st : State) (op : Op) : bool :=
  match op with
  | TouchMove [touch1; touch2] (Some _) =>
      match div (touchDistance hypot touch1 touch2) (lastTouchDistance st) with
      | NaN => true
      | _ => false
      end
  | _ => false
  end.

(** Along a run, [wellFormed] checks that no pinch move is degenerate. *)
Fixpoint wellFormed (hypot : Q -> Q -> Q) (ops : list Op) (st : State) : bool :=
  match ops with
  | [] => true
  | op :: ops' =>
      negb (degenerate hypot st op) && wellFormed hypot ops' (step hypot st op)
  end.

(** A pinch move as an operation. *)
Definition pinchMove (m : Touch * Touch * option Rect) : Op :=
  let '(touch1, touch2, rect) := m in TouchMove [touch1; touch2] rect.

(** The click handlers of the overlay.  The second component tells
    whether the handler called the [onClose] prop (container) or toggled
    the zoom label (image). *)
Definition handleContainerClick (st : State) : State * bool :=
  if wasDragging st then (set_wasDragging false st, false) else (st, true).

Definition handleImageClick (st : State) : State * bool :=
  (* Don't toggle label if user was dragging *)
  if wasDragging st then (set_wasDragging false st, false) else (st, true).

(** [style.transform] is [scale(s) translate(p / s px)]: a content
    coordinate [c], measured from the centre, is shown at
    [s * (c + p / s)]. *)
Definition shownAt (s p c : number) : number := mul s (add c (div p s)).

(** The zoom label: [Math.round((scale * 100) / 5) * 5], where
    [Math.round] is the floor of its argument plus one half. *)
Definition round (q : Q) : Z := Qfloor (q + (1 # 2)).

Definition zoomLabel (scale : Q) : Z := (round (scale * 100 / 5) * 5)%Z.

(** The operations that start, continue or end a pan. *)
Definition isPanOp (op : Op) : bool :=
  match op with
  | MouseDown _ _ | MouseMove _ _ | MouseUp => true
  | TouchStart [_] | TouchMove [_] _ | TouchEnd _ => true
  | _ => false
  end.

End ImageViewer.

(** ** The table viewer *)

Module TableViewer.
Import Js.

Definition MIN_SCALE : number := Num (1 # 2).
Definition MAX_SCALE : number := Num 4.
Definition ZOOM_SPEED : number := Num (1 # 10).

(** The two [setTimeout] callbacks of the component. *)
Inductive Callback :=
| HideLabel    (* () => { setShowZoomLabel(false); } *)
| ArmLabel.    (* () => { hideZoomLabelAfterDelay(); }, scheduled by the mount effect *)

Record State := {
  scale : number;
  position : ImageViewer.Pos;
  isDragging : bool;
  showZoomLabel : bool;
  dragStart : ImageViewer.Pos;                        (* useRef *)
  wasDragging : bool;                     (* useRef *)
  zoomLabelTimeoutRef : option nat;       (* useRef *)
  timers : gmap nat (Z * Callback);       (* pending: due time, callback *)
  nextTimer : nat;
  closes : nat;                           (* calls of the onClose prop *)
}.

Definition init : State :=
  {| scale := Num 1; position := ImageViewer.origin; isDragging := false;
     showZoomLabel := true; dragStart := ImageViewer.origin; wasDragging := false;
     zoomLabelTimeoutRef := None; timers := ∅; nextTimer := 1; closes := 0 |}.

Definition setScale (s : number) (st : State) : State :=
  {| scale := s; position := position st; isDragging := isDragging st;
     showZoomLabel := showZoomLabel st; dragStart := dragStart st;
     wasDragging := wasDragging st; zoomLabelTimeoutRef := zoomLabelTimeoutRef st;
     timers := timers st; nextTimer := nextTimer st; closes := closes st |}.

Definition setPosition (p : ImageViewer.Pos) (st : State) : State :=
  {| scale := scale st; position := p; isDragging := isDragging st;
     showZoomLabel := showZoomLabel st; dragStart := dragStart st;
     wasDragging := wasDragging st; zoomLabelTimeoutRef := zoomLabelTimeoutRef st;
     timers := timers st; nextTimer := nextTimer st; closes := closes st |}.

Definition setIsDragging (b : bool) (st : State) : State :=
  {| scale := scale st; position := position st; isDragging := b;
     showZoomLabel := showZoomLabel st; dragStart := dragStart st;
     wasDragging := wasDragging st; zoomLabelTimeoutRef := zoomLabelTimeoutRef st;
     timers := timers st; nextTimer := nextTimer st; closes := closes st |}.

Definition setShowZoomLabel (b : bool) (st : State) : State :=
  {| scale := scale st; position := position st; isDragging := isDragging st;
     showZoomLabel := b; dragStart := dragStart st;
     wasDragging := wasDragging st; zoomLabelTimeoutRef := zoomLabelTimeoutRef st;
     timers := timers st; nextTimer := nextTimer st; closes := closes st |}.

Definition set_dragStart (p : ImageViewer.Pos) (st : State) : State :=
  {| scale := scale st; position := position st; isDragging := isDragging st;
     showZoomLabel := showZoomLabel st; dragStart := p;
     wasDragging := wasDragging st; zoomLabelTimeoutRef := zoomLabelTimeoutRef st;
     timers := timers st; nextTimer := nextTimer st; closes := closes st |}.

Definition set_wasDragging (b : bool) (st : State) : State :=
  {| scale := scale st; position := position st; isDragging := isDragging st;
     showZoomLabel := showZoomLabel st; dragStart := dragStart st;
     wasDragging := b; zoomLabelTimeoutRef := zoomLabelTimeoutRef st;
     timers := timers st; nextTimer := nextTimer st; closes := closes st |}.

Definition set_timers (m : gmap nat (Z * Callback)) (st : State) : State :=
  {| scale := scale st; position := position st; isDragging := isDragging st;
     showZoomLabel := showZoomLabel st; dragStart := dragStart st;
     wasDragging := wasDragging st; zoomLabelTimeoutRef := zoomLabelTimeoutRef st;
     timers := m; nextTimer := nextTimer st; closes := closes st |}.

Definition onClose (st : State) : State :=
  {| scale := scale st; position := position st; isDragging := isDragging st;
     showZoomLabel := showZoomLabel st; dragStart := dragStart st;
     wasDragging := wasDragging st; zoomLabelTimeoutRef := zoomLabelTimeoutRef st;
     timers := timers st; nextTimer := nextTimer st; closes := S (closes st) |}.

(** [ref.current = setTimeout(cb, delay)] called at time [now]. *)
Definition armTimeout (now delay : Z) (cb : Callback) (intoRef : bool)
  (st : State) : State :=
  {| scale := scale st; position := position st; isDragging := isDragging st;
     showZoomLabel := showZoomLabel st; dragStart := dragStart st;
     wasDragging := wasDragging st;
     zoomLabelTimeoutRef :=
       if intoRef then Some (nextTimer st) else zoomLabelTimeoutRef st;
     timers := <[nextTimer st := ((now + delay)%Z, cb)]> (timers st);
     nextTimer := S (nextTimer st); closes := closes st |}.

(** [if (ref.current) clearTimeout(ref.current)] *)
Definition clearLabelTimeout (st : State) : State :=
  match zoomLabelTimeoutRef st with
  | Some h => set_timers (delete h (timers st)) st
  | None => st
  end.

Definition hideZoomLabelAfterDelay (now : Z) (st : State) : State :=
  armTimeout now 2000 HideLabel true (setShowZoomLabel true (clearLabelTimeout st)).

Definition handleZoomIn (now : Z) (st : State) : State :=
  let newScale := min (add (scale st) ZOOM_SPEED) MAX_SCALE in
  hideZoomLabelAfterDelay now (setScale newScale st).

Definition handleZoomOut (now : Z) (st : State) : State :=
  let newScale := max (sub (scale st) ZOOM_SPEED) MIN_SCALE in
  if le newScale (Num 1) then
    hideZoomLabelAfterDelay now (setScale newScale (setPosition ImageViewer.origin st))
  else
    hideZoomLabelAfterDelay now (setScale newScale st).

Definition handleResetZoom (now : Z) (st : State) : State :=
  hideZoomLabelAfterDelay now (setPosition ImageViewer.origin (setScale (Num 1) st)).

Definition handleKeyDown (key : string) (isCtrlOrCmd : bool) (now : Z)
  (st : State) : State :=
  if String.eqb key "Escape" then onClose st
  else if isCtrlOrCmd then
    if String.eqb key "=" || String.eqb key "+" then handleZoomIn now st
    else if String.eqb key "-" || String.eqb key "_" then handleZoomOut now st
    else if String.eqb key "0" then handleResetZoom now st
    else st
  else st.

(** The key handler of the backdrop. *)
Definition handleBackdropKeyDown (key : string) (st : State) : State :=
  if String.eqb key "Enter" || String.eqb key " " then onClose st else st.

Definition handleWheel (e : ImageViewer.WheelEvent) (now : Z) (st : State) : State :=
  let isCtrlOrCmd := ImageViewer.w_ctrlKey e || ImageViewer.w_metaKey e in
  if negb isCtrlOrCmd then st
  else
    let delta := if gt (Num (ImageViewer.deltaY e)) (Num 0) then neg ZOOM_SPEED
                 else ZOOM_SPEED in
    let newScale := min (max (add (scale st) delta) MIN_SCALE) MAX_SCALE in
    if le newScale (Num 1) then
      hideZoomLabelAfterDelay now (setScale newScale (setPosition ImageViewer.origin st))
    else
      hideZoomLabelAfterDelay now (setScale newScale st).

Definition handleContentMouseDown (cx cy : Q) (st : State) : State :=
  if isDragging st || le (scale st) (Num 1) then st
  else
    set_dragStart {| ImageViewer.x := sub (Num cx) (ImageViewer.x (position st));
                     ImageViewer.y := sub (Num cy) (ImageViewer.y (position st)) |}
      (set_wasDragging false (setIsDragging true st)).

Definition handleContentMouseMove (cx cy : Q) (st : State) : State :=
  if negb (isDragging st) || le (scale st) (Num 1) then st
  else
    setPosition {| ImageViewer.x := sub (Num cx) (ImageViewer.x (dragStart st));
                   ImageViewer.y := sub (Num cy) (ImageViewer.y (dragStart st)) |}
      (set_wasDragging true st).

(** Also the [onMouseLeave] handler. *)
Definition handleContentMouseUp (st : State) : State := setIsDragging false st.

Definition handleContainerClick (st : State) : State :=
  if wasDragging st then set_wasDragging false st else onClose st.

Definition handleContentClick (st : State) : State :=
  if wasDragging st then set_wasDragging false st
  else setShowZoomLabel (negb (showZoomLabel st)) st.

(** The mount effect and its cleanup. *)
Definition mount (now : Z) (st : State) : State := armTimeout now 0 ArmLabel false st.

Definition unmount (st : State) : State := clearLabelTimeout st.

Definition fire (now : Z) (h : nat) (st : State) : State :=
  match timers st !! h with
  | Some (due, cb) =>
      if (due <=? now)%Z then
        let st := set_timers (delete h (timers st)) st in
        match cb with
        | HideLabel => setShowZoomLabel false st
        | ArmLabel => hideZoomLabelAfterDelay now st
        end
      else st
  | None => st
  end.

Inductive Op :=
| ZoomIn (now : Z) | ZoomOut (now : Z) | Reset (now : Z)
| KeyDown (key : string) (isCtrlOrCmd : bool) (now : Z)
| BackdropKeyDown (key : string)
| Wheel (e : ImageViewer.WheelEvent) (now : Z)
| MouseDown (cx cy : Q) | MouseMove (cx cy : Q) | MouseUp
| ContainerClick | ContentClick
| Mount (now : Z) | Unmount
| Fire (now : Z) (h : nat).

Definition step (st : State) (op : Op) : State :=
  match op with
  | ZoomIn now => handleZoomIn now st
  | ZoomOut now => handleZoomOut now st
  | Reset now => handleResetZoom now st
  | KeyDown k c now => handleKeyDown k c now st
  | BackdropKeyDown k => handleBackdropKeyDown k st
  | Wheel e now => handleWheel e now st
  | MouseDown cx cy => handleContentMouseDown cx cy st
  | MouseMove cx cy => handleContentMouseMove cx cy st
  | MouseUp => handleContentMouseUp st
  | ContainerClick => handleContainerClick st
  | ContentClick => handleContentClick st
  | Mount now => mount now st
  | Unmount => unmount st
  | Fire now h => fire now h st
  end.

Definition run (ops : list Op) (st : State) : State := fold_left step ops st.

(** The operations that end in [hideZoomLabelAfterDelay], with the time
    at which they run. *)
Definition armsLabelAt (op : Op) : option Z :=
  match op with
  | ZoomIn now | ZoomOut now | Reset now => Some now
  | KeyDown k true now =>
      if String.eqb k "Escape" then None
      else if String.eqb k "=" || String.eqb k "+" || String.eqb k "-"
              || String.eqb k "_" || String.eqb k "0" then Some now
      else None
  | Wheel e now =>
      if ImageViewer.w_ctrlKey e || ImageViewer.w_metaKey e then Some now else None
  | _ => None
  end.

Local Open Scope Q_scope.

Definition inRange (st : State) : Prop :=
  exists q, scale st = Num q
            /\ (1 # 2) <= q <= 4
            /\ (q <= 1 -> position st = ImageViewer.origin).

(** Every pending hide timer is the one the ref holds. *)
Definition oneHideTimer (st : State) : Prop :=
  forall h due, timers st !! h = Some (due, HideLabel) ->
                zoomLabelTimeoutRef st = Some h.

End TableViewer.

(** ** The Readwise sync hook ([useReadwiseSync]) *)

Module Readwise.
Local Open Scope Z_scope.

Record BookNote := {
  noteId : nat;
  updatedAt : Z;
  deletedAt : option Z;
}.

(** [settings.readwise] *)
Record ReadwiseSettings := {
  enabled : bool;
  accessToken : string;
  lastSyncedAt : option Z;
}.

(** What [client.pushHighlights] resolves to. *)
Record PushResult := { success : bool; isNetworkError : bool; message : string }.

(** What a run of the hook does before it awaits the client. *)
Inductive Plan :=
| Skip
| Push (notes : list BookNote).

(** [!settings.readwise?.enabled || !settings.readwise?.accessToken] *)
Definition notConfigured (readwise : option ReadwiseSettings) : bool :=
  match readwise with
  | Some r => negb (enabled r) || String.eqb (accessToken r) ""
  | None => true
  end.

(** [n.updatedAt > lastSyncedAt || (n.deletedAt ?? 0) > lastSyncedAt] *)
Definition changedSince (lastSynced : Z) (n : BookNote) : bool :=
  (lastSynced <? updatedAt n) || (lastSynced <? default 0 (deletedAt n)).

(** The body of [debouncedPush] up to the call of the client; [book] is
    whether [getBookData(bookKey)?.book] is defined and [booknotes] is
    [getConfig(bookKey)?.booknotes]. *)
Definition debouncedPush (readwise : option ReadwiseSettings) (book : bool)
  (booknotes : option (list BookNote)) : Plan :=
  if notConfigured readwise then Skip
  else match readwise, booknotes with
       | Some r, Some notes =>
           if negb book then Skip
           else
             let newNotes := List.filter (changedSince (default 0 (lastSyncedAt r))) notes in
             match newNotes with
             | [] => Skip
             | _ => Push newNotes
             end
       | _, _ => Skip
       end.

(** The body of [pushAllHighlights] up to the call of the client. *)
Definition pushAllHighlights (readwise : option ReadwiseSettings) (book : bool)
  (booknotes : option (list BookNote)) : Plan :=
  if notConfigured readwise then Skip
  else match booknotes with
       | Some notes => if negb book then Skip else Push notes
       | None => Skip
       end.

(** [updateLastSyncedAt(timestamp)] on [settings.readwise]. *)
Definition updateLastSyncedAt (timestamp : Z) (r : ReadwiseSettings)
  : ReadwiseSettings :=
  {| enabled := enabled r; accessToken := accessToken r;
     lastSyncedAt := Some timestamp |}.

(** What either function does with the result, at time [now]. *)
Definition afterPush (result : PushResult) (now : Z) (r : ReadwiseSettings)
  : ReadwiseSettings :=
  if success result then updateLastSyncedAt now r else r.

End Readwise.

(** ** Sample inputs *)

Module Samples.
Import Dom.

Definition element (id : nat) (name : string) : Element :=
  {| eid := id; localName := name; classList := []; attributes := [];
     src := ""; outerHTML := "" |}.

Definition paragraph : Node := {| self := element 1 "p"; ancestors := [] |}.

Definition picture : Element :=
  {| eid := 2; localName := "img"; classList := []; attributes := [];
     src := "cover.png"; outerHTML := "<img src='cover.png'>" |}.

Definition grid : Element :=
  {| eid := 3; localName := "table"; classList := []; attributes := [];
     src := ""; outerHTML := "<table><tr><td>1</td></tr></table>" |}.

Definition cell : Node :=
  {| self := element 4 "td"; ancestors := [element 5 "tr"; grid] |}.

Definition clickAt (px : Q) : MouseEvent :=
  {| target := Some paragraph; button := 0%Z;
     geometry := {| screenX := px; screenY := px; clientX := px; clientY := px;
                    offsetX := px; offsetY := px |};
     ev_mods := IframeEvents.noMods |}.

Definition idleKeys : KeyStatus :=
  {| key := ""; code := ""; mods := IframeEvents.noMods |}.

(** A stand-in for [Math.hypot] that is exact on the axes. *)
Definition taxicab (a b : Q) : Q := Qabs a + Qabs b.

Definition finger (px py : Q) : Touch := {| t_clientX := px; t_clientY := py |}.

Definition viewport : ImageViewer.Rect :=
  {| ImageViewer.left := 0; ImageViewer.top := 0;
     ImageViewer.width := 800; ImageViewer.height := 600 |}.

End Samples.

Module MoreSamples.
Import Dom.

(** [<a class="duokan-footnote"><img alt="note 3"></a>], clicked on the image. *)
Definition footnoteAnchor : Element :=
  {| eid := 6; localName := "a"; classList := ["duokan-footnote"%string];
     attributes := []; src := ""; outerHTML := "" |}.

Definition footnoteIcon : Node :=
  {| self := {| eid := 7; localName := "img"; classList := [];
                attributes := [("alt", "note 3")%string]; src := "note.png";
                outerHTML := "" |};
     ancestors := [footnoteAnchor] |}.

Definition footnoteClick : MouseEvent :=
  {| target := Some footnoteIcon; button := 0%Z;
     geometry := geometry (Samples.clickAt 1);
     ev_mods := IframeEvents.noMods |}.

Definition keyA : KeyboardEvent :=
  {| ke_key := "a"; ke_code := "KeyA"; ke_mods := IframeEvents.noMods |}.

Definition pictureNode : Node := {| self := Samples.picture; ancestors := [] |}.

(** An image in a cell of the table [Samples.grid], next to [Samples.cell]. *)
Definition thumbnail : Element :=
  {| eid := 8; localName := "img"; classList := []; attributes := [];
     src := "thumb.png"; outerHTML := "<img src='thumb.png'>" |}.

Definition thumbnailInGrid : Node :=
  {| self := thumbnail;
     ancestors := [Samples.element 9 "td"; Samples.element 5 "tr"; Samples.grid] |}.

Definition ctrlWheel : ImageViewer.WheelEvent :=
  {| ImageViewer.w_ctrlKey := true; ImageViewer.w_metaKey := false;
     ImageViewer.deltaY := -100; ImageViewer.w_clientX := 400;
     ImageViewer.w_clientY := 300 |}.

Definition account : Readwise.ReadwiseSettings :=
  {| Readwise.enabled := true; Readwise.accessToken := "token";
     Readwise.lastSyncedAt := Some 5000%Z |}.

(** One note untouched since the last sync, one edited and one deleted after it. *)
Definition notes : list Readwise.BookNote :=
  [ {| Readwise.noteId := 1; Readwise.updatedAt := 4000; Readwise.deletedAt := None |};
    {| Readwise.noteId := 2; Readwise.updatedAt := 6000; Readwise.deletedAt := None |};
    {| Readwise.noteId := 3; Readwise.updatedAt := 3000;
       Readwise.deletedAt := Some 7000%Z |} ].

End MoreSamples.

(** * Properties of the click handlers *)

Section ClickFacts.
Import Dom IframeEvents.
Local Open Scope Z_scope.

Variable T : Z.   (* DOUBLE_CLICK_INTERVAL_THRESHOLD_MS *)
Variable L : Z.   (* LONG_HOLD_THRESHOLD *)

Lemma postSingleClick_frame b e st :
  lastClickTime (postSingleClick b e st) = lastClickTime st
  /\ longHoldTimeout (postSingleClick b e st) = longHoldTimeout st
  /\ keyboardState (postSingleClick b e st) = keyboardState st
  /\ timers (postSingleClick b e st) = timers st
  /\ nextTimer (postSingleClick b e st) = nextTimer st.
Proof.
  unfold postSingleClick.
  destruct (excluded e); [tauto|].
  destruct (footnoteOf e); [cbn; tauto|].
  destruct (longHoldTimeout st) eqn:E; cbn; rewrite ?E; tauto.
Qed.

Lemma runCallback_frame cb now st :
  timers (runCallback T cb now st) = timers st
  /\ nextTimer (runCallback T cb now st) = nextTimer st
  /\ lastClickTime (runCallback T cb now st) = lastClickTime st.
Proof.
  destruct cb as [|b e]; cbn; [tauto|].
  destruct (T <=? now - lastClickTime st); [|tauto].
  pose proof (postSingleClick_frame b e st). tauto.
Qed.

Lemma step_nextTimer_le st a : (nextTimer st <= nextTimer (step T L st a))%nat.
Proof.
  destruct a as [b e|b e|now b e|b e|now b d e|now h]; cbn; try lia.
  - unfold handleClick.
    destruct (negb d && (now - lastClickTime st <? T)); cbn; [lia|].
    destruct (negb d); cbn; [lia|].
    pose proof (postSingleClick_frame b e (set_lastClickTime now st)) as F.
    destruct F as (_ & _ & _ & _ & ->). cbn. lia.
  - unfold fire. destruct (timers st !! h) as [[due cb]|]; [|lia].
    destruct (due <=? now); [|lia].
    pose proof (runCallback_frame cb now (remove_timer h st)) as (_ & -> & _).
    cbn. lia.
Qed.

Lemma step_keeps_timer st a h x :
  timers st !! h = Some x -> (h < nextTimer st)%nat ->
  (forall now, a <> Fire now h) ->
  timers (step T L st a) !! h = Some x.
Proof.
  intros Hx Hlt Hne.
  destruct a as [b e|b e|now b e|b e|now b d e|now h']; cbn; try assumption.
  - rewrite lookup_insert_ne by lia. assumption.
  - unfold handleClick.
    destruct (negb d && (now - lastClickTime st <? T)); cbn; [assumption|].
    destruct (negb d); cbn.
    + rewrite lookup_insert_ne by lia. assumption.
    + pose proof (postSingleClick_frame b e (set_lastClickTime now st)) as F.
      destruct F as (_ & _ & _ & -> & _). assumption.
  - unfold fire. destruct (timers st !! h') as [[due cb]|] eqn:E; [|assumption].
    destruct (due <=? now); [|assumption].
    pose proof (runCallback_frame cb now (remove_timer h' st)) as (-> & _ & _).
    cbn. rewrite lookup_delete_ne; [assumption|].
    intros ->. apply (Hne now). reflexivity.
Qed.

Lemma step_keeps_lastClickTime st a :
  (forall now b d e, a <> Click now b d e) ->
  lastClickTime (step T L st a) = lastClickTime st.
Proof.
  intros Hne.
  destruct a as [b e|b e|now b e|b e|now b d e|now h]; cbn; try reflexivity.
  - exfalso. eapply Hne. reflexivity.
  - unfold fire. destruct (timers st !! h) as [[due cb]|]; [|reflexivity].
    destruct (due <=? now); [|reflexivity].
    pose proof (runCallback_frame cb now (remove_timer h st)) as (_ & _ & ->).
    reflexivity.
Qed.

Lemma quiet_action_spec h a :
  quiet_action h a = true ->
  (forall now, a <> Fire now h) /\ (forall now b d e, a <> Click now b d e).
Proof.
  destruct a as [b e|b e|now b e|b e|now b d e|now h']; cbn; intros Hq;
    try (split; intros; discriminate).
  split; intros; [|discriminate].
  intros [= _ ->]. rewrite Nat.eqb_refl in Hq. discriminate.
Qed.

Lemma run_quiet st acts h x :
  quiet h acts = true ->
  timers st !! h = Some x -> (h < nextTimer st)%nat ->
  timers (run T L acts st) !! h = Some x
  /\ lastClickTime (run T L acts st) = lastClickTime st
  /\ (h < nextTimer (run T L acts st))%nat.
Proof.
  unfold run. revert st.
  induction acts as [|a acts IH]; intros st Hq Hx Hlt; cbn [fold_left].
  - auto.
  - cbn in Hq. apply andb_true_iff in Hq as [Ha Hq].
    apply quiet_action_spec in Ha as [Hf Hc].
    pose proof (step_nextTimer_le st a) as Hle.
    destruct (IH (step T L st a) Hq) as (H1 & H2 & H3).
    + apply step_keeps_timer; assumption.
    + lia.
    + split; [exact H1|]. split; [|exact H3].
      rewrite H2. apply step_keeps_lastClickTime. assumption.
Qed.

(** A click less than the threshold after the previous one, with
    disambiguation enabled, posts a double click with its own geometry,
    records its time and schedules nothing. *)
Lemma handleClick_double b e now st :
  now - lastClickTime st < T ->
  handleClick T b false e now st
  = post (iframe_double_click b (geometry e) (getKeyStatus e st))
         (set_lastClickTime now st).
Proof.
  intros Hgap. unfold handleClick. cbn.
  apply Z.ltb_lt in Hgap. rewrite Hgap. reflexivity.
Qed.

(** A click at least the threshold after the previous one, with
    disambiguation enabled, posts nothing and schedules the deferred
    evaluation exactly the threshold later. *)
Lemma handleClick_deferred b e now st :
  T <= now - lastClickTime st ->
  handleClick T b false e now st
  = setTimeout now T (DeferredClick b e) (set_lastClickTime now st).
Proof.
  intros Hgap. unfold handleClick. cbn.
  apply Z.ltb_ge in Hgap. rewrite Hgap. reflexivity.
Qed.

(** The deferred evaluation of a click emits nothing when it runs less
    than the threshold after the latest click. *)
Lemma fire_deferred_suppressed b e due now h st :
  timers st !! h = Some (due, DeferredClick b e) ->
  now - lastClickTime st < T ->
  posted (fire T now h st) = posted st.
Proof.
  intros Hh Hgap. unfold fire. rewrite Hh.
  destruct (due <=? now); [|reflexivity]. cbn.
  apply Z.ltb_lt in Hgap. rewrite Z.leb_antisym. rewrite Hgap. reflexivity.
Qed.

Lemma handleClick_lastClickTime b d e now st :
  lastClickTime (handleClick T b d e now st) = now.
Proof.
  unfold handleClick.
  destruct (negb d && (now - lastClickTime st <? T)); cbn; [reflexivity|].
  destruct (negb d); cbn; [reflexivity|].
  pose proof (postSingleClick_frame b e (set_lastClickTime now st)) as (-> & _).
  reflexivity.
Qed.

(** C4 (as amended): a click at least the threshold after the previous
    one, with disambiguation enabled and on a target that is neither
    excluded nor a footnote, posts nothing itself and schedules its
    evaluation exactly the threshold later.  If no further click arrives
    before the evaluation runs and a long-hold timer is armed at that
    moment, the evaluation posts the single click with the geometry of
    that click.  If a further click arrives and the evaluation runs less
    than the threshold after it (as it does when it runs on time and the
    further click has a later timestamp), the evaluation posts nothing. *)
Theorem deferred_single_click b e now st acts fireAt :
  T <= now - lastClickTime st ->
  excluded e = false -> footnoteOf e = None ->
  quiet (nextTimer st) acts = true ->
  now + T <= fireAt ->
  let h := nextTimer st in
  let st1 := handleClick T b false e now st in
  let st2 := run T L acts st1 in
  posted st1 = posted st
  /\ timers st2 !! h = Some (now + T, DeferredClick b e)
  /\ (forall k, longHoldTimeout st2 = Some k ->
        posted (fire T fireAt h st2)
        = posted st2 ++ [iframe_single_click b (geometry e) (getKeyStatus e st2)])
  /\ (forall now' b' d' e' acts' fireAt',
        quiet h acts' = true -> fireAt' < now' + T ->
        let st3 := run T L acts' (handleClick T b' d' e' now' st2) in
        posted (fire T fireAt' h st3) = posted st3).
Proof.
  intros Hgap Hex Hfn Hq Hdue h st1 st2.
  assert (E1 : st1 = setTimeout now T (DeferredClick b e) (set_lastClickTime now st))
    by (apply handleClick_deferred; assumption).
  assert (Hh1 : timers st1 !! h = Some (now + T, DeferredClick b e))
    by (rewrite E1; cbn; apply lookup_insert_eq).
  assert (Hlt1 : (h < nextTimer st1)%nat) by (rewrite E1; cbn; unfold h; lia).
  destruct (run_quiet st1 acts h _ Hq Hh1 Hlt1) as (Hh2 & Hlast2 & Hlt2).
  fold st2 in Hh2, Hlast2, Hlt2.
  assert (Hlast1 : lastClickTime st1 = now) by (rewrite E1; reflexivity).
  split; [rewrite E1; reflexivity|]. split; [exact Hh2|]. split.
  - intros k Hk. unfold fire. rewrite Hh2.
    assert ((now + T <=? fireAt) = true) as -> by (apply Z.leb_le; lia).
    cbn. rewrite Hlast2, Hlast1.
    assert ((T <=? fireAt - now) = true) as -> by (apply Z.leb_le; lia).
    unfold postSingleClick. rewrite Hex, Hfn. cbn. rewrite Hk. reflexivity.
  - intros now' b' d' e' acts' fireAt' Hq' Hearly st3.
    set (st2' := handleClick T b' d' e' now' st2) in *.
    assert (Hh2' : timers st2' !! h = Some (now + T, DeferredClick b e)).
    { apply (step_keeps_timer st2 (Click now' b' d' e')); [assumption..|].
      intros; discriminate. }
    assert (Hlt2' : (h < nextTimer st2')%nat).
    { pose proof (step_nextTimer_le st2 (Click now' b' d' e')) as Hle.
      cbn in Hle. fold st2' in Hle. lia. }
    destruct (run_quiet st2' acts' h _ Hq' Hh2' Hlt2') as (Hh3 & Hlast3 & _).
    fold st3 in Hh3, Hlast3.
    apply (fire_deferred_suppressed b e (now + T)); [exact Hh3|].
    rewrite Hlast3. unfold st2'. rewrite handleClick_lastClickTime. lia.
Qed.

(** Steps other than a mouse-down never arm the long-hold timer. *)
Lemma step_not_armed st a :
  is_mousedown a = false -> longHoldTimeout st = None ->
  longHoldTimeout (step T L st a) = None.
Proof.
  intros Ha Hst.
  destruct a as [b e|b e|now b e|b e|now b d e|now h]; cbn; try assumption;
    try discriminate.
  - unfold handleClick.
    destruct (negb d && (now - lastClickTime st <? T)); cbn; [assumption|].
    destruct (negb d); cbn; [assumption|].
    pose proof (postSingleClick_frame b e (set_lastClickTime now st)) as (_ & -> & _).
    assumption.
  - unfold fire. destruct (timers st !! h) as [[due cb]|]; [|assumption].
    destruct (due <=? now); [|assumption].
    destruct cb as [|b e]; cbn; [reflexivity|].
    destruct (T <=? now - lastClickTime st); [|assumption].
    pose proof (postSingleClick_frame b e (remove_timer h st)) as (_ & -> & _).
    assumption.
Qed.

Lemma run_not_armed acts st :
  forallb (fun a => negb (is_mousedown a)) acts = true ->
  longHoldTimeout st = None ->
  longHoldTimeout (run T L acts st) = None.
Proof.
  unfold run. revert st.
  induction acts as [|a acts IH]; intros st Hq Hst; cbn [fold_left]; [assumption|].
  cbn in Hq. apply andb_true_iff in Hq as [Ha Hq].
  apply IH; [assumption|]. apply step_not_armed; [|assumption].
  destruct (is_mousedown a); [discriminate|reflexivity].
Qed.

Lemma step_armed_by acts st a :
  armed_by L acts st -> armed_by L (acts ++ [a]) (step T L st a).
Proof.
  intros Inv k Hk.
  assert (Hold : longHoldTimeout st = Some k -> (forall now, a <> Fire now k) ->
                 (k < nextTimer (step T L st a))%nat
                 /\ exists m, Exists (mousedown_at m) (acts ++ [a])
                              /\ timers (step T L st a) !! k = Some (m + L, ClearLongHold)).
  { intros Hst Hne. destruct (Inv k Hst) as (Hlt & m & Hm & Ht).
    pose proof (step_nextTimer_le st a). split; [lia|].
    exists m. split; [apply Exists_app; left; exact Hm|].
    apply step_keeps_timer; assumption. }
  destruct a as [b e|b e|now b e|b e|now b d e|now h];
    try (apply Hold; [exact Hk | intros; discriminate]).
  - cbn in Hk. injection Hk as <-. cbn. split; [lia|].
    exists now. split.
    + apply Exists_app. right. constructor. reflexivity.
    + apply lookup_insert_eq.
  - apply Hold; [|intros; discriminate].
    cbn in Hk. unfold handleClick in Hk.
    destruct (negb d && (now - lastClickTime st <? T)); cbn in Hk; [assumption|].
    destruct (negb d); cbn in Hk; [assumption|].
    pose proof (postSingleClick_frame b e (set_lastClickTime now st)) as (_ & F & _).
    rewrite F in Hk. assumption.
  - assert (Hidle : fire T now h st = st -> longHoldTimeout st = Some k ->
                    (k < nextTimer (fire T now h st))%nat
                    /\ exists m, Exists (mousedown_at m) (acts ++ [Fire now h])
                                 /\ timers (fire T now h st) !! k
                                    = Some (m + L, ClearLongHold)).
    { intros -> Hst. destruct (Inv k Hst) as (Hlt & m & Hm & Ht).
      split; [assumption|]. exists m. split; [|assumption].
      apply Exists_app. left. assumption. }
    cbn in Hk, Hold |- *. unfold fire in Hk, Hold, Hidle |- *.
    destruct (timers st !! h) as [[due cb]|] eqn:E; [|auto].
    destruct (due <=? now) eqn:Edue; [|auto].
    destruct cb as [|b e]; cbn in Hk; [discriminate|].
    assert (Hst : longHoldTimeout st = Some k).
    { destruct (T <=? now - lastClickTime st); [|assumption].
      pose proof (postSingleClick_frame b e (remove_timer h st)) as (_ & F & _).
      rewrite F in Hk. assumption. }
    apply Hold; [assumption|]. intros now' [= _ ->].
    destruct (Inv k Hst) as (_ & m & _ & Ht). congruence.
Qed.

Lemma run_armed_by acts : armed_by L acts (run T L acts init).
Proof.
  induction acts as [|a acts IH] using rev_ind.
  - intros k Hk. discriminate.
  - unfold run. rewrite fold_left_app. cbn. apply step_armed_by. exact IH.
Qed.

(** C9: a click that passes the exclusion and footnote checks is posted
    as a single click exactly when [longHoldTimeout] holds a handle; when
    it is null the call changes nothing and posts nothing.  It is null in
    every run without a mouse-down, and whenever it holds a handle that
    handle is the still-pending timer of a mouse-down of the run. *)
Theorem long_hold_gate b e st acts :
  excluded e = false -> footnoteOf e = None ->
  (longHoldTimeout st = None -> postSingleClick b e st = st)
  /\ (forall k, longHoldTimeout st = Some k ->
        postSingleClick b e st
        = post (iframe_single_click b (geometry e) (getKeyStatus e st)) st)
  /\ (forallb (fun a => negb (is_mousedown a)) acts = true ->
        longHoldTimeout (run T L acts init) = None)
  /\ (forall k, longHoldTimeout (run T L acts init) = Some k ->
        exists m, Exists (mousedown_at m) acts
                  /\ timers (run T L acts init) !! k = Some (m + L, ClearLongHold)).
Proof.
  intros Hex Hfn. unfold postSingleClick. rewrite Hex, Hfn.
  split; [intros ->; reflexivity|].
  split; [intros k ->; reflexivity|].
  split.
  - intros Hq. apply run_not_armed; [assumption|reflexivity].
  - intros k Hk. destruct (run_armed_by acts k Hk) as (_ & H). exact H.
Qed.

(** Two clicks less than the threshold apart, the second with the later
    timestamp: the second click posts one double click and schedules
    nothing, the evaluation the first click scheduled posts nothing when
    it runs on time, and a third click within the threshold of the second
    posts a double click again. *)
Lemma double_click_pair b1 e1 t1 b2 e2 t2 st :
  T <= t1 - lastClickTime st -> t1 < t2 -> t2 - t1 < T ->
  let h := nextTimer st in
  let st1 := handleClick T b1 false e1 t1 st in
  let st2 := handleClick T b2 false e2 t2 st1 in
  posted st2
  = posted st ++ [iframe_double_click b2 (geometry e2) (getKeyStatus e2 st)]
  /\ timers st2 = timers st1
  /\ posted (fire T (t1 + T) h st2) = posted st2
  /\ (forall b3 e3 t3, t3 - t2 < T ->
        handleClick T b3 false e3 t3 st2
        = post (iframe_double_click b3 (geometry e3) (getKeyStatus e3 st2))
               (set_lastClickTime t3 st2)).
Proof.
  intros Hgap1 Hlater Hgap2 h st1 st2.
  assert (E1 : st1 = setTimeout t1 T (DeferredClick b1 e1) (set_lastClickTime t1 st))
    by (apply handleClick_deferred; assumption).
  assert (E2 : st2 = post (iframe_double_click b2 (geometry e2) (getKeyStatus e2 st1))
                          (set_lastClickTime t2 st1)).
  { apply handleClick_double. rewrite E1. cbn. lia. }
  split; [rewrite E2, E1; reflexivity|].
  split; [rewrite E2; reflexivity|].
  split.
  - apply (fire_deferred_suppressed b1 e1 (t1 + T)).
    + rewrite E2, E1. cbn. apply lookup_insert_eq.
    + rewrite E2. cbn. lia.
  - intros b3 e3 t3 Hgap3. apply handleClick_double. rewrite E2. cbn. lia.
Qed.

(** Renaming surfaces commutes with every handler: no handler reads
    [bookKey] except to copy it into what it posts or schedules. *)

Lemma relabel_post f m st :
  relabelState f (post m st) = post (relabelMessage f m) (relabelState f st).
Proof. unfold relabelState, post. cbn. rewrite map_app. reflexivity. Qed.

Lemma relabel_setTimeout f now delay cb st :
  relabelState f (setTimeout now delay cb st)
  = setTimeout now delay (relabelCallback f cb) (relabelState f st).
Proof. unfold relabelState, setTimeout. cbn. rewrite fmap_insert. reflexivity. Qed.

Lemma relabel_postSingleClick f b e st :
  relabelState f (postSingleClick b e st)
  = postSingleClick (f b) e (relabelState f st).
Proof.
  unfold postSingleClick.
  destruct (excluded e); [reflexivity|].
  destruct (footnoteOf e); [apply relabel_post|].
  cbn. destruct (longHoldTimeout st); [apply relabel_post|reflexivity].
Qed.

Lemma relabel_step f st a :
  relabelState f (step T L st a) = step T L (relabelState f st) (relabelEvent f a).
Proof.
  destruct a as [b e|b e|now b e|b e|now b d e|now h]; cbn.
  - unfold handleKeydown. rewrite relabel_post. reflexivity.
  - unfold handleKeyup. rewrite relabel_post. reflexivity.
  - unfold handleMousedown. rewrite relabel_post. cbn. unfold relabelState. cbn.
    rewrite fmap_insert. reflexivity.
  - unfold handleMouseup. rewrite relabel_post. reflexivity.
  - unfold handleClick. cbn.
    destruct (negb d && (now - lastClickTime st <? T)).
    + rewrite relabel_post. reflexivity.
    + destruct (negb d).
      * rewrite relabel_setTimeout. reflexivity.
      * rewrite relabel_postSingleClick. reflexivity.
  - unfold fire. cbn. rewrite lookup_fmap.
    destruct (timers st !! h) as [[due cb]|]; cbn; [|reflexivity].
    destruct (due <=? now); [|reflexivity].
    destruct cb as [|b e]; cbn.
    + unfold relabelState, set_longHoldTimeout. cbn. rewrite fmap_delete. reflexivity.
    + destruct (T <=? now - lastClickTime st).
      * rewrite relabel_postSingleClick. unfold relabelState, remove_timer. cbn.
        rewrite fmap_delete. reflexivity.
      * unfold relabelState, remove_timer. cbn. rewrite fmap_delete. reflexivity.
Qed.

Lemma relabel_run f acts st :
  relabelState f (run T L acts st)
  = run T L (map (relabelEvent f) acts) (relabelState f st).
Proof.
  unfold run. revert st. induction acts as [|a acts IH]; intros st; cbn; [reflexivity|].
  rewrite IH, relabel_step. reflexivity.
Qed.

Lemma kind_relabelMessage f m : kind (relabelMessage f m) = kind m.
Proof. destruct m; reflexivity. Qed.

(** C5 (as amended): the click state is one record shared by all
    surfaces.  Renaming the bookKeys of a trace in any way, even so that
    two surfaces become one, renames the bookKeys of the messages and
    scheduled callbacks and changes nothing else: the recorded click
    time, the long-hold handle and the kinds of the posted messages are
    the same. *)
Theorem click_state_shared_by_surfaces (f : string -> string) acts :
  let st := run T L acts init in
  let st' := run T L (map (relabelEvent f) acts) init in
  st' = relabelState f st
  /\ lastClickTime st' = lastClickTime st
  /\ longHoldTimeout st' = longHoldTimeout st
  /\ map kind (posted st') = map kind (posted st).
Proof.
  intros st st'.
  assert (E : st' = relabelState f st).
  { unfold st, st'. rewrite relabel_run. f_equal. }
  split; [exact E|]. rewrite E. cbn. repeat split.
  rewrite map_map. apply map_ext. intros m. apply kind_relabelMessage.
Qed.

End ClickFacts.

(** Concrete runs, with a double-click threshold of 300 and a long-hold
    threshold of 500. *)

Section ClickRuns.
Import Dom IframeEvents Samples.
Local Open Scope Z_scope.

(** C1, at a pair of clicks that read the same [Date.now()]: the second
    click posts the double click, and the evaluation the first click
    scheduled still finds [now - lastClickTime >= threshold] when it
    runs on time, so it posts a single click for the first click. *)
Theorem same_timestamp_pair_posts_both :
  posted (run 300 500
            [Mousedown 1000 "book" (clickAt 1);
             Click 1000 "book" false (clickAt 1);
             Click 1000 "book" false (clickAt 2);
             Fire 1300 2]
            init)
  = [iframe_mousedown "book" 0 (geometry (clickAt 1)) idleKeys;
     iframe_double_click "book" (geometry (clickAt 2)) idleKeys;
     iframe_single_click "book" (geometry (clickAt 1)) idleKeys].
Proof. vm_compute. reflexivity. Qed.

(** With the second click one millisecond later the same run posts the
    double click only. *)
Example later_pair_posts_double_only :
  posted (run 300 500
            [Mousedown 1000 "book" (clickAt 1);
             Click 1000 "book" false (clickAt 1);
             Click 1001 "book" false (clickAt 2);
             Fire 1300 2]
            init)
  = [iframe_mousedown "book" 0 (geometry (clickAt 1)) idleKeys;
     iframe_double_click "book" (geometry (clickAt 2)) idleKeys].
Proof. vm_compute. reflexivity. Qed.

(** Two clicks 150 apart under a threshold of 300: one double click,
    with the geometry of the second click. *)
Example clicks_150_apart :
  posted (run 300 500
            [Mousedown 1000 "book" (clickAt 1);
             Click 1000 "book" false (clickAt 1);
             Mousedown 1150 "book" (clickAt 2);
             Click 1150 "book" false (clickAt 2);
             Fire 1300 2]
            init)
  = [iframe_mousedown "book" 0 (geometry (clickAt 1)) idleKeys;
     iframe_mousedown "book" 0 (geometry (clickAt 2)) idleKeys;
     iframe_double_click "book" (geometry (clickAt 2)) idleKeys].
Proof. vm_compute. reflexivity. Qed.

(** C4 as stated fails: the button is pressed at 1000 and the click
    arrives at 1250; no further click arrives, the long-hold timer runs
    out at 1500, and the evaluation of the click at 1550 posts nothing. *)
Lemma slow_click_posts_no_single_click :
  posted (run 300 500
            [Mousedown 1000 "book" (clickAt 1);
             Click 1250 "book" false (clickAt 1);
             Fire 1500 1;
             Fire 1550 2]
            init)
  = [iframe_mousedown "book" 0 (geometry (clickAt 1)) idleKeys].
Proof. vm_compute. reflexivity. Qed.

Lemma deferred_single_click_witness :
  300 <= 1000 - lastClickTime init
  /\ excluded (clickAt 1) = false /\ footnoteOf (clickAt 1) = None
  /\ quiet (nextTimer init) [Mousedown 1010 "book" (clickAt 1)] = true
  /\ 1000 + 300 <= 1300
  /\ posted (fire 300 1300 1
               (run 300 500 [Mousedown 1010 "book" (clickAt 1)]
                  (handleClick 300 "book" false (clickAt 1) 1000 init)))
     = [iframe_mousedown "book" 0 (geometry (clickAt 1)) idleKeys;
        iframe_single_click "book" (geometry (clickAt 1)) idleKeys].
Proof.
  split; [vm_compute; discriminate|].
  split; [reflexivity|]. split; [reflexivity|]. split; [reflexivity|].
  split; [vm_compute; discriminate|].
  destruct (deferred_single_click 300 500 "book" (clickAt 1) 1000 init
              [Mousedown 1010 "book" (clickAt 1)] 1300) as (_ & _ & H & _);
    [vm_compute; discriminate | reflexivity | reflexivity | reflexivity
    | vm_compute; discriminate |].
  etransitivity; [exact (H 2%nat eq_refl) | reflexivity].
Defined.

Lemma long_hold_gate_witness :
  excluded (clickAt 1) = false /\ footnoteOf (clickAt 1) = None
  /\ postSingleClick "book" (clickAt 1) init = init.
Proof.
  split; [reflexivity|]. split; [reflexivity|].
  apply (long_hold_gate 300 500 "book" (clickAt 1) init []);
    reflexivity.
Defined.

(** C5 as stated fails: alone, the click on surface A is classified as a
    single click; with one click on surface B delivered 100 later, A's
    click is classified as nothing and B's only click as a double click. *)
Lemma click_on_other_surface_interferes :
  classification "A"
    (run 300 500
       [Mousedown 1000 "A" (clickAt 1); Click 1000 "A" false (clickAt 1);
        Fire 1300 2] init) = [KSingleClick]
  /\ classification "A"
       (run 300 500
          [Mousedown 1000 "A" (clickAt 1); Click 1000 "A" false (clickAt 1);
           Mousedown 1100 "B" (clickAt 2); Click 1100 "B" false (clickAt 2);
           Fire 1300 2] init) = []
  /\ classification "B"
       (run 300 500
          [Mousedown 1000 "A" (clickAt 1); Click 1000 "A" false (clickAt 1);
           Mousedown 1100 "B" (clickAt 2); Click 1100 "B" false (clickAt 2);
           Fire 1300 2] init) = [KDoubleClick]
  /\ classification "B"
       (run 300 500
          [Mousedown 1100 "B" (clickAt 2); Click 1100 "B" false (clickAt 2);
           Fire 1400 2] init) = [KSingleClick].
Proof. vm_compute. repeat split. Qed.

End ClickRuns.

(** * Properties of the long-press tracker *)

Section LongPressFacts.
Import Dom LongPress.
Local Open Scope Z_scope.

Variable bookKey : string.

Lemma state_eq (s t : State) :
  pressTimers s = pressTimers t ->
  pressStartPositions s = pressStartPositions t ->
  timers s = timers t -> nextTimer s = nextTimer t ->
  observing s = observing t -> marked s = marked t -> posted s = posted t ->
  s = t.
Proof. destruct s, t; cbn; intros; subst; reflexivity. Qed.

(** A property kept by the listener is kept by dispatching the event
    along its propagation path. *)
Lemma dispatch_keeps (P : State -> Prop) type event now st :
  (forall s, P s -> P (listenerOf type event now s)) ->
  P st -> P (dispatch type event now st).
Proof.
  intros Hl. unfold dispatch.
  generalize (propagationPath type (targetOf event)). intros path. revert st.
  induction path as [|e path IH]; intros st HP; cbn [fold_left]; [assumption|].
  apply IH. destruct (bool_decide (eid e ∈ marked st)); auto.
Qed.

Lemma instrument_frame st e :
  pressTimers (instrument st e) = pressTimers st
  /\ pressStartPositions (instrument st e) = pressStartPositions st
  /\ timers (instrument st e) = timers st
  /\ nextTimer (instrument st e) = nextTimer st
  /\ observing (instrument st e) = observing st
  /\ posted (instrument st e) = posted st.
Proof. unfold instrument. destruct (hasMarker st e); cbn; tauto. Qed.

Lemma processElements_frame doc st :
  pressTimers (processElements doc st) = pressTimers st
  /\ pressStartPositions (processElements doc st) = pressStartPositions st
  /\ timers (processElements doc st) = timers st
  /\ nextTimer (processElements doc st) = nextTimer st
  /\ observing (processElements doc st) = observing st
  /\ posted (processElements doc st) = posted st.
Proof.
  unfold processElements.
  assert (F : forall l s,
    pressTimers (fold_left instrument l s) = pressTimers s
    /\ pressStartPositions (fold_left instrument l s) = pressStartPositions s
    /\ timers (fold_left instrument l s) = timers s
    /\ nextTimer (fold_left instrument l s) = nextTimer s
    /\ observing (fold_left instrument l s) = observing s
    /\ posted (fold_left instrument l s) = posted s).
  { induction l as [|e l IH]; intros s; cbn [fold_left]; [tauto|].
    destruct (IH (instrument s e)) as (-> & -> & -> & -> & -> & ->).
    apply instrument_frame. }
  destruct (F (List.filter sel_table doc)
              (fold_left instrument (List.filter (hasLocalName ["img"%string]) doc) st))
    as (-> & -> & -> & -> & -> & ->).
  apply F.
Qed.

(** *** The timer fired for a press *)

Lemma closest_table_self target :
  isTable target = true -> closest sel_table target = Some target.
Proof.
  unfold isTable, closest, sel_table. destruct target as [e anc]. cbn.
  destruct anc; cbn; unfold sel_table, hasLocalName; cbn; intros ->; reflexivity.
Qed.

Lemma handleLongPress_frame selection target st :
  pressTimers (handleLongPress bookKey selection target st) = pressTimers st
  /\ pressStartPositions (handleLongPress bookKey selection target st)
     = pressStartPositions st
  /\ timers (handleLongPress bookKey selection target st) = timers st
  /\ nextTimer (handleLongPress bookKey selection target st) = nextTimer st
  /\ observing (handleLongPress bookKey selection target st) = observing st
  /\ marked (handleLongPress bookKey selection target st) = marked st.
Proof.
  unfold handleLongPress.
  destruct (match selection with Some s => _ | None => _ end); [tauto|].
  destruct (isImage target); [cbn; tauto|].
  destruct (isTableOrInTable target); [|tauto].
  destruct (if isTable target then _ else _); cbn; tauto.
Qed.

(** C8: when the timer of a press runs while the document has a
    non-empty text selection, nothing is posted and the handler changes
    nothing.  With no selection or an empty one, an image target posts
    its [src]; a target that is not an image but is a table or lies in
    one posts the [outerHTML] of the nearest enclosing table (the target
    itself if it is a table); any other target posts nothing. *)
Theorem handleLongPress_payload selection target st :
  (forall s, selection = Some s -> s <> ""%string ->
     handleLongPress bookKey selection target st = st
     /\ forall now h, posted (fire bookKey now h selection st) = posted st)
  /\ (selection = None \/ selection = Some ""%string ->
      (isImage target = true ->
         handleLongPress bookKey selection target st
         = post (iframe_long_press_image bookKey (src (self target))) st)
      /\ (forall table, isImage target = false ->
           closest sel_table target = Some table ->
           handleLongPress bookKey selection target st
           = post (iframe_long_press_table bookKey (outerHTML (self table))) st)
      /\ (isImage target = false -> closest sel_table target = None ->
           handleLongPress bookKey selection target st = st)).
Proof.
  split.
  - intros s -> Hs.
    assert (Hlen : Nat.ltb 0 (String.length s) = true).
    { destruct s; [congruence|reflexivity]. }
    split; [unfold handleLongPress; rewrite Hlen; reflexivity|].
    intros now h. unfold fire.
    destruct (timers st !! h) as [[due [event el]]|]; [|reflexivity].
    destruct (due <=? now); [|reflexivity].
    unfold handleLongPress. rewrite Hlen. reflexivity.
  - intros Hsel.
    assert (Hgo : match selection with
                  | Some s => Nat.ltb 0 (String.length s)
                  | None => false
                  end = false)
      by (destruct Hsel as [-> | ->]; reflexivity).
    unfold handleLongPress. rewrite Hgo. split; [intros ->; reflexivity|]. split.
    + intros table -> Hc. unfold isTableOrInTable. rewrite Hc.
      rewrite orb_true_r.
      destruct (isTable target) eqn:Et; [|reflexivity].
      rewrite (closest_table_self target Et) in Hc. injection Hc as <-. reflexivity.
    + intros -> Hc. unfold isTableOrInTable. rewrite Hc.
      destruct (isTable target) eqn:Et; [|reflexivity].
      rewrite (closest_table_self target Et) in Hc. discriminate.
Qed.

(** *** Cancelling by movement *)

Lemma clearTimeout_cleared h o st : cleared h st -> cleared h (clearTimeout o st).
Proof.
  intros [Hn Hlt]. destruct o as [h'|]; cbn; [|split; assumption].
  split; [|assumption]. cbn.
  destruct (decide (h' = h)) as [->|Hne];
    [apply lookup_delete_eq | rewrite lookup_delete_ne; assumption].
Qed.

Lemma listener_cleared h type event now st :
  cleared h st -> cleared h (listenerOf type event now st).
Proof.
  intros Hc.
  assert (Hs : cleared h (startPress event now st)).
  { unfold startPress. destruct (elementToTrack (targetOf event)) as [el|]; [|assumption].
    set (st1 := match event with
                | MouseEv _ cx cy => _
                | TouchEv _ (touch :: _) => _
                | TouchEv _ [] => st
                end).
    assert (H1 : cleared h st1).
    { unfold st1. destruct event as [t cx cy|t [|touch ts]]; exact Hc. }
    pose proof (clearTimeout_cleared h (pressTimers st1 !! eid (self el)) st1 H1)
      as [Hn Hlt].
    split; cbn; [|lia]. rewrite lookup_insert_ne by lia. exact Hn. }
  assert (Hx : cleared h (cancelPress event st)).
  { unfold cancelPress. destruct (elementToTrack (targetOf event)) as [el|]; [|assumption].
    exact (clearTimeout_cleared h (pressTimers st !! eid (self el)) st Hc). }
  assert (Hm : cleared h (handleMove event st)).
  { unfold handleMove. destruct (elementToTrack (targetOf event)) as [el|]; [|assumption].
    destruct (pressStartPositions st !! eid (self el)) as [p|]; [|assumption].
    destruct (movedBeyond p (currentPosition event)); [|assumption].
    exact (clearTimeout_cleared h (pressTimers st !! eid (self el)) st Hc). }
  destruct type; assumption.
Qed.

Lemma teardown_fold_lookup hs st h :
  timers (fold_right (fun timer s => clearTimeout (Some timer) s) st hs) !! h
  = if bool_decide (h ∈ hs) then None else timers st !! h.
Proof.
  induction hs as [|t hs IH]; cbn [fold_right].
  - rewrite bool_decide_eq_false_2; [reflexivity|]. apply not_elem_of_nil.
  - cbn [clearTimeout set_timers timers].
    destruct (decide (t = h)) as [->|Hne].
    + rewrite lookup_delete_eq, bool_decide_eq_true_2; [reflexivity|]. left.
    + rewrite lookup_delete_ne by assumption.
      cbn [clearTimeout] in IH. rewrite IH.
      destruct (bool_decide (h ∈ hs)) eqn:E.
      * apply bool_decide_eq_true_1 in E. rewrite bool_decide_eq_true_2; [reflexivity|].
        right. assumption.
      * apply bool_decide_eq_false_1 in E. rewrite bool_decide_eq_false_2; [reflexivity|].
        intros [?|?]%elem_of_cons; congruence.
Qed.

Lemma teardown_fold_frame hs st :
  let st' := fold_right (fun timer s => clearTimeout (Some timer) s) st hs in
  pressTimers st' = pressTimers st
  /\ pressStartPositions st' = pressStartPositions st
  /\ nextTimer st' = nextTimer st
  /\ observing st' = observing st
  /\ marked st' = marked st
  /\ posted st' = posted st.
Proof.
  induction hs as [|t hs IH]; cbn [fold_right]; [cbn; tauto|].
  cbn in *. tauto.
Qed.

Lemma teardown_frame st :
  pressTimers (teardown st) = pressTimers st
  /\ pressStartPositions (teardown st) = pressStartPositions st
  /\ nextTimer (teardown st) = nextTimer st
  /\ observing (teardown st) = false
  /\ marked (teardown st) = marked st
  /\ posted (teardown st) = posted st.
Proof.
  unfold teardown.
  pose proof (teardown_fold_frame
                (map snd (map_to_list (pressTimers (set_observing false st))))
                (set_observing false st)) as F.
  cbn in F |- *. tauto.
Qed.

Lemma teardown_lookup st h :
  timers (teardown st) !! h
  = if bool_decide (h ∈ map snd (map_to_list (pressTimers st))) then None
    else timers st !! h.
Proof. unfold teardown. rewrite teardown_fold_lookup. reflexivity. Qed.

Lemma step_cleared h st a : cleared h st -> cleared h (step bookKey st a).
Proof.
  intros Hc. destruct a as [now type event|b doc|now h' sel|]; cbn [step].
  - apply dispatch_keeps; [|assumption]. intros s. apply listener_cleared.
  - unfold onMutations. destruct (observing st && b); [|assumption].
    destruct Hc as [Hn Hlt].
    pose proof (processElements_frame doc st) as (_ & _ & Ht & Hnx & _).
    split; [rewrite Ht|rewrite Hnx]; assumption.
  - unfold fire. destruct (timers st !! h') as [[due [event el]]|] eqn:E; [|assumption].
    destruct (due <=? now); [|assumption].
    destruct Hc as [Hn Hlt].
    pose proof (handleLongPress_frame sel el (set_timers (delete h' (timers st)) st))
      as (_ & _ & Ht & Hnx & _).
    split; [rewrite Ht|rewrite Hnx]; cbn; [|assumption].
    destruct (decide (h' = h)) as [->|Hne];
      [apply lookup_delete_eq | rewrite lookup_delete_ne; assumption].
  - destruct Hc as [Hn Hlt].
    pose proof (teardown_frame st) as (_ & _ & Hnx & _).
    split; [|rewrite Hnx; assumption].
    rewrite teardown_lookup. destruct (bool_decide _); [reflexivity|assumption].
Qed.

Lemma run_cleared h acts st : cleared h st -> cleared h (run bookKey acts st).
Proof.
  unfold run. revert st. induction acts as [|a acts IH]; intros st Hc; cbn [fold_left].
  - assumption.
  - apply IH, step_cleared, Hc.
Qed.

(** A press-start on a qualifying element records the position it
    carries and arms a timer of 500 for the element. *)
Lemma startPress_arms target cx cy now st el :
  elementToTrack target = Some el ->
  let st' := startPress (MouseEv target cx cy) now st in
  pressStartPositions st' !! eid (self el) = Some (cx, cy)
  /\ pressTimers st' !! eid (self el) = Some (nextTimer st)
  /\ timers st' !! nextTimer st = Some (now + 500, (MouseEv target cx cy, el))
  /\ nextTimer st' = S (nextTimer st).
Proof.
  intros Hel st'. unfold st', startPress. cbn [targetOf]. rewrite Hel.
  destruct (pressTimers
              (set_pressStartPositions
                 (<[eid (self el):=(cx, cy)]> (pressStartPositions st)) st)
            !! eid (self el)) as [h|]; cbn;
    rewrite !lookup_insert_eq; repeat split.
Qed.

Lemma release_eq k st :
  (let s1 := clearTimeout (pressTimers st !! k) st in
   let s2 := set_pressTimers (delete k (pressTimers s1)) s1 in
   set_pressStartPositions (delete k (pressStartPositions s2)) s2)
  = set_pressStartPositions (delete k (pressStartPositions st))
      (set_pressTimers (delete k (pressTimers st))
         (clearTimeout (pressTimers st !! k) st)).
Proof. destruct (pressTimers st !! k); reflexivity. Qed.

Lemma listener_issued type event now st :
  issued st -> issued (listenerOf type event now st).
Proof.
  intros Hi.
  assert (Hdel : forall k (s : State),
             issued s ->
             issued (set_pressStartPositions (delete k (pressStartPositions s))
                       (set_pressTimers (delete k (pressTimers s))
                          (clearTimeout (pressTimers s !! k) s)))).
  { intros k s Hs k' h. cbn. destruct (pressTimers s !! k) eqn:E; cbn;
      (destruct (decide (k = k')) as [->|Hne];
       [rewrite lookup_delete_eq; discriminate
       | rewrite lookup_delete_ne by assumption; apply Hs]). }
  assert (Hs : issued (startPress event now st)).
  { unfold startPress. destruct (elementToTrack (targetOf event)) as [el|]; [|assumption].
    set (k := eid (self el)).
    set (st1 := match event with
                | MouseEv _ cx cy => _
                | TouchEv _ (touch :: _) => _
                | TouchEv _ [] => st
                end).
    assert (H1 : issued st1).
    { unfold st1. destruct event as [t cx cy|t [|touch ts]]; exact Hi. }
    cbn zeta. intros k' h. cbn.
    assert (Hn : nextTimer (clearTimeout (pressTimers st1 !! k) st1) = nextTimer st1)
      by (destruct (pressTimers st1 !! k); reflexivity).
    assert (Hp : pressTimers (clearTimeout (pressTimers st1 !! k) st1) = pressTimers st1)
      by (destruct (pressTimers st1 !! k); reflexivity).
    rewrite Hn, Hp. destruct (decide (k = k')) as [->|Hne].
    - rewrite lookup_insert_eq. intros [= <-]. lia.
    - rewrite lookup_insert_ne by assumption. intros Hk. specialize (H1 k' h Hk). lia. }
  assert (Hx : issued (cancelPress event st)).
  { unfold cancelPress. destruct (elementToTrack (targetOf event)) as [el|]; [|assumption].
    rewrite release_eq. apply Hdel, Hi. }
  assert (Hm : issued (handleMove event st)).
  { unfold handleMove. destruct (elementToTrack (targetOf event)) as [el|]; [|assumption].
    destruct (pressStartPositions st !! eid (self el)) as [p|]; [|assumption].
    destruct (movedBeyond p (currentPosition event)); [|assumption].
    rewrite release_eq. apply Hdel, Hi. }
  destruct type; assumption.
Qed.

Lemma step_issued st a : issued st -> issued (step bookKey st a).
Proof.
  intros Hi. destruct a as [now type event|b doc|now h sel|]; cbn [step].
  - apply dispatch_keeps; [|assumption]. intros s. apply listener_issued.
  - unfold onMutations. destruct (observing st && b); [|assumption].
    pose proof (processElements_frame doc st) as (Hp & _ & _ & Hn & _).
    intros k h'. rewrite Hp, Hn. apply Hi.
  - unfold fire. destruct (timers st !! h) as [[due [event el]]|]; [|assumption].
    destruct (due <=? now); [|assumption].
    pose proof (handleLongPress_frame sel el (set_timers (delete h (timers st)) st))
      as (Hp & _ & _ & Hn & _).
    intros k h'. rewrite Hp, Hn. apply Hi.
  - pose proof (teardown_frame st) as (Hp & _ & Hn & _).
    intros k h'. rewrite Hp, Hn. apply Hi.
Qed.

Lemma run_issued acts doc : issued (run bookKey acts (addLongPressListeners doc)).
Proof.
  assert (H0 : issued (addLongPressListeners doc)).
  { intros k h. unfold addLongPressListeners. cbn.
    pose proof (processElements_frame doc
                  {| pressTimers := ∅; pressStartPositions := ∅; timers := ∅;
                     nextTimer := 1; observing := false; marked := ∅; posted := [] |})
      as (-> & _).
    cbn. rewrite lookup_empty. discriminate. }
  unfold run. revert H0. generalize (addLongPressListeners doc).
  induction acts as [|a acts IH]; intros st Hi; cbn [fold_left]; [assumption|].
  apply IH, step_issued, Hi.
Qed.

(** A move cancels the press of the element its own target resolves
    to: in any state the tracker reaches, while that element has a
    recorded press-start position and an armed timer, a move whose
    distance from that position exceeds the threshold of 10 clears the
    timer and removes both entries of the element, posting nothing; from
    then on the timer of that press is never pending again, so running
    it at any later time, whatever happened in between, does nothing. *)
Theorem move_beyond_threshold_cancels doc before event el startPos timer
  acts now selection :
  let st := run bookKey before (addLongPressListeners doc) in
  elementToTrack (targetOf event) = Some el ->
  pressStartPositions st !! eid (self el) = Some startPos ->
  pressTimers st !! eid (self el) = Some timer ->
  movedBeyond startPos (currentPosition event) = true ->
  let st' := handleMove event st in
  timers st' !! timer = None
  /\ pressTimers st' !! eid (self el) = None
  /\ pressStartPositions st' !! eid (self el) = None
  /\ posted st' = posted st
  /\ timers (run bookKey acts st') !! timer = None
  /\ fire bookKey now timer selection (run bookKey acts st') = run bookKey acts st'.
Proof.
  intros st Hel Hpos Htimer Hmoved st'.
  assert (Hlt : (timer < nextTimer st)%nat)
    by (apply (run_issued before doc (eid (self el))); exact Htimer).
  assert (E : st' = set_pressStartPositions (delete (eid (self el)) (pressStartPositions st))
                      (set_pressTimers (delete (eid (self el)) (pressTimers st))
                         (set_timers (delete timer (timers st)) st))).
  { unfold st', handleMove. rewrite Hel, Hpos, Hmoved, Htimer. reflexivity. }
  assert (Hc : cleared timer st').
  { rewrite E. split; cbn; [apply lookup_delete_eq | assumption]. }
  pose proof (run_cleared timer acts st' Hc) as [Hn _].
  split; [apply Hc|].
  split; [rewrite E; cbn; apply lookup_delete_eq|].
  split; [rewrite E; cbn; apply lookup_delete_eq|].
  split; [rewrite E; reflexivity|].
  split; [exact Hn|].
  unfold fire. rewrite Hn. reflexivity.
Qed.

(** *** Teardown *)

Lemma tracked_shrink st st' :
  tracked st -> pressTimers st' = pressTimers st ->
  (forall h x, timers st' !! h = Some x -> timers st !! h = Some x) ->
  tracked st'.
Proof.
  intros Htr Hp Hsub h x Hh. rewrite Hp. apply (Htr h x). apply Hsub. exact Hh.
Qed.

Lemma lookup_clearTimeout o st h x :
  timers (clearTimeout o st) !! h = Some x -> timers st !! h = Some x /\ o <> Some h.
Proof.
  destruct o as [t|]; cbn; [|intros ?; split; [assumption|discriminate]].
  destruct (decide (t = h)) as [->|Hne].
  - rewrite lookup_delete_eq. discriminate.
  - rewrite lookup_delete_ne by assumption. intros ?. split; [assumption|congruence].
Qed.

Lemma tracked_release k st :
  tracked st ->
  tracked (set_pressStartPositions (delete k (pressStartPositions st))
             (set_pressTimers (delete k (pressTimers st))
                (clearTimeout (pressTimers st !! k) st))).
Proof.
  intros Htr h x Hh. cbn in Hh.
  assert (Hh' : timers (clearTimeout (pressTimers st !! k) st) !! h = Some x).
  { destruct (pressTimers st !! k); exact Hh. }
  apply lookup_clearTimeout in Hh' as [Hst Hne].
  destruct (Htr h x Hst) as [k' Hk']. exists k'. cbn.
  assert (k <> k') by congruence.
  destruct (pressTimers st !! k); cbn; rewrite lookup_delete_ne; assumption.
Qed.

Lemma listener_tracked type event now st :
  tracked st -> tracked (listenerOf type event now st).
Proof.
  intros Htr.
  assert (Hs : tracked (startPress event now st)).
  { unfold startPress. destruct (elementToTrack (targetOf event)) as [el|]; [|assumption].
    set (k := eid (self el)).
    set (st1 := match event with
                | MouseEv _ cx cy => _
                | TouchEv _ (touch :: _) => _
                | TouchEv _ [] => st
                end).
    assert (H1 : tracked st1 /\ pressTimers st1 = pressTimers st).
    { unfold st1. destruct event as [t cx cy|t [|touch ts]]; split;
        (exact Htr || reflexivity). }
    destruct H1 as [H1 Hp1]. cbn zeta.
    intros h x Hh. cbn in Hh |- *.
    destruct (decide (h = nextTimer (clearTimeout (pressTimers st1 !! k) st1)))
      as [->|Hne].
    - exists k. apply lookup_insert_eq.
    - rewrite lookup_insert_ne in Hh by congruence.
      apply lookup_clearTimeout in Hh as [Hst Hno].
      destruct (H1 h x Hst) as [k' Hk']. exists k'.
      assert (k <> k') by congruence.
      rewrite lookup_insert_ne by assumption.
      destruct (pressTimers st1 !! k); exact Hk'. }
  assert (Hx : tracked (cancelPress event st)).
  { unfold cancelPress. destruct (elementToTrack (targetOf event)) as [el|]; [|assumption].
    rewrite release_eq. apply tracked_release, Htr. }
  assert (Hm : tracked (handleMove event st)).
  { unfold handleMove. destruct (elementToTrack (targetOf event)) as [el|]; [|assumption].
    destruct (pressStartPositions st !! eid (self el)) as [p|]; [|assumption].
    destruct (movedBeyond p (currentPosition event)); [|assumption].
    rewrite release_eq. apply tracked_release, Htr. }
  destruct type; assumption.
Qed.

Lemma step_tracked st a : tracked st -> tracked (step bookKey st a).
Proof.
  intros Htr. destruct a as [now type event|b doc|now h sel|]; cbn [step].
  - apply dispatch_keeps; [|assumption]. intros s. apply listener_tracked.
  - unfold onMutations. destruct (observing st && b); [|assumption].
    pose proof (processElements_frame doc st) as (Hp & _ & Ht & _).
    apply (tracked_shrink st); [assumption..|]. rewrite Ht. auto.
  - unfold fire. destruct (timers st !! h) as [[due [event el]]|]; [|assumption].
    destruct (due <=? now); [|assumption].
    pose proof (handleLongPress_frame sel el (set_timers (delete h (timers st)) st))
      as (Hp & _ & Ht & _).
    apply (tracked_shrink st); [assumption..|]. rewrite Ht. cbn.
    intros h' x. destruct (decide (h = h')) as [->|Hne].
    + rewrite lookup_delete_eq. discriminate.
    + rewrite lookup_delete_ne by assumption. auto.
  - pose proof (teardown_frame st) as (Hp & _).
    apply (tracked_shrink st); [assumption..|].
    intros h x. rewrite teardown_lookup. destruct (bool_decide _); [discriminate|auto].
Qed.

Lemma run_tracked acts st : tracked st -> tracked (run bookKey acts st).
Proof.
  unfold run. revert st. induction acts as [|a acts IH]; intros st Htr; cbn [fold_left].
  - assumption.
  - apply IH, step_tracked, Htr.
Qed.

Lemma teardown_clears st : tracked st -> timers (teardown st) = ∅.
Proof.
  intros Htr. apply map_eq. intros h. rewrite lookup_empty, teardown_lookup.
  destruct (bool_decide _) eqn:E; [reflexivity|].
  apply bool_decide_eq_false_1 in E.
  destruct (timers st !! h) as [x|] eqn:Eh; [|reflexivity].
  destruct (Htr h x Eh) as [k Hk]. exfalso. apply E.
  apply list_elem_of_fmap. exists (k, h). split; [reflexivity|].
  apply elem_of_map_to_list. exact Hk.
Qed.

Lemma teardown_idempotent st : teardown (teardown st) = teardown st.
Proof.
  pose proof (teardown_frame st) as (Hp & Hs & Hn & Ho & Hm & Hpo).
  pose proof (teardown_frame (teardown st)) as (Hp' & Hs' & Hn' & Ho' & Hm' & Hpo').
  apply state_eq; try congruence.
  apply map_eq. intros h. rewrite (teardown_lookup (teardown st)), Hp.
  rewrite teardown_lookup. destruct (bool_decide _); reflexivity.
Qed.

Lemma clearTimeout_idle log o st : idle log st -> idle log (clearTimeout o st).
Proof.
  intros [Ht Hp]. destruct o as [h|]; [|split; assumption].
  split; cbn; [|assumption]. rewrite Ht. apply delete_empty.
Qed.

Lemma step_idle log st a :
  is_pressStart a = false -> idle log st -> idle log (step bookKey st a).
Proof.
  intros Ha Hi. destruct a as [now type event|b doc|now h sel|]; cbn [step].
  - apply dispatch_keeps; [|assumption]. intros s Hs.
    destruct type; try discriminate; cbn [listenerOf];
      unfold handleMove, cancelPress;
      destruct (elementToTrack (targetOf event)) as [el|]; try assumption.
    all: try (destruct (pressStartPositions s !! eid (self el)) as [p|]; [|assumption];
              destruct (movedBeyond p (currentPosition event)); [|assumption]).
    all: rewrite release_eq;
      exact (clearTimeout_idle log (pressTimers s !! eid (self el)) s Hs).
  - unfold onMutations. destruct (observing st && b); [|assumption].
    pose proof (processElements_frame doc st) as (_ & _ & Ht & _ & _ & Hp).
    destruct Hi. split; congruence.
  - unfold fire. destruct Hi as [Ht Hp]. rewrite Ht, lookup_empty. split; assumption.
  - pose proof (teardown_frame st) as (_ & _ & _ & _ & _ & Hp).
    destruct Hi as [Ht Hpo]. split; [|congruence].
    apply map_eq. intros h. rewrite teardown_lookup, Ht, lookup_empty.
    destruct (bool_decide _); reflexivity.
Qed.

Lemma run_idle log acts st :
  forallb (fun a => negb (is_pressStart a)) acts = true ->
  idle log st -> idle log (run bookKey acts st).
Proof.
  unfold run. revert st. induction acts as [|a acts IH]; intros st Hq Hi; cbn [fold_left].
  - assumption.
  - cbn in Hq. apply andb_true_iff in Hq as [Ha Hq].
    apply IH; [assumption|]. apply step_idle; [|assumption].
    destruct (is_pressStart a); [discriminate|reflexivity].
Qed.

(** C6 (as amended): after the teardown returned by
    [addLongPressListeners], whatever happened before, the observer is
    disconnected and a mutation no longer instruments anything, no timer
    is pending (so no press started before the teardown ever fires), and
    a second teardown changes nothing.  Until a press-start event is
    delivered, nothing is posted.  (The listeners stay attached: a
    press-start delivered afterwards arms a timer again.) *)
Theorem teardown_clears_pending_presses doc acts :
  let st := teardown (run bookKey acts (addLongPressListeners doc)) in
  observing st = false
  /\ (forall hasNewElements doc', onMutations hasNewElements doc' st = st)
  /\ timers st = ∅
  /\ teardown st = st
  /\ (forall acts', forallb (fun a => negb (is_pressStart a)) acts' = true ->
        posted (run bookKey acts' st) = posted st).
Proof.
  intros st.
  assert (Ho : observing st = false) by apply teardown_frame.
  assert (Ht : timers st = ∅).
  { apply teardown_clears, run_tracked. intros h x.
    unfold addLongPressListeners. cbn.
    pose proof (processElements_frame doc
                  {| pressTimers := ∅; pressStartPositions := ∅; timers := ∅;
                     nextTimer := 1; observing := false; marked := ∅; posted := [] |})
      as (_ & _ & -> & _).
    cbn. rewrite lookup_empty. discriminate. }
  split; [exact Ho|].
  split; [intros b doc'; unfold onMutations; rewrite Ho; reflexivity|].
  split; [exact Ht|].
  split; [apply teardown_idempotent|].
  intros acts' Hq. apply (run_idle (posted st) acts' st Hq). split; [exact Ht|reflexivity].
Qed.

End LongPressFacts.

Section LongPressRuns.
Import Dom LongPress Samples.
Local Open Scope Z_scope.

(** C6 as stated fails: the listeners are still attached after the
    teardown, so a mouse-down on the image arms a timer and the timer
    posts a long press. *)
Lemma press_after_teardown_fires :
  posted (run "book"
            [Teardown;
             Dispatch 1000 mousedown
               (MouseEv {| self := picture; ancestors := [] |} 5 5);
             Fire 1500 1 None]
            (addLongPressListeners [picture]))
  = [iframe_long_press_image "book" "cover.png"].
Proof. vm_compute. reflexivity. Qed.

(** Press on an image, move 15 pixels before the 500 elapse: no long
    press; without the move the same press posts the image. *)
Example press_then_move_15 :
  posted (run "book"
            [Dispatch 1000 mousedown (MouseEv {| self := picture; ancestors := [] |} 5 5);
             Dispatch 1100 mousemove (MouseEv {| self := picture; ancestors := [] |} 20 5);
             Fire 1500 1 None]
            (addLongPressListeners [picture])) = []
  /\ posted (run "book"
              [Dispatch 1000 mousedown (MouseEv {| self := picture; ancestors := [] |} 5 5);
               Fire 1500 1 None]
              (addLongPressListeners [picture]))
     = [iframe_long_press_image "book" "cover.png"].
Proof. vm_compute. split; reflexivity. Qed.

(** C7, at a press on a table cell followed by a move onto an image of
    the same table.  The mouse goes down on the cell at (5, 5), which
    records the table; 100 later it has moved 15 to the right, more than
    the threshold of 10, and is over the image.  [handleMove] resolves
    the target of the move to the image, finds no start position for
    it and cancels nothing: the timer of the table is still pending and
    recorded, and when it runs at 1500 it posts the long press of the
    table. *)
Theorem move_onto_nested_image_keeps_press :
  let press := MouseEv cell 5 5 in
  let move := MouseEv MoreSamples.thumbnailInGrid 20 5 in
  let st := run "book" [Dispatch 1000 mousedown press; Dispatch 1100 mousemove move]
              (addLongPressListeners [grid; MoreSamples.thumbnail]) in
  elementToTrack (targetOf press) = Some {| self := grid; ancestors := [] |}
  /\ elementToTrack (targetOf move) = Some MoreSamples.thumbnailInGrid
  /\ movedBeyond (currentPosition press) (currentPosition move) = true
  /\ pressStartPositions st !! eid grid = Some (5, 5)%Q
  /\ pressTimers st !! eid grid = Some 1%nat
  /\ timers st !! 1%nat = Some (1500, (press, {| self := grid; ancestors := [] |}))
  /\ posted st = []
  /\ posted (fire "book" 1500 1 None st)
     = [iframe_long_press_table "book" (outerHTML grid)].
Proof. vm_compute. repeat split. Qed.

Lemma move_beyond_threshold_cancels_witness :
  let move := MouseEv cell 20 5 in
  let st := run "book" [Dispatch 1000 mousedown (MouseEv cell 5 5)]
              (addLongPressListeners [grid]) in
  elementToTrack (targetOf move) = Some {| self := grid; ancestors := [] |}
  /\ pressStartPositions st !! eid (self {| self := grid; ancestors := [] |})
     = Some (5, 5)%Q
  /\ pressTimers st !! eid (self {| self := grid; ancestors := [] |}) = Some 1%nat
  /\ movedBeyond (5, 5)%Q (currentPosition move) = true
  /\ timers (handleMove move st) !! 1%nat = None.
Proof.
  cbv zeta.
  assert (H1 : elementToTrack (targetOf (MouseEv cell 20 5))
               = Some {| self := grid; ancestors := [] |}) by reflexivity.
  assert (H2 : pressStartPositions
                 (run "book" [Dispatch 1000 mousedown (MouseEv cell 5 5)]
                    (addLongPressListeners [grid]))
               !! eid (self {| self := grid; ancestors := [] |}) = Some (5, 5)%Q)
    by (vm_compute; reflexivity).
  assert (H3 : pressTimers
                 (run "book" [Dispatch 1000 mousedown (MouseEv cell 5 5)]
                    (addLongPressListeners [grid]))
               !! eid (self {| self := grid; ancestors := [] |}) = Some 1%nat)
    by (vm_compute; reflexivity).
  assert (H4 : movedBeyond (5, 5)%Q (currentPosition (MouseEv cell 20 5)) = true)
    by reflexivity.
  repeat (split; [assumption|]).
  exact (proj1 (move_beyond_threshold_cancels "book" [grid]
                  [Dispatch 1000 mousedown (MouseEv cell 5 5)] (MouseEv cell 20 5)
                  {| self := grid; ancestors := [] |} (5, 5)%Q 1%nat [] 1500 None
                  H1 H2 H3 H4)).
Defined.

End LongPressRuns.

(** * Properties of the image viewer *)

Section NumberFacts.
Import Js.
Local Open Scope Q_scope.

Lemma le_Num p q : le (Num p) (Num q) = true <-> p <= q.
Proof. cbn. apply Qle_bool_iff. Qed.

Lemma le_Num_false p q : le (Num p) (Num q) = false <-> q < p.
Proof.
  cbn. split.
  - intros H. apply Qnot_le_lt. intros Hle. apply Qle_bool_iff in Hle. congruence.
  - intros H. destruct (Qle_bool p q) eqn:E; [|reflexivity].
    apply Qle_bool_iff in E. lra.
Qed.

Lemma div_Num p q : ~ q == 0 -> div (Num p) (Num q) = Num (p / q).
Proof.
  intros Hq. unfold div, Qsign. destruct (q ?= 0) eqn:E; try reflexivity.
  apply Qeq_alt in E. contradiction.
Qed.

(** What [Math.min(Math.max(a, MIN_SCALE), MAX_SCALE)] gives for any
    number but [NaN]. *)
Lemma clamp_in_range a :
  a <> NaN ->
  exists q, min (max a ImageViewer.MIN_SCALE) ImageViewer.MAX_SCALE = Num q
            /\ (1 # 2) <= q <= 8.
Proof.
  intros Ha. unfold ImageViewer.MIN_SCALE, ImageViewer.MAX_SCALE.
  destruct a as [p| | |]; [| | |congruence].
  - unfold max. destruct (le (Num p) (Num (1 # 2))) eqn:E1.
    + exists (1 # 2). split; [reflexivity|lra].
    + apply le_Num_false in E1. unfold min.
      destruct (le (Num p) (Num 8)) eqn:E2.
      * apply le_Num in E2. exists p. split; [reflexivity|lra].
      * exists 8. split; [reflexivity|lra].
  - exists 8. split; [reflexivity|lra].
  - exists (1 # 2). split; [reflexivity|lra].
Qed.

Lemma clamp_NaN :
  min (max NaN ImageViewer.MIN_SCALE) ImageViewer.MAX_SCALE = NaN.
Proof. reflexivity. Qed.

Lemma add_not_NaN q b : b <> NaN -> add (Num q) b <> NaN.
Proof. destruct b; cbn; congruence. Qed.

Lemma neg_not_NaN b : b <> NaN -> neg b <> NaN.
Proof. destruct b; cbn; congruence. Qed.

Lemma mul_pos_not_NaN q b : 0 < q -> b <> NaN -> mul (Num q) b <> NaN.
Proof.
  intros Hq Hb. destruct b as [p| | |]; cbn; try congruence.
  - unfold scaleInf, Qsign. destruct (q ?= 0) eqn:E; try discriminate.
    apply Qeq_alt in E. lra.
  - unfold scaleInf, Qsign. destruct (q ?= 0) eqn:E; try discriminate.
    apply Qeq_alt in E. lra.
Qed.

End NumberFacts.

Section ViewerFacts.
Import Js ImageViewer.
Local Open Scope Q_scope.

(** C2: on finite numbers the new translation is
    [ax - (ax - tx) * (s' / s)] (and likewise for y), and zooming from
    [s] to [s'] and back to [s] at the same anchor returns the original
    translation, for any nonzero scales.  Numbers are exact rationals
    here, so the round trip is exact. *)
Theorem getZoomedOffset_round_trip ax ay s s' tx ty :
  ~ s == 0 -> ~ s' == 0 ->
  let p := {| x := Num tx; y := Num ty |} in
  let p1 := getZoomedOffset (Num ax) (Num ay) (Num s) (Num s') p in
  let p2 := getZoomedOffset (Num ax) (Num ay) (Num s') (Num s) p1 in
  same (x p1) (Num (ax - (ax - tx) * (s' / s)))
  /\ same (y p1) (Num (ay - (ay - ty) * (s' / s)))
  /\ same (x p2) (Num tx)
  /\ same (y p2) (Num ty).
Proof.
  intros Hs Hs' p p1 p2.
  unfold p2, p1, p, getZoomedOffset.
  rewrite (div_Num s' s Hs), (div_Num s s' Hs'). cbn.
  repeat split; try reflexivity; field; auto.
Qed.

Lemma scaleInRange_settled st q :
  scale st = Num q -> le (Num q) (Num 1) = false -> settled st.
Proof.
  intros Hs Hgt r Hr Hle. rewrite Hs in Hr. injection Hr as <-.
  apply le_Num_false in Hgt. lra.
Qed.

Lemma origin_settled st : position st = origin -> settled st.
Proof. intros H q _ _. exact H. Qed.

Lemma invariant_init : invariant init.
Proof.
  split; [|constructor].
  split; [|split; [discriminate | exists 0; reflexivity]].
  exists 1. split; [reflexivity|lra].
Qed.

(** What the wheel and a pinch frame do once the new scale is clamped. *)
Lemma zoom_settles (st : State) (a z : number) (p : Pos) (d : number) :
  a <> NaN -> z <> NaN -> (exists q, lastTouchDistance st = Num q) ->
  (exists q, d = Num q) ->
  let newScale := min (max a MIN_SCALE) MAX_SCALE in
  let st' := if le newScale (Num 1)
             then setZoomSpeed ZOOM_SPEED (setScale newScale (setPosition origin st))
             else set_lastTouchDistance d
                    (setZoomSpeed z (setScale newScale (setPosition p st))) in
  core st' /\ settled st' /\ frames st' = frames st.
Proof.
  intros Ha Hz Hd Hd' newScale.
  destruct (clamp_in_range a Ha) as (q & Eq & Hq). fold newScale in Eq.
  rewrite Eq. cbv zeta. destruct (le (Num q) (Num 1)) eqn:E.
  - split; [|split; [apply origin_settled|]; reflexivity].
    split; [exists q; split; [reflexivity|assumption]|].
    split; [discriminate | exact Hd].
  - split; [|split; [apply (scaleInRange_settled _ q); [reflexivity|exact E]|reflexivity]].
    split; [exists q; split; [reflexivity|assumption]|].
    split; [exact Hz | exact Hd'].
Qed.

Lemma handleZoomIn_core st :
  core st -> core (handleZoomIn st)
             /\ (settled st -> settled (handleZoomIn st))
             /\ frames (handleZoomIn st) = frames st.
Proof.
  intros ((q & Hs & Hq) & Hz & Hd). unfold handleZoomIn. rewrite Hs.
  unfold ZOOM_SPEED, ZOOM_BIAS, MAX_SCALE. cbn [add mul].
  assert (E : exists r, min (Num (q + (1 # 10))) (Num 8) = Num r
                        /\ (1 # 2) <= r <= 8 /\ (r <= 1 -> q <= 1)).
  { unfold min. destruct (le (Num (q + (1 # 10))) (Num 8)) eqn:E.
    - apply le_Num in E. exists (q + (1 # 10)). split; [reflexivity|]. lra.
    - exists 8. split; [reflexivity|]. lra. }
  destruct E as (r & -> & Hr & Hrq).
  split; [|split; [|reflexivity]].
  - split; [exists r; split; [reflexivity|assumption]|].
    split; [discriminate | exact Hd].
  - intros Hset r' Hr' Hle. cbn in Hr' |- *. injection Hr' as <-.
    apply (Hset q Hs). auto.
Qed.

Lemma handleZoomOut_core st :
  core st -> core (handleZoomOut st) /\ settled (handleZoomOut st)
             /\ frames (handleZoomOut st) = frames st.
Proof.
  intros ((q & Hs & Hq) & Hz & Hd). unfold handleZoomOut. rewrite Hs.
  unfold ZOOM_SPEED, ZOOM_BIAS, MIN_SCALE. cbn [sub add neg mul].
  assert (E : exists r, max (Num (q + - (1 # 10))) (Num (1 # 2)) = Num r
                        /\ (1 # 2) <= r <= 8).
  { unfold max. destruct (le (Num (q + - (1 # 10))) (Num (1 # 2))) eqn:E.
    - exists (1 # 2). split; [reflexivity|]. lra.
    - apply le_Num_false in E. exists (q + - (1 # 10)). split; [reflexivity|]. lra. }
  destruct E as (r & -> & Hr).
  destruct (le (Num r) (Num 1)) eqn:E1.
  - split; [|split; [apply origin_settled|]; reflexivity].
    split; [exists r; split; [reflexivity|assumption]|].
    split; [discriminate | exact Hd].
  - split; [|split; [apply (scaleInRange_settled _ r); [reflexivity|exact E1]|reflexivity]].
    split; [exists r; split; [reflexivity|assumption]|].
    split; [discriminate | exact Hd].
Qed.

Lemma handleReset_core st :
  core st -> core (handleReset st) /\ settled (handleReset st)
             /\ frames (handleReset st) = frames st.
Proof.
  intros (_ & _ & Hd). split; [|split; [apply origin_settled|]; reflexivity].
  split; [exists 1; split; [reflexivity|lra]|]. split; [discriminate | exact Hd].
Qed.

(** A pinch frame leaves a scale in range and a settled translation,
    whatever happened between its request and its run; a pan frame sets
    the translation without looking at the scale. *)
Lemma runFrameCallback_core st callback :
  core st -> frameOk callback ->
  core (runFrameCallback st callback)
  /\ (isPanFrame callback = false -> settled (runFrameCallback st callback))
  /\ frames (runFrameCallback st callback) = frames st.
Proof.
  intros (Hs & Hz & Hd) Hok.
  destruct callback as [touch|s dc cd touch1 touch2 rect]; cbn [runFrameCallback].
  - split; [|split; [discriminate|reflexivity]]. split; [exact Hs|]. split; assumption.
  - destruct Hok as ((q & -> & Hq) & Hdc & Hcd).
    assert (Hsc : mul (Num q) dc <> NaN) by (apply mul_pos_not_NaN; [lra | assumption]).
    assert (Hzoom : mul (mul MOBILE_ZOOM_SPEED ZOOM_BIAS) dc <> NaN).
    { cbn. apply (mul_pos_not_NaN ((1 # 1000) * (105 # 100))); [lra | assumption]. }
    pose proof (zoom_settles st (mul (Num q) dc) _
                  (getZoomedOffset
                     (Num ((t_clientX touch1 + t_clientX touch2) / 2
                           - left rect - width rect / 2))
                     (Num ((t_clientY touch1 + t_clientY touch2) / 2
                           - top rect - height rect / 2))
                     (Num q)
                     (min (max (mul (Num q) dc) MIN_SCALE) MAX_SCALE)
                     (position st))
                  cd Hsc Hzoom Hd Hcd) as H.
    cbv zeta in H |- *. destruct H as (H1 & H2 & H3). auto.
Qed.

Lemma frames_core callbacks st :
  core st -> Forall frameOk callbacks ->
  core (fold_left runFrameCallback callbacks st)
  /\ frames (fold_left runFrameCallback callbacks st) = frames st.
Proof.
  revert st. induction callbacks as [|cb l IH]; intros st Hc Hok; cbn [fold_left].
  - auto.
  - inversion Hok as [|? ? Hcb Hl]; subst.
    destruct (runFrameCallback_core st cb Hc Hcb) as (H1 & _ & H3).
    destruct (IH _ H1 Hl) as (I1 & I3).
    split; [exact I1|]. congruence.
Qed.

Lemma frames_settled callbacks st :
  core st -> settled st -> Forall frameOk callbacks ->
  Forall (fun cb => isPanFrame cb = false) callbacks ->
  settled (fold_left runFrameCallback callbacks st).
Proof.
  revert st. induction callbacks as [|cb l IH]; intros st Hc Hs Hok Hnp; cbn [fold_left].
  - exact Hs.
  - inversion Hok as [|? ? Hcb Hl]; subst. inversion Hnp as [|? ? Hp Hnl]; subst.
    destruct (runFrameCallback_core st cb Hc Hcb) as (H1 & H2 & _).
    apply IH; auto.
Qed.

Lemma handleKeyDown_core key c st :
  core st -> core (handleKeyDown key c st)
             /\ (settled st -> settled (handleKeyDown key c st))
             /\ frames (handleKeyDown key c st) = frames st.
Proof.
  intros Hc. unfold handleKeyDown.
  repeat match goal with
         | |- context [if ?b then _ else _] => destruct b
         end; auto.
  - apply handleZoomIn_core, Hc.
  - destruct (handleZoomOut_core st Hc) as (H1 & H2 & H3). auto.
  - destruct (handleReset_core st Hc) as (H1 & H2 & H3). auto.
Qed.

Lemma handleWheel_core e r st :
  core st -> core (handleWheel e r st)
             /\ (settled st -> settled (handleWheel e r st))
             /\ frames (handleWheel e r st) = frames st.
Proof.
  intros Hc. pose proof Hc as ((q & Hs & Hq) & Hz & Hd).
  unfold handleWheel. destruct (negb (w_ctrlKey e || w_metaKey e)); [auto|].
  destruct r as [rect|]; [|auto].
  set (a := add (scale st)
              (if gt (Num (deltaY e)) (Num 0) then neg (zoomSpeed st) else zoomSpeed st)).
  assert (Ha : a <> NaN).
  { unfold a. rewrite Hs. apply add_not_NaN.
    destruct (gt (Num (deltaY e)) (Num 0)); [apply neg_not_NaN|]; assumption. }
  destruct (clamp_in_range a Ha) as (r & Er & Hr).
  cbv zeta. fold a. rewrite Er. destruct (le (Num r) (Num 1)) eqn:E.
  - split; [|split; [intros _; apply origin_settled|]; reflexivity].
    split; [exists r; split; [reflexivity|assumption]|].
    split; [discriminate | exact Hd].
  - split; [|split; [intros _; apply (scaleInRange_settled _ r);
                     [reflexivity|exact E]|reflexivity]].
    split; [exists r; split; [reflexivity|assumption]|].
    split; [discriminate | exact Hd].
Qed.

Lemma onDoubleClick_core cx cy r st :
  core st -> core (onDoubleClick cx cy r st)
             /\ (settled st -> settled (onDoubleClick cx cy r st))
             /\ frames (onDoubleClick cx cy r st) = frames st.
Proof.
  intros Hc. pose proof Hc as (_ & Hz & Hd).
  unfold onDoubleClick. destruct r as [rect|]; [|auto].
  destruct (eq (scale st) (Num 1)).
  - split; [|split; [intros _; apply (scaleInRange_settled _ 2); reflexivity|reflexivity]].
    split; [exists 2; split; [reflexivity|lra]|]. split; assumption.
  - destruct (handleReset_core st Hc) as (H1 & H2 & H3). auto.
Qed.

Lemma step_invariant hypot st op :
  invariant st -> degenerate hypot st op = false -> invariant (step hypot st op).
Proof.
  intros (Hc & Hf) Hok. pose proof Hc as (Hs & Hz & Hd).
  destruct op as [| | |k c|e r| cx cy|cx cy| |ts|ts r|ts|cx cy r|]; cbn [step].
  - destruct (handleZoomIn_core st Hc) as (H1 & _ & H3). split; [exact H1|congruence].
  - destruct (handleZoomOut_core st Hc) as (H1 & _ & H3). split; [exact H1|congruence].
  - destruct (handleReset_core st Hc) as (H1 & _ & H3). split; [exact H1|congruence].
  - destruct (handleKeyDown_core k c st Hc) as (H1 & _ & H3). split; [exact H1|congruence].
  - destruct (handleWheel_core e r st Hc) as (H1 & _ & H3). split; [exact H1|congruence].
  - unfold handleImageMouseDown.
    destruct (isDragging st || le (scale st) (Num 1)); split; assumption.
  - unfold handleImageMouseMove.
    destruct (negb (isDragging st) || le (scale st) (Num 1)); split; assumption.
  - split; assumption.
  - unfold onTouchStart. destruct ts as [|t1 [|t2 [|t3 ts]]]; try (split; assumption).
    + destruct (gt (scale st) (Num 1)); split; assumption.
    + split; [|exact Hf]. split; [exact Hs|]. split; [exact Hz|].
      eexists. reflexivity.
  - unfold onTouchMove. destruct ts as [|t1 [|t2 [|t3 ts]]]; try (split; assumption).
    + destruct (gt (scale st) (Num 1) && isDragging st); [|split; assumption].
      split; [exact Hc|]. cbn. apply Forall_app. split; [exact Hf|].
      constructor; [exact I|constructor].
    + destruct r as [rect|]; [|split; assumption].
      cbn [degenerate] in Hok. cbv zeta. split; [exact Hc|].
      unfold requestAnimationFrame.
      cbn [frames set_frames set_wasDragging lastTouchDistance scale].
      apply Forall_app. split; [exact Hf|].
      constructor; [|constructor]. cbn [frameOk]. split; [exact Hs|]. split.
      * destruct (div (touchDistance hypot t1 t2) (lastTouchDistance st));
          congruence.
      * eexists. reflexivity.
  - unfold onTouchEnd. destruct ts as [|t1 [|t2 ts]]; split; assumption.
  - destruct (onDoubleClick_core cx cy r st Hc) as (H1 & _ & H3).
    split; [exact H1|congruence].
  - unfold animationFrame.
    destruct (frames_core (frames st) (set_frames [] st) Hc Hf) as (H1 & H3).
    split; [exact H1|]. rewrite H3. constructor.
Qed.

(** The viewer keeps its invariant along every run that has no
    degenerate pinch move. *)
Lemma run_invariant hypot ops st :
  invariant st -> wellFormed hypot ops st = true -> invariant (run hypot ops st).
Proof.
  unfold run. revert st.
  induction ops as [|op ops IH]; intros st Inv Hw; cbn [fold_left]; [assumption|].
  cbn in Hw. apply andb_true_iff in Hw as [Hd Hw].
  apply IH; [|assumption]. apply step_invariant; [assumption|].
  destruct (degenerate hypot st op); [discriminate|reflexivity].
Qed.

(** Without one-finger touch moves no pan frame is ever requested, and
    the translation stays settled. *)
Lemma step_settled hypot st op :
  invariant st -> settled st -> Forall (fun cb => isPanFrame cb = false) (frames st) ->
  touchPan op = false ->
  settled (step hypot st op)
  /\ Forall (fun cb => isPanFrame cb = false) (frames (step hypot st op)).
Proof.
  intros (Hc & Hf) Hset Hnp Hop. pose proof Hc as (Hs & Hz & Hd).
  destruct op as [| | |k c|e r| cx cy|cx cy| |ts|ts r|ts|cx cy r|]; cbn [step].
  - destruct (handleZoomIn_core st Hc) as (_ & H2 & H3). rewrite H3. auto.
  - destruct (handleZoomOut_core st Hc) as (_ & H2 & H3). rewrite H3. auto.
  - destruct (handleReset_core st Hc) as (_ & H2 & H3). rewrite H3. auto.
  - destruct (handleKeyDown_core k c st Hc) as (_ & H2 & H3). rewrite H3. auto.
  - destruct (handleWheel_core e r st Hc) as (_ & H2 & H3). rewrite H3. auto.
  - unfold handleImageMouseDown.
    destruct (isDragging st || le (scale st) (Num 1)); auto.
  - unfold handleImageMouseMove.
    destruct (isDragging st); cbn [negb orb]; [|auto].
    destruct (le (scale st) (Num 1)) eqn:E; [auto|].
    split; [|exact Hnp]. destruct Hs as (q & Hq & _).
    apply (scaleInRange_settled _ q); [exact Hq|]. rewrite Hq in E. exact E.
  - auto.
  - unfold onTouchStart. destruct ts as [|t1 [|t2 [|t3 ts]]]; auto.
    destruct (gt (scale st) (Num 1)); auto.
  - unfold onTouchMove. destruct ts as [|t1 [|t2 [|t3 ts]]]; auto; [discriminate|].
    destruct r as [rect|]; [|auto]. cbv zeta. split; [exact Hset|].
    cbn. apply Forall_app. split; [exact Hnp|]. constructor; [reflexivity|constructor].
  - unfold onTouchEnd. destruct ts as [|t1 [|t2 ts]]; auto.
  - destruct (onDoubleClick_core cx cy r st Hc) as (_ & H2 & H3). rewrite H3. auto.
  - unfold animationFrame.
    destruct (frames_core (frames st) (set_frames [] st) Hc Hf) as (_ & H3).
    rewrite H3. split; [|constructor].
    apply frames_settled; assumption.
Qed.

Lemma run_settled hypot ops st :
  invariant st -> settled st -> Forall (fun cb => isPanFrame cb = false) (frames st) ->
  wellFormed hypot ops st = true -> forallb (fun op => negb (touchPan op)) ops = true ->
  settled (run hypot ops st).
Proof.
  unfold run. revert st.
  induction ops as [|op ops IH]; intros st Inv Hs Hnp Hw Hops; cbn [fold_left];
    [assumption|].
  cbn in Hw, Hops. apply andb_true_iff in Hw as [Hd Hw].
  apply andb_true_iff in Hops as [Hop Hops].
  assert (Hd' : degenerate hypot st op = false)
    by (destruct (degenerate hypot st op); [discriminate|reflexivity]).
  assert (Hop' : touchPan op = false)
    by (destruct (touchPan op); [discriminate|reflexivity]).
  destruct (step_settled hypot st op Inv Hs Hnp Hop') as (H1 & H2).
  apply IH; auto using step_invariant.
Qed.

(** C3, at a pinch whose two touch points coincide in the start and in
    the move that follows: the stored distance and the current distance
    are both zero, their ratio is [NaN], and so is the scale the
    animation frame of the move sets; it is not within
    [[MIN_SCALE, MAX_SCALE]]. *)
Theorem coincident_pinch_sets_scale_NaN hypot touch rect :
  (forall a b, a == 0 -> b == 0 -> hypot a b == 0) ->
  let st := run hypot [TouchStart [touch; touch];
                       TouchMove [touch; touch] (Some rect);
                       AnimationFrame] init in
  scale st = NaN
  /\ le MIN_SCALE (scale st) = false
  /\ le (scale st) MAX_SCALE = false.
Proof.
  intros Hh st.
  assert (E : scale st = NaN).
  { unfold st, run. cbn [fold_left step onTouchStart onTouchMove].
    cbn [lastTouchDistance set_lastTouchDistance set_wasDragging setIsDragging scale].
    unfold touchDistance.
    set (h := hypot (t_clientX touch - t_clientX touch)
                    (t_clientY touch - t_clientY touch)).
    assert (Hz : (h ?= 0) = Eq).
    { apply Qeq_alt. apply Hh; ring. }
    unfold animationFrame, requestAnimationFrame.
    cbn [frames set_frames app fold_left runFrameCallback].
    unfold div, Qsign. rewrite Hz. reflexivity. }
  rewrite E. repeat split.
Qed.

Lemma onTouchMove_isDragging hypot ts r st :
  isDragging (onTouchMove hypot ts r st) = isDragging st.
Proof.
  unfold onTouchMove. destruct ts as [|t1 [|t2 [|t3 ts]]]; try reflexivity.
  - destruct (gt (scale st) (Num 1) && isDragging st); reflexivity.
  - destruct r as [rect|]; reflexivity.
Qed.

Lemma runFrameCallback_isDragging st callback :
  isDragging (runFrameCallback st callback) = isDragging st.
Proof.
  destruct callback; cbn [runFrameCallback]; [reflexivity|]. cbv zeta.
  match goal with |- context [if ?b then _ else _] => destruct b end; reflexivity.
Qed.

Lemma animationFrame_isDragging st : isDragging (animationFrame st) = isDragging st.
Proof.
  unfold animationFrame.
  change (isDragging st) with (isDragging (set_frames [] st)).
  generalize (set_frames [] st). induction (frames st) as [|cb l IH]; intros s.
  - reflexivity.
  - cbn [fold_left]. rewrite IH. apply runFrameCallback_isDragging.
Qed.

(** After a touch end that leaves one touch point the drag origin is
    that point minus the translation at that moment, and [isDragging],
    the translation and the scale are as they were.  If no frame was
    pending at the touch end and the scale is above 1, a one-finger move
    at that same point followed by its frame gives the translation back
    (no jump).  [onTouchEnd] clears [isDragging] exactly when no touch
    point remains; [onTouchMove], [onTouchStart] and the frames never
    clear it. *)
Lemma touch_end_rebases_drag hypot remaining st :
  let st' := onTouchEnd [remaining] st in
  isDragging st' = isDragging st
  /\ dragStart st' = {| x := sub (Num (t_clientX remaining)) (x (position st));
                        y := sub (Num (t_clientY remaining)) (y (position st)) |}
  /\ position st' = position st
  /\ scale st' = scale st
  /\ (forall rect px py,
        frames st = [] -> isDragging st = true ->
        position st = {| x := Num px; y := Num py |} ->
        gt (scale st) (Num 1) = true ->
        let st'' := animationFrame (onTouchMove hypot [remaining] rect st') in
        same (x (position st'')) (Num px) /\ same (y (position st'')) (Num py))
  /\ (forall touches s,
        isDragging (onTouchEnd touches s)
        = match touches with [] => false | _ => isDragging s end)
  /\ (forall touches rect s,
        isDragging (onTouchMove hypot touches rect s) = isDragging s)
  /\ (forall s, isDragging (animationFrame s) = isDragging s)
  /\ (forall touches s,
        isDragging s = true -> isDragging (onTouchStart hypot touches s) = true).
Proof.
  intros st'.
  split; [reflexivity|].
  split; [reflexivity|]. split; [reflexivity|]. split; [reflexivity|].
  split.
  - intros rect px py Hfr Hdrag Hpos Hscale st''.
    assert (M : position st''
                = {| x := sub (Num (t_clientX remaining))
                              (sub (Num (t_clientX remaining)) (Num px));
                     y := sub (Num (t_clientY remaining))
                              (sub (Num (t_clientY remaining)) (Num py)) |}).
    { unfold st'', st', onTouchEnd, onTouchMove.
      cbn [scale set_dragStart isDragging dragStart].
      rewrite Hscale, Hdrag. cbn [andb].
      unfold animationFrame, requestAnimationFrame.
      cbn [frames set_frames set_wasDragging set_dragStart].
      rewrite Hfr. cbn [app fold_left runFrameCallback]. cbn. rewrite Hpos. reflexivity. }
    rewrite M. cbn. split; ring.
  - split; [intros touches s; destruct touches as [|t1 [|t2 ts]]; reflexivity|].
    split; [intros; apply onTouchMove_isDragging|].
    split; [apply animationFrame_isDragging|].
    intros touches s Hs. unfold onTouchStart.
    destruct touches as [|t1 [|t2 [|t3 ts]]]; try assumption; [|reflexivity].
    destruct (gt (scale s) (Num 1)); [reflexivity|assumption].
Qed.

End ViewerFacts.

Section ViewerRuns.
Import Js ImageViewer Samples.
Local Open Scope Q_scope.

Lemma taxicab_zero a b : a == 0 -> b == 0 -> taxicab a b == 0.
Proof. intros Ha Hb. unfold taxicab. rewrite Ha, Hb. reflexivity. Qed.

Lemma getZoomedOffset_round_trip_witness :
  ~ 1 == 0 /\ ~ 2 == 0
  /\ same (x (getZoomedOffset (Num 30) (Num 40) (Num 2) (Num 1)
                (getZoomedOffset (Num 30) (Num 40) (Num 1) (Num 2)
                   {| x := Num 5; y := Num 7 |})))
          (Num 5).
Proof.
  split; [discriminate|]. split; [discriminate|].
  apply (getZoomedOffset_round_trip 30 40 1 2 5 7); discriminate.
Defined.

Lemma coincident_pinch_sets_scale_NaN_witness :
  (forall a b, a == 0 -> b == 0 -> taxicab a b == 0)
  /\ scale (run taxicab [TouchStart [finger 100 100; finger 100 100];
                         TouchMove [finger 100 100; finger 100 100] (Some viewport);
                         AnimationFrame]
               init) = NaN.
Proof.
  split; [exact taxicab_zero|].
  apply (coincident_pinch_sets_scale_NaN taxicab (finger 100 100) viewport taxicab_zero).
Defined.

(** A pinch from distance 100 to distance 190 whose frame has run
    before one finger lifts: the finger that stays does not move the
    image. *)
Lemma touch_end_after_frame :
  let st := run taxicab
              [TouchStart [finger 300 300; finger 400 300];
               TouchMove [finger 310 300; finger 500 300] (Some viewport);
               AnimationFrame]
              init in
  frames st = [] /\ isDragging st = true
  /\ position st = {| x := Num (-7200 # 1600); y := Num (0 # 1600) |}
  /\ gt (scale st) (Num 1) = true
  /\ same (x (position (animationFrame
                          (onTouchMove taxicab [finger 310 300] (Some viewport)
                             (onTouchEnd [finger 310 300] st)))))
          (Num (-7200 # 1600)).
Proof.
  cbv zeta.
  pose proof (touch_end_rebases_drag taxicab (finger 310 300)
                (run taxicab
                   [TouchStart [finger 300 300; finger 400 300];
                    TouchMove [finger 310 300; finger 500 300] (Some viewport);
                    AnimationFrame]
                   init))
    as (_ & _ & _ & _ & H5 & _).
  assert (Hf : frames
                 (run taxicab
                    [TouchStart [finger 300 300; finger 400 300];
                     TouchMove [finger 310 300; finger 500 300] (Some viewport);
                     AnimationFrame]
                    init) = [])
    by (vm_compute; reflexivity).
  assert (Hd : isDragging
                 (run taxicab
                    [TouchStart [finger 300 300; finger 400 300];
                     TouchMove [finger 310 300; finger 500 300] (Some viewport);
                     AnimationFrame]
                    init) = true)
    by (vm_compute; reflexivity).
  assert (Hp : position
                 (run taxicab
                    [TouchStart [finger 300 300; finger 400 300];
                     TouchMove [finger 310 300; finger 500 300] (Some viewport);
                     AnimationFrame]
                    init)
               = {| x := Num (-7200 # 1600); y := Num (0 # 1600) |})
    by (vm_compute; reflexivity).
  assert (Hs : gt (scale
                     (run taxicab
                        [TouchStart [finger 300 300; finger 400 300];
                         TouchMove [finger 310 300; finger 500 300] (Some viewport);
                         AnimationFrame]
                        init)) (Num 1) = true)
    by (vm_compute; reflexivity).
  split; [exact Hf|]. split; [exact Hd|]. split; [exact Hp|]. split; [exact Hs|].
  exact (proj1 (H5 (Some viewport) (-7200 # 1600) (0 # 1600) Hf Hd Hp Hs)).
Qed.

(** C10, at a touch end that arrives before the frame of the last pinch
    move has run.  Two fingers at (300, 300) and (400, 300) move to
    (310, 300) and (500, 300), the second finger lifts, and then the
    frame runs: the pinch frame moves the translation to (-4.5, 0) at
    scale 1.9, but the drag origin was taken from the translation
    (0, 0) the touch end still saw.  The remaining finger then reports
    a move without having moved, and its frame puts the translation back
    to (0, 0): the image jumps by 4.5.  The touch points lie on one
    horizontal line, where [Math.hypot] is the absolute difference that
    [taxicab] computes. *)
Theorem touch_end_before_frame_jumps :
  let pinched := run taxicab
                   [TouchStart [finger 300 300; finger 400 300];
                    TouchMove [finger 310 300; finger 500 300] (Some viewport);
                    TouchEnd [finger 310 300];
                    AnimationFrame]
                   init in
  let panned := run taxicab
                  [TouchMove [finger 310 300] (Some viewport); AnimationFrame]
                  pinched in
  isDragging pinched = true
  /\ same (scale pinched) (Num (19 # 10))
  /\ same (x (position pinched)) (Num (-9 # 2))
  /\ same (y (position pinched)) (Num 0)
  /\ same (x (dragStart pinched)) (Num 310)
  /\ same (y (dragStart pinched)) (Num 300)
  /\ scale panned = scale pinched
  /\ same (x (position panned)) (Num 0)
  /\ same (y (position panned)) (Num 0)
  /\ ~ same (x (position panned)) (x (position pinched)).
Proof. vm_compute. repeat split; discriminate. Qed.

(** A pan frame requested at a scale above 1 runs after a pinch frame
    that brought the scale to 0.8: the image ends at scale 0.8 with a
    translation that is not the origin. *)
Example pan_frame_after_pinch_frame :
  let st := run taxicab
              [ZoomIn; ZoomIn; ZoomIn; ZoomIn; ZoomIn;
               TouchStart [finger 300 300; finger 400 300];
               TouchMove [finger 300 300; finger 350 300] (Some viewport);
               TouchEnd [finger 300 300];
               TouchMove [finger 330 310] (Some viewport);
               AnimationFrame]
              init in
  wellFormed taxicab
    [ZoomIn; ZoomIn; ZoomIn; ZoomIn; ZoomIn;
     TouchStart [finger 300 300; finger 400 300];
     TouchMove [finger 300 300; finger 350 300] (Some viewport);
     TouchEnd [finger 300 300];
     TouchMove [finger 330 310] (Some viewport);
     AnimationFrame] init = true
  /\ same (scale st) (Num (3 # 4))
  /\ same (x (position st)) (Num 30) /\ same (y (position st)) (Num 10).
Proof. vm_compute. repeat split. Qed.

(** Ctrl + wheel up at the centre of the container, from the initial
    state: the scale grows by one step and the translation stays put. *)
Example wheel_at_centre :
  let st := handleWheel {| w_ctrlKey := true; w_metaKey := false; deltaY := -100;
                           w_clientX := 400; w_clientY := 300 |}
              (Some viewport) init in
  same (scale st) (Num (11 # 10))
  /\ same (x (position st)) (Num 0) /\ same (y (position st)) (Num 0).
Proof. vm_compute. repeat split. Qed.

(** A pinch from distance 100 to distance 150 at scale 1. *)
Example pinch_by_half :
  same (scale (run taxicab [TouchStart [finger 300 300; finger 400 300];
                            TouchMove [finger 300 300; finger 450 300] (Some viewport);
                            AnimationFrame]
                  init))
       (Num (3 # 2)).
Proof. vm_compute. reflexivity. Qed.

End ViewerRuns.

(** * Further properties of the click handlers *)

Section ClickExtras.
Import Dom IframeEvents.
Local Open Scope Z_scope.

Variable T : Z.   (* DOUBLE_CLICK_INTERVAL_THRESHOLD_MS *)
Variable L : Z.   (* LONG_HOLD_THRESHOLD *)

Lemma runCallback_keyboardState cb now st :
  keyboardState (runCallback T cb now st) = keyboardState st.
Proof.
  destruct cb as [|b e]; cbn; [reflexivity|].
  destruct (T <=? now - lastClickTime st); [|reflexivity].
  pose proof (postSingleClick_frame b e st). tauto.
Qed.

Lemma step_keeps_keyboardState st a :
  is_keyboard a = false -> keyboardState (step T L st a) = keyboardState st.
Proof.
  destruct a as [b e|b e|now b e|b e|now b d e|now h]; cbn; try discriminate;
    intros _; try reflexivity.
  - unfold handleClick.
    destruct (negb d && (now - lastClickTime st <? T)); cbn; [reflexivity|].
    destruct (negb d); cbn; [reflexivity|].
    pose proof (postSingleClick_frame b e (set_lastClickTime now st)). tauto.
  - unfold fire. destruct (timers st !! h) as [[due cb]|]; [|reflexivity].
    destruct (due <=? now); [|reflexivity].
    rewrite runCallback_keyboardState. reflexivity.
Qed.

Lemma run_keeps_keyboardState acts st :
  forallb (fun a => negb (is_keyboard a)) acts = true ->
  keyboardState (run T L acts st) = keyboardState st.
Proof.
  unfold run. revert st.
  induction acts as [|a acts IH]; intros st Hq; cbn [fold_left]; [reflexivity|].
  cbn in Hq. apply andb_true_iff in Hq as [Ha Hq].
  rewrite IH by assumption. apply step_keeps_keyboardState.
  destruct (is_keyboard a); [discriminate|reflexivity].
Qed.

Lemma click_run_app acts1 acts2 st :
  run T L (acts1 ++ acts2) st = run T L acts2 (run T L acts1 st).
Proof. unfold run. apply fold_left_app. Qed.

(** The key status a mouse message carries: key and code are those of
    the latest key-down if no key-up followed it and empty after a
    key-up, whatever other events came in between; the four modifier
    flags are always those of the mouse event itself. *)
Theorem key_status_follows_latest_key pre post b e st b' ev now :
  forallb (fun a => negb (is_keyboard a)) post = true ->
  let down := run T L (pre ++ Keydown b e :: post) st in
  let up := run T L (pre ++ Keyup b e :: post) st in
  posted (handleMousedown L b' ev now down)
  = posted down
    ++ [iframe_mousedown b' (button ev) (geometry ev)
          {| key := ke_key e; code := ke_code e; mods := ev_mods ev |}]
  /\ posted (handleMousedown L b' ev now up)
     = posted up
       ++ [iframe_mousedown b' (button ev) (geometry ev)
             {| key := ""; code := ""; mods := ev_mods ev |}]
  /\ getKeyStatus ev down
     = {| key := ke_key e; code := ke_code e; mods := ev_mods ev |}
  /\ getKeyStatus ev up = {| key := ""; code := ""; mods := ev_mods ev |}.
Proof.
  intros Hq down up.
  assert (Kd : keyboardState down
               = {| key := ke_key e; code := ke_code e; mods := ke_mods e |}).
  { unfold down. rewrite click_run_app.
    change (run T L (Keydown b e :: post) ?s)
      with (run T L post (handleKeydown b e s)).
    rewrite run_keeps_keyboardState by assumption. reflexivity. }
  assert (Ku : keyboardState up = {| key := ""; code := ""; mods := ke_mods e |}).
  { unfold up. rewrite click_run_app.
    change (run T L (Keyup b e :: post) ?s)
      with (run T L post (handleKeyup b e s)).
    rewrite run_keeps_keyboardState by assumption. reflexivity. }
  unfold handleMousedown, getKeyStatus. cbn. rewrite Kd, Ku. repeat split.
Qed.

(** A long-hold expiry does not check which press armed it: when a
    second mouse-down follows a first, the timer of the first, once it
    runs, sets [longHoldTimeout] to null although the timer of the
    second is still pending, and from then on a click that passes the
    exclusion and footnote checks is not posted. *)
Theorem long_hold_expiry_ignores_rearm b1 e1 m1 b2 e2 m2 t st :
  m1 + L <= t ->
  let h1 := nextTimer st in
  let st2 := handleMousedown L b2 e2 m2 (handleMousedown L b1 e1 m1 st) in
  let st3 := fire T t h1 st2 in
  longHoldTimeout st2 = Some (S h1)
  /\ longHoldTimeout st3 = None
  /\ timers st3 !! S h1 = Some (m2 + L, ClearLongHold)
  /\ (forall b e, excluded e = false -> footnoteOf e = None ->
        postSingleClick b e st3 = st3).
Proof.
  intros Hdue h1 st2 st3.
  assert (H1 : timers st2 !! h1 = Some (m1 + L, ClearLongHold)).
  { unfold st2, handleMousedown. cbn. rewrite lookup_insert_ne by lia.
    apply lookup_insert_eq. }
  assert (E3 : st3 = set_longHoldTimeout None (remove_timer h1 st2)).
  { unfold st3, fire. rewrite H1.
    assert ((m1 + L <=? t) = true) as -> by (apply Z.leb_le; lia). reflexivity. }
  split; [reflexivity|].
  split; [rewrite E3; reflexivity|].
  split.
  - rewrite E3. cbn. rewrite lookup_delete_ne by (unfold h1; lia).
    apply lookup_insert_eq.
  - intros b e Hex Hfn. unfold postSingleClick. rewrite Hex, Hfn, E3. reflexivity.
Qed.

(** With [doubleClickDisabled] set on every click, no click is ever
    classified as a double click and no evaluation is deferred: the only
    timers are long-hold timers, and each click is classified in the
    call that delivers it. *)
Theorem disabled_never_double acts :
  forallb click_disabled acts = true ->
  let st := run T L acts init in
  Forall (fun m => kind m <> KDoubleClick) (posted st)
  /\ (forall h due cb, timers st !! h = Some (due, cb) -> cb = ClearLongHold).
Proof.
  intros Hq st. unfold st, run.
  assert (H0 : Forall (fun m => kind m <> KDoubleClick) (posted init)
               /\ (forall h due cb, timers init !! h = Some (due, cb) -> cb = ClearLongHold)).
  { split; [constructor|]. intros h due cb. cbn. rewrite lookup_empty. discriminate. }
  revert H0 Hq. generalize init.
  induction acts as [|a acts IH]; intros s0 [Hp Ht] Hq; cbn [fold_left]; [auto|].
  cbn in Hq. apply andb_true_iff in Hq as [Ha Hq].
  apply IH; [|assumption].
  assert (Post : forall m s, kind m <> KDoubleClick ->
                 Forall (fun m => kind m <> KDoubleClick) (posted s) ->
                 Forall (fun m => kind m <> KDoubleClick) (posted (post m s))).
  { intros m s Hm Hs. cbn. apply Forall_app. split; [assumption|].
    constructor; [assumption|constructor]. }
  assert (Single : forall b e s,
             Forall (fun m => kind m <> KDoubleClick) (posted s) ->
             Forall (fun m => kind m <> KDoubleClick) (posted (postSingleClick b e s))).
  { intros b e s Hs. unfold postSingleClick.
    destruct (excluded e); [assumption|].
    destruct (footnoteOf e); [apply Post; [discriminate|assumption]|].
    destruct (longHoldTimeout s); [apply Post; [discriminate|assumption]|assumption]. }
  destruct a as [b e|b e|now b e|b e|now b d e|now h]; cbn [step].
  - split; [apply Post; [discriminate|assumption] | exact Ht].
  - split; [apply Post; [discriminate|assumption] | exact Ht].
  - split; [apply Post; [discriminate|assumption] |].
    intros h due cb. cbn. destruct (decide (nextTimer s0 = h)) as [<-|Hne].
    + rewrite lookup_insert_eq. congruence.
    + rewrite lookup_insert_ne by assumption. apply Ht.
  - split; [apply Post; [discriminate|assumption] | exact Ht].
  - cbn in Ha. subst d. unfold handleClick. cbn [negb andb]. split.
    + apply Single. assumption.
    + pose proof (postSingleClick_frame b e (set_lastClickTime now s0))
        as (_ & _ & _ & -> & _). exact Ht.
  - unfold fire. destruct (timers s0 !! h) as [[due cb]|] eqn:E; [|auto].
    destruct (due <=? now); [|auto].
    rewrite (Ht h due cb E). cbn. split; [assumption|].
    intros h' due' cb'. destruct (decide (h = h')) as [->|Hne].
    + rewrite lookup_delete_eq. discriminate.
    + rewrite lookup_delete_ne by assumption. apply Ht.
Qed.

Lemma closest_from_weaken (p q : Element -> bool) e anc x :
  (forall e', p e' = true -> q e' = true) ->
  closest_from p e anc = Some x ->
  exists y, closest_from q e anc = Some y.
Proof.
  intros Hpq. revert e. induction anc as [|a anc IH]; intros e; cbn.
  - destruct (p e) eqn:Ep; [|discriminate]. rewrite (Hpq e Ep). eauto.
  - destruct (q e) eqn:Eq; [eauto|].
    destruct (p e) eqn:Ep; [rewrite (Hpq e Ep) in Eq; discriminate|].
    apply IH.
Qed.

(** A click in a footnote anchor without [href] ([a.duokan-footnote])
    always opens the footnote popup: it passes the exclusion of links,
    it is never posted as a single click, and the popup is posted
    whether or not a long-hold timer is armed. *)
Theorem bare_duokan_anchor_opens_footnote b event element anchor st :
  target event = Some element ->
  closest sel_bare_duokan element = Some anchor ->
  exists footnote,
    closest sel_footnote element = Some footnote
    /\ postSingleClick b event st
       = post (footnote_popup b footnote (footnoteText event footnote)) st.
Proof.
  intros Ht Ha.
  destruct (closest_from_weaken sel_bare_duokan sel_footnote
              (self element) (ancestors element) anchor) as [f Hf].
  - intros e'. unfold sel_bare_duokan, sel_footnote.
    intros H. apply andb_true_iff in H as [H _]. apply andb_true_iff in H as [_ H].
    rewrite H. apply orb_true_r.
  - exact Ha.
  - exists f. split; [exact Hf|].
    unfold postSingleClick, excluded, footnoteOf. rewrite Ht, Ha.
    fold (closest sel_footnote element) in Hf. rewrite Hf.
    cbn. rewrite andb_false_r. reflexivity.
Qed.

(** *** Every click is classified at most once *)

Lemma pending_insert_other st h x :
  fresh st -> (nextTimer st <= h)%nat -> isDeferred (snd x) = false ->
  size (filter (fun p : nat * (Z * Callback) => isDeferred (snd (snd p)) = true)
               (<[h := x]> (timers st)))
  = pendingClicks st.
Proof.
  intros Hf Hh Hx. unfold pendingClicks.
  rewrite map_filter_insert_not'; [reflexivity| cbn; congruence |].
  intros y Hy. apply Hf in Hy. lia.
Qed.

Lemma pending_insert_deferred st h x :
  fresh st -> (nextTimer st <= h)%nat -> isDeferred (snd x) = true ->
  size (filter (fun p : nat * (Z * Callback) => isDeferred (snd (snd p)) = true)
               (<[h := x]> (timers st)))
  = S (pendingClicks st).
Proof.
  intros Hf Hh Hx. unfold pendingClicks.
  rewrite map_filter_insert_True by exact Hx.
  apply map_size_insert_None. apply map_lookup_filter_None. left.
  destruct (timers st !! h) as [y|] eqn:E; [|reflexivity].
  apply Hf in E. lia.
Qed.

Lemma pending_delete st h due cb :
  timers st !! h = Some (due, cb) ->
  (size (filter (fun p : nat * (Z * Callback) => isDeferred (snd (snd p)) = true)
                (delete h (timers st)))
   + (if isDeferred cb then 1 else 0)
   = pendingClicks st)%nat.
Proof.
  intros Hh. unfold pendingClicks. rewrite map_filter_delete.
  destruct (isDeferred cb) eqn:E.
  - assert (Hin : filter (fun p : nat * (Z * Callback) => isDeferred (snd (snd p)) = true)
                         (timers st) !! h = Some (due, cb)).
    { apply map_lookup_filter_Some. split; [assumption|exact E]. }
    rewrite map_size_delete_Some by (rewrite Hin; eauto).
    assert (Hne : size (filter (fun p : nat * (Z * Callback) =>
                                  isDeferred (snd (snd p)) = true) (timers st)) <> 0%nat).
    { apply (map_size_ne_0_lookup_2 _ h). rewrite Hin. eauto. }
    lia.
  - rewrite map_size_delete_None; [lia|].
    apply map_lookup_filter_None. right. intros y Hy. cbn.
    rewrite Hh in Hy. injection Hy as <-. cbn. congruence.
Qed.

Lemma classified_post m st :
  classified (post m st) = (classified st + (if isClassified m then 1 else 0))%nat.
Proof.
  unfold classified. cbn. rewrite List.filter_app, length_app. cbn.
  destruct (isClassified m); reflexivity.
Qed.

Lemma postSingleClick_classified b e st :
  (classified (postSingleClick b e st) <= S (classified st))%nat.
Proof.
  unfold postSingleClick. destruct (excluded e); [lia|].
  destruct (footnoteOf e); [rewrite classified_post; cbn; lia|].
  destruct (longHoldTimeout st); [rewrite classified_post; cbn; lia | lia].
Qed.

Lemma step_fresh st a : fresh st -> fresh (step T L st a).
Proof.
  intros Hf h x Hh. pose proof (step_nextTimer_le T L st a) as Hle.
  destruct a as [b e|b e|now b e|b e|now b d e|now h']; cbn in Hh.
  - apply Hf in Hh. cbn. assumption.
  - apply Hf in Hh. cbn. assumption.
  - cbn. destruct (decide (nextTimer st = h)) as [<-|Hne]; [lia|].
    rewrite lookup_insert_ne in Hh by assumption. apply Hf in Hh. lia.
  - apply Hf in Hh. cbn. assumption.
  - cbn in Hle |- *. unfold handleClick in Hh, Hle |- *.
    destruct (negb d && (now - lastClickTime st <? T)); cbn in Hh |- *;
      [apply Hf in Hh; assumption|].
    destruct (negb d); cbn in Hh, Hle |- *.
    + destruct (decide (nextTimer st = h)) as [<-|Hne]; [lia|].
      rewrite lookup_insert_ne in Hh by assumption. apply Hf in Hh. lia.
    + pose proof (postSingleClick_frame b e (set_lastClickTime now st))
        as (_ & _ & _ & Et & En).
      rewrite Et in Hh. rewrite En. apply Hf in Hh. assumption.
  - cbn in Hle |- *. unfold fire in Hh, Hle |- *.
    destruct (timers st !! h') as [[due cb]|] eqn:E; [|apply Hf in Hh; assumption].
    destruct (due <=? now); [|apply Hf in Hh; assumption].
    pose proof (runCallback_frame T cb now (remove_timer h' st)) as (Et & En & _).
    rewrite Et in Hh. rewrite En. cbn in Hh |- *.
    destruct (decide (h' = h)) as [->|Hne].
    + rewrite lookup_delete_eq in Hh. discriminate.
    + rewrite lookup_delete_ne in Hh by assumption. apply Hf in Hh. assumption.
Qed.

Lemma pending_eq s s' : timers s = timers s' -> pendingClicks s = pendingClicks s'.
Proof. unfold pendingClicks. intros ->. reflexivity. Qed.

Lemma classified_eq s s' : posted s = posted s' -> classified s = classified s'.
Proof. unfold classified. intros ->. reflexivity. Qed.

Lemma step_classified st a :
  fresh st ->
  (classified (step T L st a) + pendingClicks (step T L st a)
   <= classified st + pendingClicks st + (if is_click a then 1 else 0))%nat.
Proof.
  intros Hf.
  destruct a as [b e|b e|now b e|b e|now b d e|now h]; cbn [step is_click].
  - unfold handleKeydown. rewrite classified_post.
    change (isClassified (iframe_keydown _ _)) with false.
    rewrite (classified_eq (set_keyboardState _ st) st eq_refl),
      (pending_eq (post _ (set_keyboardState _ st)) st eq_refl). lia.
  - unfold handleKeyup. rewrite classified_post.
    change (isClassified (iframe_keyup _ _)) with false.
    rewrite (classified_eq (set_keyboardState _ st) st eq_refl),
      (pending_eq (post _ (set_keyboardState _ st)) st eq_refl). lia.
  - unfold handleMousedown. rewrite classified_post.
    change (isClassified (iframe_mousedown _ _ _ _)) with false.
    rewrite (classified_eq (set_longHoldTimeout _ (setTimeout _ _ _ st)) st eq_refl).
    unfold pendingClicks at 1. cbn [timers post set_longHoldTimeout setTimeout].
    rewrite (pending_insert_other st) by (auto; reflexivity). lia.
  - unfold handleMouseup. rewrite classified_post.
    change (isClassified (iframe_mouseup _ _ _ _)) with false.
    rewrite (pending_eq (post _ st) st eq_refl). lia.
  - unfold handleClick.
    destruct (negb d && (now - lastClickTime st <? T)).
    + rewrite classified_post.
      change (isClassified (iframe_double_click _ _ _)) with true.
      rewrite (classified_eq (set_lastClickTime _ st) st eq_refl),
        (pending_eq (post _ (set_lastClickTime _ st)) st eq_refl). lia.
    + destruct (negb d).
      * rewrite (classified_eq (setTimeout _ _ _ (set_lastClickTime _ st)) st eq_refl).
        unfold pendingClicks at 1. cbn [timers setTimeout set_lastClickTime].
        rewrite (pending_insert_deferred st) by (auto; reflexivity). lia.
      * pose proof (postSingleClick_classified b e (set_lastClickTime now st)) as Hc.
        pose proof (postSingleClick_frame b e (set_lastClickTime now st))
          as (_ & _ & _ & Et & _).
        rewrite (pending_eq (postSingleClick b e (set_lastClickTime now st)) st Et).
        rewrite (classified_eq (set_lastClickTime now st) st eq_refl) in Hc. lia.
  - unfold fire. destruct (timers st !! h) as [[due cb]|] eqn:E; [|lia].
    destruct (due <=? now); [|lia].
    pose proof (pending_delete st h due cb E) as Hd.
    change (size _) with (pendingClicks (remove_timer h st)) in Hd.
    destruct cb as [|b e]; cbn [runCallback isDeferred] in *.
    + rewrite (classified_eq (set_longHoldTimeout None (remove_timer h st)) st eq_refl).
      rewrite (pending_eq (set_longHoldTimeout None (remove_timer h st))
                 (remove_timer h st) eq_refl). lia.
    + destruct (T <=? now - lastClickTime (remove_timer h st)).
      * pose proof (postSingleClick_classified b e (remove_timer h st)) as Hc.
        pose proof (postSingleClick_frame b e (remove_timer h st))
          as (_ & _ & _ & Et & _).
        rewrite (pending_eq (postSingleClick b e (remove_timer h st)) _ Et).
        rewrite (classified_eq (remove_timer h st) st eq_refl) in Hc. lia.
      * rewrite (classified_eq (remove_timer h st) st eq_refl). lia.
Qed.

(** Every click is classified at most once: in any run, the number of
    single-click, double-click and footnote messages posted so far plus
    the number of clicks whose evaluation is still pending never exceeds
    the number of clicks delivered. *)
Theorem classified_at_most_once acts :
  (classified (run T L acts init) + pendingClicks (run T L acts init)
   <= clicks acts)%nat.
Proof.
  assert (G : forall st, fresh st ->
              (classified (run T L acts st) + pendingClicks (run T L acts st)
               <= classified st + pendingClicks st + clicks acts)%nat).
  { unfold run. induction acts as [|a acts IH]; intros st Hf; cbn [fold_left].
    - unfold clicks. cbn. lia.
    - specialize (IH (step T L st a) (step_fresh st a Hf)).
      pose proof (step_classified st a Hf) as Hs.
      unfold clicks in *. cbn [List.filter]. destruct (is_click a); cbn [length] in *; lia. }
  specialize (G init). unfold classified at 2, pendingClicks at 2 in G. cbn in G.
  rewrite map_filter_empty, map_size_empty in G. apply G.
  intros h x. cbn. rewrite lookup_empty. discriminate.
Qed.

End ClickExtras.

(** * Further properties of the long-press tracker *)

Section LongPressExtras.
Import Dom LongPress.
Local Open Scope Z_scope.
#[local] Set Warnings "-clear-no-such-hyp".

Variable bookKey : string.

Lemma owned_release k st :
  owned st ->
  owned (set_pressStartPositions (delete k (pressStartPositions st))
           (set_pressTimers (delete k (pressTimers st))
              (clearTimeout (pressTimers st !! k) st))).
Proof.
  intros Ho h due event el Hh. cbn in Hh |- *.
  assert (Hh' : timers (clearTimeout (pressTimers st !! k) st) !! h
                = Some (due, (event, el))).
  { destruct (pressTimers st !! k); exact Hh. }
  apply lookup_clearTimeout in Hh' as [Hst Hne].
  pose proof (Ho h due event el Hst) as Hk.
  assert (k <> eid (self el)) by congruence.
  destruct (pressTimers st !! k); cbn; rewrite lookup_delete_ne; assumption.
Qed.

Lemma listener_owned type event now st :
  owned st -> owned (listenerOf type event now st).
Proof.
  intros Ho.
  assert (Hs : owned (startPress event now st)).
  { unfold startPress. destruct (elementToTrack (targetOf event)) as [el|]; [|assumption].
    set (k := eid (self el)).
    set (st1 := match event with
                | MouseEv _ cx cy => _
                | TouchEv _ (touch :: _) => _
                | TouchEv _ [] => st
                end).
    assert (H1 : owned st1).
    { unfold st1. destruct event as [t cx cy|t [|touch ts]]; exact Ho. }
    cbn zeta. intros h due event' el' Hh. cbn in Hh |- *.
    assert (Hn : nextTimer (clearTimeout (pressTimers st1 !! k) st1) = nextTimer st1)
      by (destruct (pressTimers st1 !! k); reflexivity).
    assert (Hp : pressTimers (clearTimeout (pressTimers st1 !! k) st1) = pressTimers st1)
      by (destruct (pressTimers st1 !! k); reflexivity).
    rewrite Hn in Hh. rewrite Hn, Hp.
    destruct (decide (nextTimer st1 = h)) as [<-|Hne].
    - rewrite lookup_insert_eq in Hh. injection Hh as _ _ <-. apply lookup_insert_eq.
    - rewrite lookup_insert_ne in Hh by assumption.
      apply lookup_clearTimeout in Hh as [Hst Hno].
      pose proof (H1 h due event' el' Hst) as Hk.
      assert (k <> eid (self el')) by congruence.
      rewrite lookup_insert_ne by assumption. exact Hk. }
  assert (Hx : owned (cancelPress event st)).
  { unfold cancelPress. destruct (elementToTrack (targetOf event)) as [el|]; [|assumption].
    rewrite release_eq. apply owned_release, Ho. }
  assert (Hm : owned (handleMove event st)).
  { unfold handleMove. destruct (elementToTrack (targetOf event)) as [el|]; [|assumption].
    destruct (pressStartPositions st !! eid (self el)) as [p|]; [|assumption].
    destruct (movedBeyond p (currentPosition event)); [|assumption].
    rewrite release_eq. apply owned_release, Ho. }
  destruct type; assumption.
Qed.

Lemma owned_shrink st st' :
  owned st -> pressTimers st' = pressTimers st ->
  (forall h x, timers st' !! h = Some x -> timers st !! h = Some x) ->
  owned st'.
Proof.
  intros Ho Hp Hsub h due event el Hh. rewrite Hp. apply (Ho h due event el).
  apply Hsub. exact Hh.
Qed.

Lemma step_owned st a : owned st -> owned (step bookKey st a).
Proof.
  intros Ho. destruct a as [now type event|b doc|now h sel|]; cbn [step].
  - apply dispatch_keeps; [|assumption]. intros s. apply listener_owned.
  - unfold onMutations. destruct (observing st && b); [|assumption].
    pose proof (processElements_frame doc st) as (Hp & _ & Ht & _).
    apply (owned_shrink st); [assumption..|]. rewrite Ht. auto.
  - unfold fire. destruct (timers st !! h) as [[due [event el]]|]; [|assumption].
    destruct (due <=? now); [|assumption].
    pose proof (handleLongPress_frame bookKey sel el (set_timers (delete h (timers st)) st))
      as (Hp & _ & Ht & _).
    apply (owned_shrink st); [assumption..|]. rewrite Ht. cbn.
    intros h' x. destruct (decide (h = h')) as [->|Hne].
    + rewrite lookup_delete_eq. discriminate.
    + rewrite lookup_delete_ne by assumption. auto.
  - pose proof (teardown_frame st) as (Hp & _).
    apply (owned_shrink st); [assumption..|].
    intros h x. rewrite teardown_lookup. destruct (bool_decide _); [discriminate|auto].
Qed.

Lemma run_owned acts doc : owned (run bookKey acts (addLongPressListeners doc)).
Proof.
  assert (H0 : owned (addLongPressListeners doc)).
  { intros h due event el. unfold addLongPressListeners. cbn.
    pose proof (processElements_frame doc
                  {| pressTimers := ∅; pressStartPositions := ∅; timers := ∅;
                     nextTimer := 1; observing := false; marked := ∅; posted := [] |})
      as (_ & _ & -> & _).
    cbn. rewrite lookup_empty. discriminate. }
  unfold run. revert H0. generalize (addLongPressListeners doc).
  induction acts as [|a acts IH]; intros st Hi; cbn [fold_left]; [assumption|].
  apply IH, step_owned, Hi.
Qed.

(** At most one long-press timer is pending per element: in every state
    the tracker reaches, two pending timers armed for the same element
    are the same timer, and it is the one recorded for the element. *)
Theorem one_timer_per_element doc acts h1 h2 d1 d2 ev1 ev2 el1 el2 :
  let st := run bookKey acts (addLongPressListeners doc) in
  timers st !! h1 = Some (d1, (ev1, el1)) ->
  timers st !! h2 = Some (d2, (ev2, el2)) ->
  eid (self el1) = eid (self el2) ->
  h1 = h2 /\ pressTimers st !! eid (self el1) = Some h1.
Proof.
  intros st H1 H2 He.
  pose proof (run_owned acts doc h1 d1 ev1 el1 H1) as K1.
  pose proof (run_owned acts doc h2 d2 ev2 el2 H2) as K2.
  fold st in K1, K2. rewrite <- He in K2. split; [congruence|assumption].
Qed.

Lemma closest_from_sat sel e anc x :
  closest_from sel e anc = Some x -> sel (self x) = true.
Proof.
  revert e. induction anc as [|a anc IH]; intros e; cbn.
  - destruct (sel e) eqn:E; [|discriminate]. intros [= <-]. exact E.
  - destruct (sel e) eqn:E; [intros [= <-]; exact E|]. apply IH.
Qed.

Lemma isTable_sel target : isTable target = sel_table (self target).
Proof. unfold isTable, sel_table, hasLocalName. cbn. rewrite orb_false_r. reflexivity. Qed.

(** The element the listeners track is an image or a table. *)
Lemma elementToTrack_kind target el :
  elementToTrack target = Some el ->
  isImage el = true \/ (isImage el = false /\ isTable el = true).
Proof.
  unfold elementToTrack.
  destruct (isImage target) eqn:Ei; cbn [negb andb].
  - intros [= <-]. left. exact Ei.
  - destruct (isTableOrInTable target); cbn [negb]; [|discriminate].
    destruct (isTable target) eqn:Et.
    + intros [= <-]. right. split; assumption.
    + intros Hc. apply closest_from_sat in Hc. rewrite <- isTable_sel in Hc.
      right. split; [|exact Hc].
      unfold isTable in Hc. apply String.eqb_eq in Hc. unfold isImage. rewrite Hc.
      reflexivity.
Qed.

(** A press held for the long-press duration posts exactly one long
    press: after a press-start on a qualifying target, the timer it arms
    is due 500 later; run then, with no text selected, it posts the
    [src] of the image or the [outerHTML] of the enclosing table, and it
    never runs a second time. *)
Theorem held_press_fires_once event now st el t selection t' selection' :
  elementToTrack (targetOf event) = Some el ->
  selection = None \/ selection = Some ""%string ->
  now + 500 <= t ->
  let h := nextTimer st in
  let st1 := startPress event now st in
  let st2 := fire bookKey t h selection st1 in
  timers st1 !! h = Some (now + 500, (event, el))
  /\ posted st1 = posted st
  /\ posted st2 = posted st ++ [payload bookKey el]
  /\ fire bookKey t' h selection' st2 = st2.
Proof.
  intros Hel Hsel Hdue h st1 st2.
  set (k := eid (self el)).
  set (s1 := match event with
             | MouseEv _ cx cy =>
                 set_pressStartPositions (<[k := (cx, cy)]> (pressStartPositions st)) st
             | TouchEv _ (touch :: _) =>
                 set_pressStartPositions
                   (<[k := (t_clientX touch, t_clientY touch)]> (pressStartPositions st)) st
             | TouchEv _ [] => st
             end).
  set (s2 := clearTimeout (pressTimers s1 !! k) s1).
  assert (E1 : st1 = set_pressTimers (<[k := nextTimer s2]> (pressTimers s2))
                       (setTimeout now (event, el) s2)).
  { unfold st1, startPress. rewrite Hel. reflexivity. }
  assert (N2 : nextTimer s2 = h).
  { unfold s2, s1, h. destruct event as [tg cx cy|tg [|touch ts]];
      match goal with |- context [clearTimeout ?o _] => destruct o end; reflexivity. }
  assert (P2 : posted s2 = posted st).
  { unfold s2, s1. destruct event as [tg cx cy|tg [|touch ts]];
      match goal with |- context [clearTimeout ?o _] => destruct o end; reflexivity. }
  assert (T1 : timers st1 !! h = Some (now + 500, (event, el))).
  { rewrite E1. cbn. rewrite N2. apply lookup_insert_eq. }
  assert (P1 : posted st1 = posted st) by (rewrite E1; cbn; exact P2).
  assert (Hgo : match selection with
                | Some s => Nat.ltb 0 (String.length s)
                | None => false
                end = false)
    by (destruct Hsel as [-> | ->]; reflexivity).
  assert (E2 : st2 = post (payload bookKey el)
                       (set_timers (delete h (timers st1)) st1)).
  { unfold st2, fire. rewrite T1.
    assert ((now + 500 <=? t) = true) as -> by (apply Z.leb_le; lia).
    unfold handleLongPress, payload. rewrite Hgo.
    destruct (elementToTrack_kind _ _ Hel) as [Hi | [Hi Ht]]; rewrite Hi; [reflexivity|].
    unfold isTableOrInTable. rewrite Ht. reflexivity. }
  split; [exact T1|]. split; [exact P1|].
  split; [rewrite E2; cbn; rewrite P1; reflexivity|].
  unfold fire. rewrite E2. cbn. rewrite lookup_delete_eq. reflexivity.
Qed.

(** A release (mouse-up, mouse-leave or touch-end) before the timer runs
    cancels the press: in any state the tracker reaches, it clears the
    timer recorded for the element and removes both entries, posting
    nothing, and that timer never runs afterwards. *)
Theorem release_cancels_press doc before event el timer acts now selection :
  let st := run bookKey before (addLongPressListeners doc) in
  elementToTrack (targetOf event) = Some el ->
  pressTimers st !! eid (self el) = Some timer ->
  let st' := cancelPress event st in
  timers st' !! timer = None
  /\ pressTimers st' !! eid (self el) = None
  /\ pressStartPositions st' !! eid (self el) = None
  /\ posted st' = posted st
  /\ fire bookKey now timer selection (run bookKey acts st') = run bookKey acts st'.
Proof.
  intros st Hel Htimer st'.
  assert (Hlt : (timer < nextTimer st)%nat)
    by (apply (run_issued bookKey before doc (eid (self el))); exact Htimer).
  assert (E : st' = set_pressStartPositions (delete (eid (self el)) (pressStartPositions st))
                      (set_pressTimers (delete (eid (self el)) (pressTimers st))
                         (set_timers (delete timer (timers st)) st))).
  { unfold st', cancelPress. rewrite Hel, Htimer. reflexivity. }
  assert (Hc : cleared timer st').
  { rewrite E. split; cbn; [apply lookup_delete_eq | assumption]. }
  pose proof (run_cleared bookKey timer acts st' Hc) as [Hn _].
  split; [apply Hc|].
  split; [rewrite E; cbn; apply lookup_delete_eq|].
  split; [rewrite E; cbn; apply lookup_delete_eq|].
  split; [rewrite E; reflexivity|].
  unfold fire. rewrite Hn. reflexivity.
Qed.

(** Pressing again restarts the countdown: in any state the tracker
    reaches, a press-start on an element that already has a recorded
    timer clears that timer, which never runs afterwards, and records a
    new one due 500 after the new press. *)
Theorem second_press_restarts_timer doc before event now el old acts t selection :
  let st := run bookKey before (addLongPressListeners doc) in
  elementToTrack (targetOf event) = Some el ->
  pressTimers st !! eid (self el) = Some old ->
  let st' := startPress event now st in
  pressTimers st' !! eid (self el) = Some (nextTimer st)
  /\ timers st' !! nextTimer st = Some (now + 500, (event, el))
  /\ old <> nextTimer st
  /\ timers st' !! old = None
  /\ fire bookKey t old selection (run bookKey acts st') = run bookKey acts st'.
Proof.
  intros st Hel Hold st'.
  assert (Hlt : (old < nextTimer st)%nat)
    by (apply (run_issued bookKey before doc (eid (self el))); exact Hold).
  set (k := eid (self el)) in *.
  set (s1 := match event with
             | MouseEv _ cx cy =>
                 set_pressStartPositions (<[k := (cx, cy)]> (pressStartPositions st)) st
             | TouchEv _ (touch :: _) =>
                 set_pressStartPositions
                   (<[k := (t_clientX touch, t_clientY touch)]> (pressStartPositions st)) st
             | TouchEv _ [] => st
             end).
  assert (F1 : pressTimers s1 = pressTimers st /\ timers s1 = timers st
               /\ nextTimer s1 = nextTimer st).
  { unfold s1. destruct event as [tg cx cy|tg [|touch ts]]; repeat split. }
  destruct F1 as (Fp & Ft & Fn).
  assert (E : st' = set_pressTimers (<[k := nextTimer st]> (pressTimers st))
                      (setTimeout now (event, el)
                         (set_timers (delete old (timers st)) s1))).
  { unfold st', startPress. rewrite Hel. fold k. fold s1. cbn zeta.
    rewrite Fp, Hold. cbn. rewrite Fn, Fp, Ft. reflexivity. }
  assert (Hc : cleared old st').
  { rewrite E. split; cbn; rewrite ?Fn; [|lia].
    rewrite lookup_insert_ne by lia. apply lookup_delete_eq. }
  pose proof (run_cleared bookKey old acts st' Hc) as [Hn _].
  split; [rewrite E; cbn; apply lookup_insert_eq|].
  split; [rewrite E; cbn; rewrite Fn; apply lookup_insert_eq|].
  split; [lia|]. split; [apply Hc|].
  unfold fire. rewrite Hn. reflexivity.
Qed.

(** *** Instrumenting the document *)

Lemma fold_instrument_marked l st :
  marked (fold_left instrument l st)
  = marked st ∪ list_to_set
                  (map eid (List.filter
                              (fun e => negb (hasAttribute "data-long-press-added" e)) l)).
Proof.
  revert st. induction l as [|e l IH]; intros st; cbn [fold_left List.filter map].
  - cbn. set_solver.
  - rewrite IH. unfold instrument, hasMarker.
    destruct (hasAttribute "data-long-press-added" e) eqn:Ea; cbn [orb negb]; [reflexivity|].
    destruct (bool_decide (eid e ∈ marked st)) eqn:Em; cbn [map list_to_set].
    + apply bool_decide_eq_true_1 in Em. set_solver.
    + cbn. set_solver.
Qed.

Lemma fold_instrument_frame l st :
  pressTimers (fold_left instrument l st) = pressTimers st
  /\ pressStartPositions (fold_left instrument l st) = pressStartPositions st
  /\ timers (fold_left instrument l st) = timers st
  /\ nextTimer (fold_left instrument l st) = nextTimer st
  /\ observing (fold_left instrument l st) = observing st
  /\ posted (fold_left instrument l st) = posted st.
Proof.
  revert st. induction l as [|e l IH]; intros st; cbn [fold_left]; [tauto|].
  destruct (IH (instrument st e)) as (-> & -> & -> & -> & -> & ->).
  apply instrument_frame.
Qed.

Lemma processElements_marked doc st :
  marked (processElements doc st)
  = marked st ∪ list_to_set
                  (map eid (List.filter
                              (fun e => qualifies e
                                        && negb (hasAttribute "data-long-press-added" e))
                              doc)).
Proof.
  unfold processElements. rewrite !fold_instrument_marked.
  apply set_eq. intros k. rewrite !elem_of_union, !elem_of_list_to_set, !list_elem_of_fmap.
  split.
  - intros [[H|(e & -> & He)]|(e & -> & He)]; [left; assumption| |];
      right; exists e; (split; [reflexivity|]);
      apply list_elem_of_In, List.filter_In;
      apply list_elem_of_In, List.filter_In in He as [He Ha];
      apply List.filter_In in He as [He Hq];
      (split; [assumption|]); unfold qualifies; rewrite Hq, Ha, ?orb_true_r; reflexivity.
  - intros [H|(e & -> & He)]; [left; left; assumption|].
    apply list_elem_of_In, List.filter_In in He as [He Hqa].
    apply andb_true_iff in Hqa as [Hq Ha]. unfold qualifies in Hq.
    destruct (hasLocalName ["img"%string] e) eqn:Ei.
    + left. right. exists e. split; [reflexivity|].
      apply list_elem_of_In, List.filter_In. split; [|assumption].
      apply List.filter_In. split; assumption.
    + right. exists e. split; [reflexivity|].
      apply list_elem_of_In, List.filter_In. split; [|assumption].
      apply List.filter_In. split; assumption.
Qed.

(** [processElements] is idempotent and only adds: a second pass over
    the same document changes nothing; afterwards every image and table
    of the document carries the marker; and an element is instrumented
    only if it was before or is an image or table of the document that
    did not carry the marker attribute in its markup. *)
Theorem processElements_idempotent doc st :
  processElements doc (processElements doc st) = processElements doc st
  /\ marked st ⊆ marked (processElements doc st)
  /\ (forall e, In e doc -> qualifies e = true ->
        hasMarker (processElements doc st) e = true)
  /\ (forall k, k ∈ marked (processElements doc st) ->
        k ∈ marked st
        \/ exists e, In e doc /\ eid e = k /\ qualifies e = true
                     /\ hasAttribute "data-long-press-added" e = false).
Proof.
  split; [|split; [|split]].
  - pose proof (processElements_frame doc st) as (A & B & C & D & E & F).
    pose proof (processElements_frame doc (processElements doc st))
      as (A' & B' & C' & D' & E' & F').
    apply state_eq; try congruence.
    rewrite (processElements_marked doc (processElements doc st)).
    rewrite (processElements_marked doc st). set_solver.
  - rewrite processElements_marked. set_solver.
  - intros e He Hq. unfold hasMarker.
    destruct (hasAttribute "data-long-press-added" e) eqn:Ea; [reflexivity|].
    cbn [orb]. apply bool_decide_eq_true_2. rewrite processElements_marked.
    apply elem_of_union. right. apply elem_of_list_to_set, list_elem_of_fmap.
    exists e. split; [reflexivity|]. apply list_elem_of_In, List.filter_In.
    split; [assumption|]. rewrite Hq, Ea. reflexivity.
  - intros k. rewrite processElements_marked, elem_of_union, elem_of_list_to_set,
      list_elem_of_fmap.
    intros [H|(e & -> & He)]; [left; assumption|]. right.
    apply list_elem_of_In, List.filter_In in He as [He Hqa].
    apply andb_true_iff in Hqa as [Hq Ha]. exists e.
    repeat split; try assumption. destruct (hasAttribute _ e); [discriminate|reflexivity].
Qed.

End LongPressExtras.

(** * Further properties of the image viewer *)

Section ViewerExtras.
Import Js ImageViewer.
Local Open Scope Q_scope.

Variable hypot : Q -> Q -> Q.

(** Anchor-preserving zoom keeps the content under the anchor where it
    is: a content coordinate shown at the anchor under scale [s] and
    translation [t] is shown at the anchor again under scale [s'] and
    the translation [getZoomedOffset] returns. *)
Theorem getZoomedOffset_fixes_anchor ax ay s s' tx ty cx cy :
  ~ s == 0 -> ~ s' == 0 ->
  same (shownAt (Num s) (Num tx) (Num cx)) (Num ax) ->
  same (shownAt (Num s) (Num ty) (Num cy)) (Num ay) ->
  let p := getZoomedOffset (Num ax) (Num ay) (Num s) (Num s')
             {| x := Num tx; y := Num ty |} in
  same (shownAt (Num s') (x p) (Num cx)) (Num ax)
  /\ same (shownAt (Num s') (y p) (Num cy)) (Num ay).
Proof.
  intros Hs Hs' Hx Hy p. unfold p, getZoomedOffset, shownAt in *.
  rewrite (div_Num s' s Hs). cbn [x y sub add neg mul].
  rewrite (div_Num tx s Hs) in Hx. rewrite (div_Num ty s Hs) in Hy.
  rewrite !(div_Num _ s' Hs'). cbn in Hx, Hy |- *.
  assert (Ex : cx == (ax - tx) / s).
  { rewrite <- Hx. field. assumption. }
  assert (Ey : cy == (ay - ty) / s).
  { rewrite <- Hy. field. assumption. }
  split; [rewrite Ex | rewrite Ey]; field; auto.
Qed.

(** Two zooms at the same anchor compose: going from [s] to [s'] and
    then to [s''] gives the translation of going from [s] to [s'']
    directly. *)
Theorem getZoomedOffset_composes ax ay s s' s'' tx ty :
  ~ s == 0 -> ~ s' == 0 ->
  let p := {| x := Num tx; y := Num ty |} in
  let p1 := getZoomedOffset (Num ax) (Num ay) (Num s) (Num s') p in
  let p2 := getZoomedOffset (Num ax) (Num ay) (Num s') (Num s'') p1 in
  let direct := getZoomedOffset (Num ax) (Num ay) (Num s) (Num s'') p in
  same (x p2) (x direct) /\ same (y p2) (y direct).
Proof.
  intros Hs Hs' p p1 p2 direct.
  unfold direct, p2, p1, p, getZoomedOffset.
  rewrite (div_Num s' s Hs), (div_Num s'' s' Hs'), (div_Num s'' s Hs). cbn.
  split; field; auto.
Qed.

Lemma run_app ops1 ops2 st :
  run hypot (ops1 ++ ops2) st = run hypot ops2 (run hypot ops1 st).
Proof. unfold run. apply fold_left_app. Qed.

Lemma drag_moves moves st :
  le (scale st) (Num 1) = false -> isDragging st = true ->
  let st' := run hypot (map (fun c => MouseMove (fst c) (snd c)) moves) st in
  scale st' = scale st /\ isDragging st' = true /\ dragStart st' = dragStart st.
Proof.
  unfold run. revert st.
  induction moves as [|[cx cy] moves IH]; intros st Hs Hd; cbn [map fold_left].
  - repeat split; assumption.
  - cbn [step fst snd].
    assert (E : handleImageMouseMove cx cy st
                = setPosition {| x := sub (Num cx) (x (dragStart st));
                                 y := sub (Num cy) (y (dragStart st)) |}
                    (set_wasDragging true st)).
    { unfold handleImageMouseMove. rewrite Hd, Hs. reflexivity. }
    rewrite E.
    destruct (IH (setPosition {| x := sub (Num cx) (x (dragStart st));
                                 y := sub (Num cy) (y (dragStart st)) |}
                    (set_wasDragging true st))) as (A & B & C);
      [exact Hs | exact Hd |].
    repeat split; assumption.
Qed.

(** A mouse drag moves the translation by the displacement of the
    pointer since the press, whatever path the pointer took: after a
    press at [c0] in a state with scale above 1 that is not dragging, any
    moves, and a move to [c], the translation is the translation at the
    press plus [c - c0]. *)
Theorem drag_follows_pointer c0x c0y cx cy px py moves st :
  le (scale st) (Num 1) = false -> isDragging st = false ->
  position st = {| x := Num px; y := Num py |} ->
  let st' := run hypot (MouseDown c0x c0y
                        :: map (fun c => MouseMove (fst c) (snd c)) moves
                        ++ [MouseMove cx cy]) st in
  same (x (position st')) (Num (px + (cx - c0x)))
  /\ same (y (position st')) (Num (py + (cy - c0y)))
  /\ scale st' = scale st
  /\ isDragging st' = true
  /\ wasDragging st' = true
  /\ isDragging (handleImageMouseUp st') = false.
Proof.
  intros Hs Hd Hp st'.
  set (st1 := handleImageMouseDown c0x c0y st).
  assert (E1 : st1 = set_dragStart {| x := sub (Num c0x) (Num px);
                                      y := sub (Num c0y) (Num py) |}
                       (set_wasDragging false (setIsDragging true st))).
  { unfold st1, handleImageMouseDown. rewrite Hd, Hs, Hp. reflexivity. }
  assert (S1 : scale st1 = scale st) by (rewrite E1; reflexivity).
  destruct (drag_moves moves st1) as (A & B & C);
    [rewrite S1; assumption | rewrite E1; reflexivity |].
  set (st2 := run hypot (map (fun c => MouseMove (fst c) (snd c)) moves) st1) in *.
  assert (E : st' = handleImageMouseMove cx cy st2).
  { unfold st'. change (MouseDown c0x c0y :: ?l) with ([MouseDown c0x c0y] ++ l).
    rewrite !run_app. reflexivity. }
  assert (E2 : st' = setPosition {| x := sub (Num cx) (x (dragStart st2));
                                    y := sub (Num cy) (y (dragStart st2)) |}
                       (set_wasDragging true st2)).
  { rewrite E. unfold handleImageMouseMove. rewrite B, A, S1, Hs. reflexivity. }
  rewrite E2, C, E1. cbn. rewrite A, S1, B.
  repeat split; try reflexivity; ring.
Qed.

(** While the scale is at most 1 panning is disabled: no sequence of
    mouse presses, moves and releases and of one-finger touch starts,
    moves and ends changes the translation or the scale, and none of
    them requests an animation frame. *)
Theorem pan_disabled_at_small_scale ops st :
  le (scale st) (Num 1) = true ->
  forallb isPanOp ops = true ->
  position (run hypot ops st) = position st
  /\ scale (run hypot ops st) = scale st
  /\ frames (run hypot ops st) = frames st.
Proof.
  intros Hs. unfold run. revert st Hs.
  induction ops as [|op ops IH]; intros st Hs Hops; cbn [fold_left];
    [repeat split; reflexivity|].
  cbn in Hops. apply andb_true_iff in Hops as [Hop Hops].
  assert (Hgt : gt (scale st) (Num 1) = false).
  { unfold gt. rewrite Hs. destruct (scale st); reflexivity. }
  assert (Hstep : position (step hypot st op) = position st
                  /\ scale (step hypot st op) = scale st
                  /\ frames (step hypot st op) = frames st).
  { destruct op as [| | |k c|e r|cx cy|cx cy| |ts|ts r|ts|cx cy r|]; try discriminate;
      cbn [step].
    - unfold handleImageMouseDown. rewrite Hs, orb_true_r. repeat split; reflexivity.
    - unfold handleImageMouseMove. rewrite Hs, orb_true_r. repeat split; reflexivity.
    - repeat split; reflexivity.
    - destruct ts as [|t1 [|t2 ts]]; try discriminate.
      unfold onTouchStart. rewrite Hgt. repeat split; reflexivity.
    - destruct ts as [|t1 [|t2 ts]]; try discriminate.
      unfold onTouchMove. rewrite Hgt. repeat split; reflexivity.
    - unfold onTouchEnd. destruct ts as [|t1 [|t2 ts]]; repeat split; reflexivity. }
  destruct Hstep as (Hp & Hsc & Hfr).
  destruct (IH (step hypot st op)) as (A & B & C); [rewrite Hsc; assumption | assumption |].
  repeat split; congruence.
Qed.

(** A release after a drag is not a click on the overlay: after a press
    and at least one move at a scale above 1, the click that follows the
    release neither closes the overlay nor toggles the label, and it
    clears the drag mark, so the click after it does both.  A press
    released without a move leaves no mark: the click closes. *)
Theorem click_after_drag_is_swallowed c0x c0y cx cy st :
  le (scale st) (Num 1) = false -> isDragging st = false ->
  let dragged := run hypot [MouseDown c0x c0y; MouseMove cx cy; MouseUp] st in
  let pressed := run hypot [MouseDown c0x c0y; MouseUp] st in
  snd (handleContainerClick dragged) = false
  /\ snd (handleImageClick dragged) = false
  /\ snd (handleContainerClick (fst (handleContainerClick dragged))) = true
  /\ snd (handleImageClick (fst (handleImageClick dragged))) = true
  /\ snd (handleContainerClick pressed) = true
  /\ position (fst (handleContainerClick dragged)) = position dragged.
Proof.
  intros Hs Hd dragged pressed.
  assert (E1 : handleImageMouseDown c0x c0y st
               = set_dragStart {| x := sub (Num c0x) (x (position st));
                                  y := sub (Num c0y) (y (position st)) |}
                   (set_wasDragging false (setIsDragging true st))).
  { unfold handleImageMouseDown. rewrite Hd, Hs. reflexivity. }
  assert (Wd : wasDragging dragged = true).
  { unfold dragged, run. cbn [fold_left step]. rewrite E1.
    unfold handleImageMouseMove. cbn [isDragging scale set_dragStart set_wasDragging
                                      setIsDragging negb orb].
    rewrite Hs. reflexivity. }
  assert (Wp : wasDragging pressed = false).
  { unfold pressed, run. cbn [fold_left step]. rewrite E1. reflexivity. }
  unfold handleContainerClick, handleImageClick. rewrite Wd, Wp. cbn.
  repeat split.
Qed.

(** The zoom label is a multiple of 5 that differs from the scale in
    per cent by at most two and a half. *)
Theorem zoomLabel_rounds_to_five (scale : Q) :
  (exists k, zoomLabel scale = (5 * k)%Z)
  /\ scale * 100 - (5 # 2) < inject_Z (zoomLabel scale)
  /\ inject_Z (zoomLabel scale) <= scale * 100 + (5 # 2).
Proof.
  unfold zoomLabel, round.
  set (v := scale * 100 / 5 + (1 # 2)).
  pose proof (Qfloor_le v) as Hle. pose proof (Qlt_floor v) as Hlt.
  assert (Ev : scale * 100 == (v - (1 # 2)) * 5) by (unfold v; field).
  split; [exists (Qfloor v); lia|].
  rewrite inject_Z_mult. rewrite inject_Z_plus in Hlt.
  change (inject_Z 5) with 5. change (inject_Z 1) with 1 in Hlt.
  rewrite Ev. split; lra.
Qed.

(** Along every run of the image viewer from its initial state that
    has no degenerate pinch move, whatever buttons, shortcuts, wheel
    steps, drags, pinches, double clicks and animation frames it
    consists of and however events and frames interleave, the scale is
    a finite number between [MIN_SCALE] and [MAX_SCALE].  If the run has
    no one-finger touch move either, the translation is the origin
    whenever the scale is at most 1. *)
Theorem image_scale_in_range ops :
  wellFormed hypot ops init = true ->
  (exists q, scale (run hypot ops init) = Num q /\ (1 # 2) <= q <= 8)
  /\ (forallb (fun op => negb (touchPan op)) ops = true ->
      forall q, scale (run hypot ops init) = Num q -> q <= 1 ->
                position (run hypot ops init) = origin).
Proof.
  intros Hw. split.
  - destruct (run_invariant hypot ops init invariant_init Hw) as ((Hr & _) & _).
    exact Hr.
  - intros Hops.
    apply (run_settled hypot ops init invariant_init); auto.
    apply origin_settled. reflexivity.
Qed.

End ViewerExtras.

(** * Properties of the table viewer *)

Section TableViewerFacts.
Import Js TableViewer.
Local Open Scope Q_scope.

Lemma hideZoomLabelAfterDelay_view now st :
  scale (hideZoomLabelAfterDelay now st) = scale st
  /\ position (hideZoomLabelAfterDelay now st) = position st
  /\ isDragging (hideZoomLabelAfterDelay now st) = isDragging st
  /\ dragStart (hideZoomLabelAfterDelay now st) = dragStart st
  /\ wasDragging (hideZoomLabelAfterDelay now st) = wasDragging st
  /\ closes (hideZoomLabelAfterDelay now st) = closes st.
Proof.
  unfold hideZoomLabelAfterDelay, clearLabelTimeout.
  destruct (zoomLabelTimeoutRef st); cbn; tauto.
Qed.

Lemma inRange_hide now st : inRange st -> inRange (hideZoomLabelAfterDelay now st).
Proof.
  intros (q & Hs & Hq & Hp).
  destruct (hideZoomLabelAfterDelay_view now st) as (Es & Ep & _).
  exists q. rewrite Es, Ep. auto.
Qed.

Lemma inRange_make st q :
  scale st = Num q -> (1 # 2) <= q <= 4 ->
  (le (Num q) (Num 1) = true -> position st = ImageViewer.origin) ->
  inRange st.
Proof.
  intros Hs Hq Hp. exists q. split; [assumption|]. split; [assumption|].
  intros Hle. apply Hp. apply le_Num. assumption.
Qed.

Lemma table_clamp a :
  a <> NaN ->
  exists q, min (max a MIN_SCALE) MAX_SCALE = Num q /\ (1 # 2) <= q <= 4.
Proof.
  intros Ha. unfold MIN_SCALE, MAX_SCALE.
  destruct a as [p| | |]; [| | |congruence].
  - unfold max. destruct (le (Num p) (Num (1 # 2))) eqn:E1.
    + exists (1 # 2). split; [reflexivity|lra].
    + apply le_Num_false in E1. unfold min.
      destruct (le (Num p) (Num 4)) eqn:E2.
      * apply le_Num in E2. exists p. split; [reflexivity|lra].
      * exists 4. split; [reflexivity|lra].
  - exists 4. split; [reflexivity|lra].
  - exists (1 # 2). split; [reflexivity|lra].
Qed.

Lemma table_step_inRange st op : inRange st -> inRange (step st op).
Proof.
  intros Inv. pose proof Inv as (q & Hs & Hq & Hp).
  assert (Zin : forall now, inRange (handleZoomIn now st)).
  { intros now. unfold handleZoomIn. apply inRange_hide. rewrite Hs.
    unfold ZOOM_SPEED, MAX_SCALE. cbn [add]. unfold min.
    destruct (le (Num (q + (1 # 10))) (Num 4)) eqn:E.
    - apply le_Num in E. exists (q + (1 # 10)). split; [reflexivity|].
      split; [lra|]. intros H. cbn. apply Hp. lra.
    - exists 4. split; [reflexivity|]. split; [lra|]. intros H. lra. }
  assert (Zout : forall now, inRange (handleZoomOut now st)).
  { intros now. unfold handleZoomOut. rewrite Hs.
    unfold ZOOM_SPEED, MIN_SCALE. cbn [sub add neg].
    assert (E : exists r, max (Num (q + - (1 # 10))) (Num (1 # 2)) = Num r
                          /\ (1 # 2) <= r <= 4).
    { unfold max. destruct (le (Num (q + - (1 # 10))) (Num (1 # 2))) eqn:E.
      - exists (1 # 2). split; [reflexivity|]. lra.
      - apply le_Num_false in E. exists (q + - (1 # 10)). split; [reflexivity|]. lra. }
    destruct E as (r & -> & Hr).
    destruct (le (Num r) (Num 1)) eqn:E1; apply inRange_hide;
      apply (inRange_make _ r); try reflexivity; try assumption; congruence. }
  assert (Zreset : forall now, inRange (handleResetZoom now st)).
  { intros now. unfold handleResetZoom. apply inRange_hide.
    exists 1. split; [reflexivity|]. split; [lra|reflexivity]. }
  assert (Same : forall s, scale s = scale st -> position s = position st -> inRange s).
  { intros s Es Ep. exists q. rewrite Es, Ep. auto. }
  destruct op as [now|now|now|k c now|k|e now|cx cy|cx cy| | | |now| |now h];
    cbn [step]; auto.
  - unfold handleKeyDown.
    repeat match goal with
           | |- inRange (if ?b then _ else _) => destruct b
           end; auto.
  - unfold handleBackdropKeyDown.
    destruct (String.eqb k "Enter" || String.eqb k " "); auto.
  - unfold handleWheel.
    destruct (negb (ImageViewer.w_ctrlKey e || ImageViewer.w_metaKey e)); [assumption|].
    cbn zeta.
    assert (Ha : add (scale st)
                   (if gt (Num (ImageViewer.deltaY e)) (Num 0) then neg ZOOM_SPEED
                    else ZOOM_SPEED) <> NaN).
    { rewrite Hs. destruct (gt (Num (ImageViewer.deltaY e)) (Num 0)); discriminate. }
    destruct (table_clamp _ Ha) as (r & -> & Hr).
    destruct (le (Num r) (Num 1)) eqn:E1; apply inRange_hide;
      apply (inRange_make _ r); try reflexivity; try assumption; congruence.
  - unfold handleContentMouseDown.
    destruct (isDragging st || le (scale st) (Num 1)); auto.
  - unfold handleContentMouseMove.
    destruct (isDragging st); cbn [negb orb]; [|assumption].
    destruct (le (scale st) (Num 1)) eqn:E; [assumption|].
    exists q. cbn. split; [assumption|]. split; [assumption|].
    intros Hle. rewrite Hs in E. apply le_Num_false in E. lra.
  - unfold handleContainerClick. destruct (wasDragging st); auto.
  - unfold handleContentClick. destruct (wasDragging st); auto.
  - unfold unmount, clearLabelTimeout. destruct (zoomLabelTimeoutRef st); auto.
  - unfold fire. destruct (timers st !! h) as [[due cb]|]; [|assumption].
    destruct (due <=? now)%Z; [|assumption].
    destruct cb; [auto|].
    apply inRange_hide. auto.
Qed.

(** After every sequence of operations on the table viewer the scale is
    a finite number between [MIN_SCALE] and [MAX_SCALE], and the
    translation is the origin whenever the scale is at most 1. *)
Theorem table_scale_in_range ops : inRange (run ops init).
Proof.
  unfold run.
  assert (H0 : inRange init).
  { exists 1. split; [reflexivity|]. split; [lra|reflexivity]. }
  revert H0. generalize init.
  induction ops as [|op ops IH]; intros st Hst; cbn [fold_left]; [assumption|].
  apply IH, table_step_inRange, Hst.
Qed.

(** What [hideZoomLabelAfterDelay] leaves pending. *)
Lemma hide_rearms now st :
  oneHideTimer st ->
  let st' := hideZoomLabelAfterDelay now st in
  showZoomLabel st' = true
  /\ zoomLabelTimeoutRef st' = Some (nextTimer st)
  /\ timers st' !! nextTimer st = Some ((now + 2000)%Z, HideLabel)
  /\ (forall h due, timers st' !! h = Some (due, HideLabel) -> h = nextTimer st).
Proof.
  intros Inv st'. unfold st', hideZoomLabelAfterDelay, clearLabelTimeout.
  destruct (zoomLabelTimeoutRef st) as [r|] eqn:Er; cbn.
  - rewrite lookup_insert_eq. repeat split.
    intros h due Hh. destruct (decide (nextTimer st = h)) as [E|Hne]; [auto|].
    rewrite lookup_insert_ne in Hh by assumption.
    destruct (decide (r = h)) as [->|Hr].
    + rewrite lookup_delete_eq in Hh. discriminate.
    + rewrite lookup_delete_ne in Hh by assumption.
      apply Inv in Hh. congruence.
  - rewrite lookup_insert_eq. repeat split.
    intros h due Hh. destruct (decide (nextTimer st = h)) as [E|Hne]; [auto|].
    rewrite lookup_insert_ne in Hh by assumption.
    apply Inv in Hh. congruence.
Qed.

Lemma oneHideTimer_hide now st :
  oneHideTimer st -> oneHideTimer (hideZoomLabelAfterDelay now st).
Proof.
  intros Inv h due Hh.
  destruct (hide_rearms now st Inv) as (_ & Hr & _ & Hu).
  rewrite Hr. f_equal. symmetry. exact (Hu h due Hh).
Qed.

Lemma oneHideTimer_same st st' :
  timers st' = timers st -> zoomLabelTimeoutRef st' = zoomLabelTimeoutRef st ->
  oneHideTimer st -> oneHideTimer st'.
Proof. intros Ht Hr Inv h due. rewrite Ht, Hr. apply Inv. Qed.

Lemma oneHideTimer_delete h st :
  oneHideTimer st -> oneHideTimer (set_timers (delete h (timers st)) st).
Proof.
  intros Inv h' due. cbn. destruct (decide (h = h')) as [->|Hne].
  - rewrite lookup_delete_eq. discriminate.
  - rewrite lookup_delete_ne by assumption. apply Inv.
Qed.

Lemma table_step_oneHideTimer st op : oneHideTimer st -> oneHideTimer (step st op).
Proof.
  intros Inv.
  assert (Zin : forall now, oneHideTimer (handleZoomIn now st)).
  { intros now. apply oneHideTimer_hide. exact Inv. }
  assert (Zout : forall now, oneHideTimer (handleZoomOut now st)).
  { intros now. unfold handleZoomOut.
    destruct (le _ (Num 1)); apply oneHideTimer_hide; exact Inv. }
  assert (Zreset : forall now, oneHideTimer (handleResetZoom now st)).
  { intros now. apply oneHideTimer_hide. exact Inv. }
  destruct op as [now|now|now|k c now|k|e now|cx cy|cx cy| | | |now| |now h];
    cbn [step]; auto.
  - unfold handleKeyDown.
    repeat match goal with
           | |- oneHideTimer (if ?b then _ else _) => destruct b
           end; auto.
  - unfold handleBackdropKeyDown.
    destruct (String.eqb k "Enter" || String.eqb k " "); assumption.
  - unfold handleWheel.
    destruct (negb (ImageViewer.w_ctrlKey e || ImageViewer.w_metaKey e)); [assumption|].
    cbn zeta. destruct (le _ (Num 1)); apply oneHideTimer_hide; exact Inv.
  - unfold handleContentMouseDown.
    destruct (isDragging st || le (scale st) (Num 1)); assumption.
  - unfold handleContentMouseMove.
    destruct (negb (isDragging st) || le (scale st) (Num 1)); assumption.
  - unfold handleContainerClick. destruct (wasDragging st); assumption.
  - unfold handleContentClick. destruct (wasDragging st); assumption.
  - intros h due. unfold mount. cbn.
    destruct (decide (nextTimer st = h)) as [<-|Hne].
    + rewrite lookup_insert_eq. discriminate.
    + rewrite lookup_insert_ne by assumption. apply Inv.
  - unfold unmount, clearLabelTimeout. destruct (zoomLabelTimeoutRef st); [|assumption].
    apply oneHideTimer_delete, Inv.
  - unfold fire. destruct (timers st !! h) as [[due cb]|]; [|assumption].
    destruct (due <=? now)%Z; [|assumption].
    destruct cb.
    + apply (oneHideTimer_delete h st Inv).
    + apply oneHideTimer_hide, oneHideTimer_delete, Inv.
Qed.

Lemma table_run_oneHideTimer ops : oneHideTimer (run ops init).
Proof.
  unfold run.
  assert (H0 : oneHideTimer init) by (intros h due; cbn; rewrite lookup_empty; discriminate).
  revert H0. generalize init.
  induction ops as [|op ops IH]; intros st Hst; cbn [fold_left]; [assumption|].
  apply IH, table_step_oneHideTimer, Hst.
Qed.

Lemma arming_step st op now :
  armsLabelAt op = Some now ->
  exists s, step st op = hideZoomLabelAfterDelay now s
            /\ timers s = timers st
            /\ zoomLabelTimeoutRef s = zoomLabelTimeoutRef st.
Proof.
  destruct op as [t|t|t|k c t|k|e t|cx cy|cx cy| | | |t| |t h]; cbn [armsLabelAt step];
    try discriminate.
  - intros [= ->]. eexists. split; [reflexivity|]. split; reflexivity.
  - intros [= ->]. unfold handleZoomOut.
    destruct (le _ (Num 1)); eexists; (split; [reflexivity|]); split; reflexivity.
  - intros [= ->]. eexists. split; [reflexivity|]. split; reflexivity.
  - destruct c; [|discriminate]. unfold handleKeyDown.
    destruct (String.eqb k "Escape"); [discriminate|].
    destruct (String.eqb k "=" || String.eqb k "+") eqn:E1; cbn [orb].
    { intros [= ->]. eexists. split; [reflexivity|]. split; reflexivity. }
    destruct (String.eqb k "=") eqn:Ea; [discriminate|].
    destruct (String.eqb k "+") eqn:Eb; [discriminate|]. cbn [orb].
    destruct (String.eqb k "-" || String.eqb k "_") eqn:E2.
    { intros H. assert (now = t) as ->.
      { destruct (String.eqb k "-"), (String.eqb k "_"), (String.eqb k "0");
          cbn in H; congruence. }
      unfold handleZoomOut.
      destruct (le _ (Num 1)); eexists; (split; [reflexivity|]); split; reflexivity. }
    destruct (String.eqb k "-") eqn:Ec; [discriminate|].
    destruct (String.eqb k "_") eqn:Ed; [discriminate|]. cbn [orb].
    destruct (String.eqb k "0"); [|discriminate].
    intros [= ->]. eexists. split; [reflexivity|]. split; reflexivity.
  - unfold handleWheel.
    destruct (ImageViewer.w_ctrlKey e || ImageViewer.w_metaKey e); [|discriminate].
    intros [= ->]. cbn [negb]. cbn zeta.
    destruct (le _ (Num 1)); eexists; (split; [reflexivity|]); split; reflexivity.
Qed.

(** The zoom label hides 2000 after the latest zoom operation: after any
    run and a zoom operation at time [now] (a button, a shortcut or a
    Ctrl/Cmd wheel step), the label is shown, the ref holds a pending
    hide timer due at [now + 2000], and no other hide timer is pending,
    so no timer armed by an earlier operation can hide the label. *)
Theorem label_hides_after_latest_zoom ops op now :
  armsLabelAt op = Some now ->
  let st := step (run ops init) op in
  showZoomLabel st = true
  /\ (exists h, zoomLabelTimeoutRef st = Some h
                /\ timers st !! h = Some ((now + 2000)%Z, HideLabel))
  /\ (forall h due, timers st !! h = Some (due, HideLabel) -> due = (now + 2000)%Z).
Proof.
  intros Harm st.
  destruct (arming_step (run ops init) op now Harm) as (s & E & Ht & Hr).
  assert (Inv : oneHideTimer s)
    by (apply (oneHideTimer_same (run ops init)); auto using table_run_oneHideTimer).
  destruct (hide_rearms now s Inv) as (A & B & C & D).
  unfold st. rewrite E. split; [exact A|]. split.
  - exists (nextTimer s). split; assumption.
  - intros h due Hh. rewrite (D h due Hh) in Hh. congruence.
Qed.

(** Unmounting cancels the hide timer: after any run followed by the
    cleanup of the mount effect no timer that hides the label is
    pending.  The callback the mount effect scheduled is not cancelled:
    if it is still pending and runs after the cleanup, it arms a hide
    timer again. *)
Theorem unmount_cancels_hide_timer ops :
  let st := unmount (run ops init) in
  (forall h due, timers st !! h <> Some (due, HideLabel))
  /\ (forall now h due,
        timers st !! h = Some (due, ArmLabel) -> (due <= now)%Z ->
        timers (fire now h st) !! nextTimer st = Some ((now + 2000)%Z, HideLabel)).
Proof.
  cbv zeta. split.
  - intros h due H. pose proof (table_run_oneHideTimer ops) as Hone.
    unfold unmount, clearLabelTimeout in H.
    destruct (zoomLabelTimeoutRef (run ops init)) as [h0|] eqn:Eref.
    + cbn [timers set_timers] in H.
      destruct (decide (h = h0)) as [->|Hne].
      * rewrite lookup_delete_eq in H. discriminate.
      * rewrite lookup_delete_ne in H by congruence.
        apply Hone in H. congruence.
    + apply Hone in H. congruence.
  - intros now h due H Hdue. unfold fire. rewrite H.
    apply Z.leb_le in Hdue. rewrite Hdue.
    unfold hideZoomLabelAfterDelay, armTimeout. cbn [timers].
    assert (E : forall s, nextTimer (setShowZoomLabel true (clearLabelTimeout s))
                          = nextTimer s).
    { intros s. unfold clearLabelTimeout. destruct (zoomLabelTimeoutRef s); reflexivity. }
    rewrite E. cbn [nextTimer set_timers]. apply lookup_insert_eq.
Qed.

End TableViewerFacts.

(** * Properties of the Readwise sync *)

Section ReadwiseFacts.
Import Readwise.
Local Open Scope Z_scope.

(** One round of the automatic sync.  It pushes only when Readwise is
    enabled with a token, the book is known and some note changed or was
    deleted after the last sync, and then it pushes exactly those notes.
    A failed push leaves the settings as they were, so the same notes
    are selected again; after a successful push at [now], notes whose
    timestamps are at most [now] are not pushed again. *)
Theorem sync_resumes_from_last_success r result now book notes :
  (forall sent,
     debouncedPush (Some r) book (Some notes) = Push sent ->
     sent = List.filter (changedSince (default 0 (lastSyncedAt r))) notes
     /\ sent <> [] /\ enabled r = true /\ accessToken r <> ""%string /\ book = true)
  /\ (success result = false -> afterPush result now r = r)
  /\ (success result = true ->
      (forall n, In n notes -> updatedAt n <= now /\ default 0 (deletedAt n) <= now) ->
      debouncedPush (Some (afterPush result now r)) book (Some notes) = Skip).
Proof.
  split; [|split].
  - intros sent. unfold debouncedPush, notConfigured.
    destruct (enabled r); cbn [negb orb]; [|discriminate].
    destruct (String.eqb (accessToken r) "") eqn:Et; [discriminate|].
    destruct book; cbn [negb]; [|discriminate].
    destruct (List.filter _ notes) as [|n l] eqn:Ef; [discriminate|].
    intros [= <-]. repeat split; try discriminate.
    intros H. rewrite H in Et. discriminate.
  - intros H. unfold afterPush. rewrite H. reflexivity.
  - intros H Hold. unfold afterPush. rewrite H. unfold debouncedPush, notConfigured.
    cbn [enabled accessToken updateLastSyncedAt lastSyncedAt].
    destruct (negb (enabled r) || String.eqb (accessToken r) ""); [reflexivity|].
    destruct book; cbn [negb]; [|reflexivity].
    assert (E : List.filter (changedSince (default 0 (Some now))) notes = []).
    { clear -Hold. induction notes as [|n l IH]; [reflexivity|]. cbn [List.filter].
      destruct (Hold n (or_introl eq_refl)) as [Hu Hd].
      assert (changedSince (default 0 (Some now)) n = false) as ->.
      { unfold changedSince. cbn [default].
        apply orb_false_iff. split; apply Z.ltb_ge; assumption. }
      apply IH. intros m Hm. apply Hold. right. exact Hm. }
    rewrite E. reflexivity.
Qed.

Lemma filter_sublist {A} (f : A -> bool) (l : list A) :
  sublist (List.filter f l) l.
Proof.
  induction l as [|a l IH]; cbn [List.filter]; [constructor|].
  destruct (f a); [apply sublist_skip | apply sublist_cons]; exact IH.
Qed.

(** Whenever the automatic sync pushes, Push All on the same stores
    pushes too, and what the automatic sync sends is part of what Push
    All sends, in the same order; Push All itself does not look at the
    timestamps. *)
Theorem push_all_covers_auto_sync readwise book notes sent :
  debouncedPush readwise book (Some notes) = Push sent ->
  pushAllHighlights readwise book (Some notes) = Push notes
  /\ sublist sent notes
  /\ (forall n, In n sent -> In n notes)
  /\ (forall r, readwise = Some r ->
        pushAllHighlights (Some (updateLastSyncedAt 0 r)) book (Some notes)
        = pushAllHighlights readwise book (Some notes)).
Proof.
  unfold debouncedPush, pushAllHighlights.
  destruct (notConfigured readwise) eqn:Hc; [discriminate|].
  destruct readwise as [r|]; [|discriminate].
  destruct book; cbn [negb]; [|discriminate].
  destruct (List.filter _ notes) as [|n l] eqn:Ef; [discriminate|].
  intros [= <-]. rewrite <- Ef. repeat split.
  - apply filter_sublist.
  - intros m Hm. apply filter_In in Hm. tauto.
  - intros r0 [= <-]. cbn in Hc |- *. rewrite Hc. reflexivity.
Qed.

End ReadwiseFacts.

(** * Concrete runs for the further properties *)

Section ExtraRuns.
Import Dom Samples MoreSamples.

Lemma key_status_follows_latest_key_witness :
  forallb (fun a => negb (IframeEvents.is_keyboard a))
    [IframeEvents.Mouseup "book" (clickAt 1)] = true
  /\ IframeEvents.getKeyStatus (clickAt 2)
       (IframeEvents.run 300 500
          ([] ++ IframeEvents.Keydown "book" keyA
                 :: [IframeEvents.Mouseup "book" (clickAt 1)])
          IframeEvents.init)
     = {| key := "a"; code := "KeyA"; mods := IframeEvents.noMods |}.
Proof.
  split; [reflexivity|].
  exact (proj1 (proj2 (proj2
           (key_status_follows_latest_key 300 500 [] [IframeEvents.Mouseup "book" (clickAt 1)]
              "book" keyA IframeEvents.init "book" (clickAt 2) 0%Z eq_refl)))).
Defined.

Lemma long_hold_expiry_ignores_rearm_witness :
  (1000 + 500 <= 1500)%Z
  /\ IframeEvents.longHoldTimeout
       (IframeEvents.fire 300 1500 (IframeEvents.nextTimer IframeEvents.init)
          (IframeEvents.handleMousedown 500 "book" (clickAt 2) 1400
             (IframeEvents.handleMousedown 500 "book" (clickAt 1) 1000
                IframeEvents.init))) = None.
Proof.
  assert (H : (1000 + 500 <= 1500)%Z) by (vm_compute; discriminate).
  split; [exact H|].
  exact (proj1 (proj2
           (long_hold_expiry_ignores_rearm 300 500 "book" (clickAt 1) 1000
              "book" (clickAt 2) 1400 1500 IframeEvents.init H))).
Defined.

Lemma disabled_never_double_witness :
  forallb IframeEvents.click_disabled
    [IframeEvents.Mousedown 1000 "book" (clickAt 1);
     IframeEvents.Click 1000 "book" true (clickAt 1);
     IframeEvents.Click 1050 "book" true (clickAt 2)] = true
  /\ Forall (fun m => kind m <> KDoubleClick)
       (IframeEvents.posted
          (IframeEvents.run 300 500
             [IframeEvents.Mousedown 1000 "book" (clickAt 1);
              IframeEvents.Click 1000 "book" true (clickAt 1);
              IframeEvents.Click 1050 "book" true (clickAt 2)]
             IframeEvents.init)).
Proof.
  split; [reflexivity|].
  exact (proj1 (disabled_never_double 300 500
                  [IframeEvents.Mousedown 1000 "book" (clickAt 1);
                   IframeEvents.Click 1000 "book" true (clickAt 1);
                   IframeEvents.Click 1050 "book" true (clickAt 2)] eq_refl)).
Defined.

Lemma bare_duokan_anchor_opens_footnote_witness :
  target footnoteClick = Some footnoteIcon
  /\ closest sel_bare_duokan footnoteIcon
     = Some {| self := footnoteAnchor; ancestors := [] |}
  /\ exists footnote,
       closest sel_footnote footnoteIcon = Some footnote
       /\ IframeEvents.postSingleClick "book" footnoteClick IframeEvents.init
          = IframeEvents.post
              (footnote_popup "book" footnote
                 (IframeEvents.footnoteText footnoteClick footnote))
              IframeEvents.init.
Proof.
  split; [reflexivity|]. split; [reflexivity|].
  exact (bare_duokan_anchor_opens_footnote "book" footnoteClick footnoteIcon
           {| self := footnoteAnchor; ancestors := [] |} IframeEvents.init
           eq_refl eq_refl).
Defined.

(** The popup of that click carries the [alt] text of the clicked image. *)
Example footnote_click_posts_alt_text :
  IframeEvents.posted
    (IframeEvents.handleClick 300 "book" true footnoteClick 1000 IframeEvents.init)
  = [footnote_popup "book" {| self := footnoteAnchor; ancestors := [] |} "note 3"].
Proof. vm_compute. reflexivity. Qed.

Lemma one_timer_per_element_witness :
  let st := LongPress.run "book"
              [LongPress.Dispatch 1000 LongPress.mousedown
                 (LongPress.MouseEv pictureNode 5 5)]
              (LongPress.addLongPressListeners [picture]) in
  LongPress.timers st !! 1%nat
  = Some (1500%Z, (LongPress.MouseEv pictureNode 5 5, pictureNode))
  /\ eid (self pictureNode) = eid (self pictureNode)
  /\ LongPress.pressTimers st !! eid (self pictureNode) = Some 1%nat.
Proof.
  cbv zeta.
  assert (H : LongPress.timers
                (LongPress.run "book"
                   [LongPress.Dispatch 1000 LongPress.mousedown
                      (LongPress.MouseEv pictureNode 5 5)]
                   (LongPress.addLongPressListeners [picture])) !! 1%nat
              = Some (1500%Z, (LongPress.MouseEv pictureNode 5 5, pictureNode)))
    by (vm_compute; reflexivity).
  split; [exact H|]. split; [reflexivity|].
  exact (proj2 (one_timer_per_element "book" [picture]
                  [LongPress.Dispatch 1000 LongPress.mousedown
                     (LongPress.MouseEv pictureNode 5 5)]
                  1%nat 1%nat 1500%Z 1500%Z
                  (LongPress.MouseEv pictureNode 5 5) (LongPress.MouseEv pictureNode 5 5)
                  pictureNode pictureNode H H eq_refl)).
Defined.

Lemma held_press_fires_once_witness :
  LongPress.elementToTrack (LongPress.targetOf (LongPress.MouseEv cell 5 5))
  = Some {| self := grid; ancestors := [] |}
  /\ (1000 + 500 <= 1600)%Z
  /\ LongPress.posted
       (LongPress.fire "book" 1600
          (LongPress.nextTimer (LongPress.addLongPressListeners [grid])) None
          (LongPress.startPress (LongPress.MouseEv cell 5 5) 1000
             (LongPress.addLongPressListeners [grid])))
     = LongPress.posted (LongPress.addLongPressListeners [grid])
       ++ [LongPress.payload "book" {| self := grid; ancestors := [] |}].
Proof.
  assert (H : (1000 + 500 <= 1600)%Z) by (vm_compute; discriminate).
  split; [reflexivity|]. split; [exact H|].
  exact (proj1 (proj2 (proj2
           (held_press_fires_once "book" (LongPress.MouseEv cell 5 5) 1000
              (LongPress.addLongPressListeners [grid])
              {| self := grid; ancestors := [] |} 1600 None 0%Z None
              eq_refl (or_introl eq_refl) H)))).
Defined.

Lemma release_cancels_press_witness :
  let st := LongPress.run "book"
              [LongPress.Dispatch 1000 LongPress.mousedown
                 (LongPress.MouseEv pictureNode 5 5)]
              (LongPress.addLongPressListeners [picture]) in
  LongPress.elementToTrack (LongPress.targetOf (LongPress.MouseEv pictureNode 5 5))
  = Some pictureNode
  /\ LongPress.pressTimers st !! eid (self pictureNode) = Some 1%nat
  /\ LongPress.timers (LongPress.cancelPress (LongPress.MouseEv pictureNode 5 5) st)
     !! 1%nat = None.
Proof.
  cbv zeta.
  assert (H : LongPress.pressTimers
                (LongPress.run "book"
                   [LongPress.Dispatch 1000 LongPress.mousedown
                      (LongPress.MouseEv pictureNode 5 5)]
                   (LongPress.addLongPressListeners [picture]))
              !! eid (self pictureNode) = Some 1%nat)
    by (vm_compute; reflexivity).
  split; [reflexivity|]. split; [exact H|].
  exact (proj1 (release_cancels_press "book" [picture]
                  [LongPress.Dispatch 1000 LongPress.mousedown
                     (LongPress.MouseEv pictureNode 5 5)]
                  (LongPress.MouseEv pictureNode 5 5) pictureNode 1%nat [] 0%Z None
                  eq_refl H)).
Defined.

Lemma second_press_restarts_timer_witness :
  let st := LongPress.run "book"
              [LongPress.Dispatch 1000 LongPress.mousedown
                 (LongPress.MouseEv pictureNode 5 5)]
              (LongPress.addLongPressListeners [picture]) in
  LongPress.elementToTrack (LongPress.targetOf (LongPress.MouseEv pictureNode 6 6))
  = Some pictureNode
  /\ LongPress.pressTimers st !! eid (self pictureNode) = Some 1%nat
  /\ LongPress.pressTimers
       (LongPress.startPress (LongPress.MouseEv pictureNode 6 6) 1200 st)
     !! eid (self pictureNode) = Some (LongPress.nextTimer st).
Proof.
  cbv zeta.
  assert (H : LongPress.pressTimers
                (LongPress.run "book"
                   [LongPress.Dispatch 1000 LongPress.mousedown
                      (LongPress.MouseEv pictureNode 5 5)]
                   (LongPress.addLongPressListeners [picture]))
              !! eid (self pictureNode) = Some 1%nat)
    by (vm_compute; reflexivity).
  split; [reflexivity|]. split; [exact H|].
  exact (proj1 (second_press_restarts_timer "book" [picture]
                  [LongPress.Dispatch 1000 LongPress.mousedown
                     (LongPress.MouseEv pictureNode 5 5)]
                  (LongPress.MouseEv pictureNode 6 6) 1200 pictureNode 1%nat [] 0%Z None
                  eq_refl H)).
Defined.

Lemma label_hides_after_latest_zoom_witness :
  TableViewer.armsLabelAt (TableViewer.Wheel ctrlWheel 5000) = Some 5000%Z
  /\ TableViewer.showZoomLabel
       (TableViewer.step
          (TableViewer.run [TableViewer.Mount 0; TableViewer.Fire 0 1;
                            TableViewer.ZoomIn 4000]
             TableViewer.init)
          (TableViewer.Wheel ctrlWheel 5000)) = true.
Proof.
  split; [reflexivity|].
  exact (proj1 (label_hides_after_latest_zoom
                  [TableViewer.Mount 0; TableViewer.Fire 0 1; TableViewer.ZoomIn 4000]
                  (TableViewer.Wheel ctrlWheel 5000) 5000%Z eq_refl)).
Defined.

(** Unmounted before the callback of the mount effect ran: the callback
    still runs and arms a hide timer. *)
Example remount_timer_survives_unmount :
  TableViewer.timers
    (TableViewer.run [TableViewer.Mount 0; TableViewer.Unmount; TableViewer.Fire 0 1]
       TableViewer.init) !! 2%nat = Some (2000%Z, TableViewer.HideLabel).
Proof. vm_compute. reflexivity. Qed.

(** Zoom in at 4000 and again at 5000: the timer armed at 4000 is gone
    when it would have run, and the label hides at 7000. *)
Example label_hides_at_7000 :
  TableViewer.showZoomLabel
    (TableViewer.run [TableViewer.ZoomIn 4000; TableViewer.ZoomIn 5000;
                      TableViewer.Fire 6000 1]
       TableViewer.init) = true
  /\ TableViewer.showZoomLabel
       (TableViewer.run [TableViewer.ZoomIn 4000; TableViewer.ZoomIn 5000;
                         TableViewer.Fire 6000 1; TableViewer.Fire 7000 2]
          TableViewer.init) = false.
Proof. vm_compute. split; reflexivity. Qed.

Lemma push_all_covers_auto_sync_witness :
  Readwise.debouncedPush (Some account) true (Some notes)
  = Readwise.Push
      [ {| Readwise.noteId := 2; Readwise.updatedAt := 6000; Readwise.deletedAt := None |};
        {| Readwise.noteId := 3; Readwise.updatedAt := 3000;
           Readwise.deletedAt := Some 7000%Z |} ]
  /\ Readwise.pushAllHighlights (Some account) true (Some notes) = Readwise.Push notes.
Proof.
  split; [reflexivity|].
  exact (proj1 (push_all_covers_auto_sync (Some account) true notes _ eq_refl)).
Defined.

(** After the push of those two notes succeeded at 8000 nothing is left
    to send; had it failed, the same two notes would be sent again. *)
Example sync_after_success_and_failure :
  Readwise.debouncedPush
    (Some (Readwise.afterPush
             {| Readwise.success := true; Readwise.isNetworkError := false;
                Readwise.message := "" |} 8000 account)) true (Some notes)
  = Readwise.Skip
  /\ Readwise.debouncedPush
       (Some (Readwise.afterPush
                {| Readwise.success := false; Readwise.isNetworkError := true;
                   Readwise.message := "offline" |} 8000 account)) true (Some notes)
     = Readwise.debouncedPush (Some account) true (Some notes).
Proof. split; reflexivity. Qed.

End ExtraRuns.

Section ViewerExtraRuns.
Import Js ImageViewer Samples.
Local Open Scope Q_scope.

Lemma getZoomedOffset_fixes_anchor_witness :
  ~ 1 == 0 /\ ~ 2 == 0
  /\ same (shownAt (Num 1) (Num 5) (Num 25)) (Num 30)
  /\ same (shownAt (Num 1) (Num 7) (Num 33)) (Num 40)
  /\ same (shownAt (Num 2)
             (x (getZoomedOffset (Num 30) (Num 40) (Num 1) (Num 2)
                   {| x := Num 5; y := Num 7 |}))
             (Num 25))
          (Num 30).
Proof.
  assert (H1 : ~ 1 == 0) by discriminate.
  assert (H2 : ~ 2 == 0) by discriminate.
  assert (H3 : same (shownAt (Num 1) (Num 5) (Num 25)) (Num 30)) by reflexivity.
  assert (H4 : same (shownAt (Num 1) (Num 7) (Num 33)) (Num 40)) by reflexivity.
  repeat (split; [assumption|]).
  exact (proj1 (getZoomedOffset_fixes_anchor 30 40 1 2 5 7 25 33 H1 H2 H3 H4)).
Defined.

Lemma getZoomedOffset_composes_witness :
  ~ 1 == 0 /\ ~ 2 == 0
  /\ same (x (getZoomedOffset (Num 30) (Num 40) (Num 2) (Num 3)
                (getZoomedOffset (Num 30) (Num 40) (Num 1) (Num 2)
                   {| x := Num 5; y := Num 7 |})))
          (x (getZoomedOffset (Num 30) (Num 40) (Num 1) (Num 3)
                {| x := Num 5; y := Num 7 |})).
Proof.
  assert (H1 : ~ 1 == 0) by discriminate.
  assert (H2 : ~ 2 == 0) by discriminate.
  repeat (split; [assumption|]).
  exact (proj1 (getZoomedOffset_composes 30 40 1 2 3 5 7 H1 H2)).
Defined.

Lemma drag_follows_pointer_witness :
  let st := handleZoomIn (handleZoomIn init) in
  le (scale st) (Num 1) = false /\ isDragging st = false
  /\ position st = {| x := Num 0; y := Num 0 |}
  /\ same (x (position
               (run taxicab
                  (MouseDown 100 100
                   :: map (fun c => MouseMove (fst c) (snd c)) [(150, 90); (10, 10)]
                   ++ [MouseMove 120 130]) st)))
          (Num (0 + (120 - 100))).
Proof.
  cbv zeta.
  assert (H1 : le (scale (handleZoomIn (handleZoomIn init))) (Num 1) = false)
    by (vm_compute; reflexivity).
  assert (H2 : isDragging (handleZoomIn (handleZoomIn init)) = false) by reflexivity.
  assert (H3 : position (handleZoomIn (handleZoomIn init))
               = {| x := Num 0; y := Num 0 |}) by reflexivity.
  repeat (split; [assumption|]).
  exact (proj1 (drag_follows_pointer taxicab 100 100 120 130 0 0 [(150, 90); (10, 10)]
                  (handleZoomIn (handleZoomIn init)) H1 H2 H3)).
Defined.

Lemma pan_disabled_at_small_scale_witness :
  le (scale init) (Num 1) = true
  /\ forallb isPanOp [MouseDown 10 10; MouseMove 50 60; MouseUp;
                      TouchStart [finger 1 1]; TouchMove [finger 9 9] (Some viewport)]
     = true
  /\ position (run taxicab
                 [MouseDown 10 10; MouseMove 50 60; MouseUp;
                  TouchStart [finger 1 1]; TouchMove [finger 9 9] (Some viewport)]
                 init) = position init.
Proof.
  assert (H1 : le (scale init) (Num 1) = true) by reflexivity.
  split; [exact H1|]. split; [reflexivity|].
  exact (proj1 (pan_disabled_at_small_scale taxicab
                  [MouseDown 10 10; MouseMove 50 60; MouseUp;
                   TouchStart [finger 1 1]; TouchMove [finger 9 9] (Some viewport)]
                  init H1 eq_refl)).
Defined.

Lemma click_after_drag_is_swallowed_witness :
  let st := handleZoomIn (handleZoomIn init) in
  le (scale st) (Num 1) = false /\ isDragging st = false
  /\ snd (handleContainerClick
            (run taxicab [MouseDown 100 100; MouseMove 120 130; MouseUp] st)) = false.
Proof.
  cbv zeta.
  assert (H1 : le (scale (handleZoomIn (handleZoomIn init))) (Num 1) = false)
    by (vm_compute; reflexivity).
  assert (H2 : isDragging (handleZoomIn (handleZoomIn init)) = false) by reflexivity.
  repeat (split; [assumption|]).
  exact (proj1 (click_after_drag_is_swallowed taxicab 100 100 120 130
                  (handleZoomIn (handleZoomIn init)) H1 H2)).
Defined.

Lemma image_scale_in_range_witness :
  wellFormed taxicab
    [ZoomIn; Wheel MoreSamples.ctrlWheel (Some viewport);
     TouchStart [finger 0 0; finger 30 40];
     TouchMove [finger 0 0; finger 300 400] (Some viewport);
     TouchEnd [finger 0 0]; TouchMove [finger 5 5] (Some viewport);
     AnimationFrame; TouchEnd []; ZoomOut; DoubleClick 10 10 (Some viewport)]
    init = true
  /\ exists q,
       scale (run taxicab
                [ZoomIn; Wheel MoreSamples.ctrlWheel (Some viewport);
                 TouchStart [finger 0 0; finger 30 40];
                 TouchMove [finger 0 0; finger 300 400] (Some viewport);
                 TouchEnd [finger 0 0]; TouchMove [finger 5 5] (Some viewport);
                 AnimationFrame; TouchEnd []; ZoomOut;
                 DoubleClick 10 10 (Some viewport)] init)
       = Num q /\ (1 # 2) <= q <= 8.
Proof.
  assert (H : wellFormed taxicab
                [ZoomIn; Wheel MoreSamples.ctrlWheel (Some viewport);
                 TouchStart [finger 0 0; finger 30 40];
                 TouchMove [finger 0 0; finger 300 400] (Some viewport);
                 TouchEnd [finger 0 0]; TouchMove [finger 5 5] (Some viewport);
                 AnimationFrame; TouchEnd []; ZoomOut;
                 DoubleClick 10 10 (Some viewport)] init = true)
    by (vm_compute; reflexivity).
  split; [exact H|].
  exact (proj1 (image_scale_in_range taxicab _ H)).
Defined.

(** The label of the scale reached by three zoom-in steps. *)
Example zoomLabel_of_1_3 : zoomLabel (13 # 10) = 130%Z /\ zoomLabel (123 # 100) = 125%Z.
Proof. vm_compute. split; reflexivity. Qed.

End ViewerExtraRuns.

(** * The squared comparison and [Math.sqrt]

    [sqrt_gt] decides [Math.sqrt(v) > t] on the squares; on the real
    numbers this is the same comparison. *)

From Stdlib Require Import Reals Qreals Lra.

Section SquareRoot.

Lemma sqrt_gt_sqrt (v t : Q) :
  (0 <= t)%Q -> (LongPress.sqrt_gt v t = true <-> (Q2R t < sqrt (Q2R v))%R).
Proof.
  intros Ht. apply Qle_Rle in Ht. rewrite RMicromega.Q2R_0 in Ht.
  unfold LongPress.sqrt_gt. rewrite negb_true_iff.
  assert (Hsq : (Q2R (t * t) = Q2R t * Q2R t)%R) by apply Q2R_mult.
  split.
  - intros H.
    assert (Hlt : (Q2R t * Q2R t < Q2R v)%R).
    { rewrite <- Hsq. apply Qlt_Rlt. apply Qnot_le_lt. intros Hle.
      apply Qle_bool_iff in Hle. congruence. }
    rewrite <- (sqrt_square (Q2R t)) at 1 by assumption.
    apply sqrt_lt_1_alt. split; [|assumption].
    apply Rmult_le_pos; assumption.
  - intros H. destruct (Qle_bool v (t * t)) eqn:E; [|reflexivity]. exfalso.
    apply Qle_bool_iff in E. apply Qle_Rle in E. rewrite Hsq in E.
    destruct (Rlt_le_dec (Q2R v) 0) as [Hneg|Hpos].
    + rewrite sqrt_neg_0 in H by lra. lra.
    + assert (Hle : (sqrt (Q2R v) <= sqrt (Q2R t * Q2R t))%R)
        by (apply sqrt_le_1_alt; assumption).
      rewrite sqrt_square in Hle by assumption. lra.
Qed.

End SquareRoot.
